(** * A shallow embedding of the discord.js convenience layer

    The development follows [src/src/index.ts] (the current revision of the
    client facade): the definition registry, the canonical signature used by
    the registration differ, the login sequence and the default interaction
    handler.  [src/src/Client.ts] (the oldest revision) is embedded in
    [Module Legacy] for its [addCommand], and with [Command.ts] in
    [Module FirstRevision] for its subcommand groups, its listener and its
    registration; [Module SecondRevision] has the filter of file names of
    the revision in between.

    External collaborators (the chat-platform SDK, the REST transport, the
    user's executors) are not part of the repository: they are taken as
    parameters ([Sdk], [Behaviour]) and never given a behaviour of our own. *)

From stdpp Require Import gmap strings list pretty.
From Stdlib Require Import Ascii String ZArith Lia.

Open Scope string_scope.
Open Scope list_scope.

Set Warnings "-register-all".

(* ===================================================================== *)
(** ** JavaScript [Map]: insertion-ordered, one entry per key             *)
(* ===================================================================== *)

Module JsMap.

(** A [Map<string, V>] as the association list of its entries in insertion
    order.  [set] on a key already present replaces the value where the
    entry stands; a new key is appended. *)
Definition t (V : Type) : Type := list (string * V).

Definition empty {V} : t V := [].

Fixpoint get {V} (k : string) (m : t V) : option V :=
  match m with
  | [] => None
  | (k', v) :: m' => if String.eqb k k' then Some v else get k m'
  end.

Fixpoint set {V} (k : string) (v : V) (m : t V) : t V :=
  match m with
  | [] => [(k, v)]
  | (k', v') :: m' =>
      if String.eqb k k' then (k', v) :: m' else (k', v') :: set k v m'
  end.

Definition values {V} (m : t V) : list V := map snd m.

Definition keys {V} (m : t V) : list string := map fst m.

(** [map.get(args[i])] where the index may be out of range: the key is then
    [undefined], which no entry of a string-keyed map has. *)
Definition get_opt {V} (k : option string) (m : t V) : option V :=
  match k with
  | Some k => get k m
  | None => None
  end.

End JsMap.

(** The own entries of a plain object used as a table, [{[key: string]: V}].
    Indexing with [undefined] reads the property named by the string of
    that word.  What indexing the object gives, the members it inherits
    included, is [obj_prop] below. *)
Definition obj_get {V} (k : option string) (o : gmap string V) : option V :=
  match k with
  | Some k => o !! k
  | None => o !! "undefined"
  end.

(* ===================================================================== *)
(** ** JSON values and [JSON.stringify(value, null, 4)]                   *)
(* ===================================================================== *)

(** A number that is a safe integer ([Number.isSafeInteger]): one the
    engine holds exactly, whose text is its decimal digits.  The other
    numbers (fractions, and the magnitudes the engine rounds or prints with
    an exponent) are outside this model. *)
Record SafeInteger : Type := mkSafeInteger {
  integer : Z;
  is_safe : (Z.abs integer <=? 9007199254740991)%Z = true
}.

(** What a builder's [toJSON()] returns.  Strings are sequences of code
    units below 256; numbers are safe integers. *)
Inductive json : Type :=
| JNull
| JBool (b : bool)
| JNum (n : SafeInteger)
| JStr (s : string)
| JArr (l : list json)
| JObj (l : list (string * json)).

Definition dquote : ascii := "034"%char.
Definition backslash : ascii := "092"%char.
Definition newline : string := String "010"%char EmptyString.

Definition hex_digit (n : N) : ascii :=
  if (n <? 10)%N then ascii_of_N (48 + n) else ascii_of_N (87 + n).

(** [QuoteJSONString]: the two-character escapes, [\u00XX] for the other
    control characters, everything else as it is. *)
Definition escape_char (c : ascii) : string :=
  let n := N_of_ascii c in
  if Ascii.eqb c dquote then String backslash (String dquote EmptyString)
  else if Ascii.eqb c backslash then String backslash (String backslash EmptyString)
  else if (n =? 8)%N then String backslash "b"
  else if (n =? 12)%N then String backslash "f"
  else if (n =? 10)%N then String backslash "n"
  else if (n =? 13)%N then String backslash "r"
  else if (n =? 9)%N then String backslash "t"
  else if (n <? 32)%N then
    String backslash
      (String "u" (String "0" (String "0"
         (String (hex_digit (n / 16)) (String (hex_digit (n mod 16)) EmptyString)))))
  else String c EmptyString.

Fixpoint escape (s : string) : string :=
  match s with
  | EmptyString => EmptyString
  | String c s' => escape_char c +:+ escape s'
  end.

Definition quote (s : string) : string :=
  String dquote (escape s +:+ String dquote EmptyString).

(** The indentation after [d] nesting levels with a gap of four spaces. *)
Fixpoint indent (d : nat) : string :=
  match d with
  | O => EmptyString
  | S d' => "    " +:+ indent d'
  end.

Fixpoint join (sep : string) (l : list string) : string :=
  match l with
  | [] => EmptyString
  | [x] => x
  | x :: l' => x +:+ sep +:+ join sep l'
  end.

(** [SerializeJSONProperty] with a non-empty gap: an empty array or object
    prints closed; otherwise one member per line, indented one level more
    than the bracket that closes it. *)
Fixpoint stringify (d : nat) (j : json) : string :=
  match j with
  | JNull => "null"
  | JBool true => "true"
  | JBool false => "false"
  | JNum n => pretty (integer n)
  | JStr s => quote s
  | JArr [] => "[]"
  | JArr l =>
      "[" +:+ newline +:+ indent (S d)
        +:+ join ("," +:+ newline +:+ indent (S d)) (map (stringify (S d)) l)
        +:+ newline +:+ indent d +:+ "]"
  | JObj [] => "{}"
  | JObj l =>
      "{" +:+ newline +:+ indent (S d)
        +:+ join ("," +:+ newline +:+ indent (S d))
              (map (fun kv => quote (fst kv) +:+ ": " +:+ stringify (S d) (snd kv)) l)
        +:+ newline +:+ indent d +:+ "}"
  end.

Definition JSON_stringify (j : json) : string := stringify 0 j.

(* ===================================================================== *)
(** ** The canonical signature                                            *)
(* ===================================================================== *)

(** The text up to the next double quote, and what follows that quote. *)
Fixpoint until_quote (s : string) : option (string * string) :=
  match s with
  | EmptyString => None
  | String c s' =>
      if Ascii.eqb c dquote then Some (EmptyString, s')
      else match until_quote s' with
           | Some (k, r) => Some (String c k, r)
           | None => None
           end
  end.

(** One match of the pattern: a quote, one or more characters that are not
    a quote, a quote, a colon.  The class excludes the quote, so the group
    ends at the next quote and nowhere else.  Returns the group and the text
    after the match. *)
Definition match_key (s : string) : option (string * string) :=
  match s with
  | String c s1 =>
      if Ascii.eqb c dquote then
        match until_quote s1 with
        | Some (String k0 k, String c2 rest) =>
            if Ascii.eqb c2 ":" then Some (String k0 k, rest) else None
        | _ => None
        end
      else None
  | EmptyString => None
  end.

(** The first [replace] of [login], global: at each position, left to
    right, a match is replaced by its group and a colon and the scan resumes
    after it; where there is none the character is copied. *)
Fixpoint replace_keys_from (fuel : nat) (s : string) : string :=
  match fuel with
  | O => s
  | S fuel' =>
      match match_key s with
      | Some (k, rest) => k +:+ ":" +:+ replace_keys_from fuel' rest
      | None =>
          match s with
          | EmptyString => EmptyString
          | String c s' => String c (replace_keys_from fuel' s')
          end
      end
  end.

Definition replace_keys (s : string) : string :=
  replace_keys_from (S (String.length s)) s.

(** The class [\s] on code units below 256: tab, line feed, vertical tab,
    form feed, carriage return, space and the no-break space. *)
Definition is_space (c : ascii) : bool :=
  let n := N_of_ascii c in
  ((9 <=? n)%N && (n <=? 13)%N) || (n =? 32)%N || (n =? 160)%N.

(** The second [replace] of [login]: every character of the class goes. *)
Fixpoint strip_spaces (s : string) : string :=
  match s with
  | EmptyString => EmptyString
  | String c s' =>
      if is_space c then strip_spaces s' else String c (strip_spaces s')
  end.

(** [parsedString] of [Client.login], from the list [all]. *)
Definition canonical (all : list json) : string :=
  strip_spaces (replace_keys (JSON_stringify (JArr all))).

(* ===================================================================== *)
(** ** Data model ([index.ts], lines 13-71 and 130-137)                   *)
(* ===================================================================== *)

(** A thrown value.  Failures are opaque values logged as they are. *)
Definition Error : Type := string.

(** A [PermissionsBitField], by its [bitfield]. *)
Definition PermissionsBitField : Type := N.

(** The kind discriminator of an interaction, as the type guards of the
    handler read it.  [OtherContextMenuCommand] is a context-menu command
    that is neither a user's nor a message's. *)
Inductive InteractionKind : Type :=
| ChatInputCommand
| UserContextMenuCommand
| MessageContextMenuCommand
| OtherContextMenuCommand
| Autocomplete
| AnySelectMenu
| ModalSubmit
| Button
| OtherInteraction.

(** The two flags of an interaction that [reply] reads.  They are the only
    mutable state of an interaction the handler looks at. *)
Record Flags : Type := mkFlags { deferred : bool; replied : bool }.

Record Interaction : Type := mkInteraction {
  kind : InteractionKind;
  commandName : string;
  customId : string;
  inGuild : bool;
  (** [member?.permissions]: absent when there is no member. *)
  member : option PermissionsBitField;
  (** [options.getSubcommand(false)] and [options.getSubcommandGroup(false)] *)
  getSubcommand : option string;
  getSubcommandGroup : option string
}.

(** A user's executor (a [TypedListener] or an [InteractionWithArgsListener]):
    given the interaction, its flags and the trailing arguments, the flags it
    leaves and the value it throws, if it throws. *)
Definition Behaviour : Type :=
  Interaction -> Flags -> list string -> Flags * option Error.

(** What a builder holds that this code reads: its [name] and the value of
    its [toJSON()]. *)
Record Builder : Type := mkBuilder { name : string; toJSON : json }.

Inductive Lookup : Type := selectMenus | modals_ | buttons.

Record TopLevelCommandData : Type := mkTopLevel {
  execute : Behaviour;
  autocomplete : option Behaviour;
  cmd_selectMenus : option (gmap string Behaviour);
  cmd_buttons : option (gmap string Behaviour);
  cmd_modals : option (gmap string Behaviour)
}.

(** [command[lookup]] *)
Definition table (lookup : Lookup) (c : TopLevelCommandData)
  : option (gmap string Behaviour) :=
  match lookup with
  | selectMenus => cmd_selectMenus c
  | modals_ => cmd_modals c
  | buttons => cmd_buttons c
  end.

Record CommandData : Type := mkCommandData {
  cd_data : Builder;
  cd_permissions : option PermissionsBitField;
  cd_top : TopLevelCommandData
}.

Record SubcommandData : Type := mkSubcommandData {
  sd_data : Builder;
  sd_top : TopLevelCommandData
}.

Record SubcommandGroupData : Type := mkSubcommandGroupData {
  gd_data : Builder;
  gd_subcommands : option (JsMap.t SubcommandData)
}.

(** The [execute] of a subcommand index: absent, the user's, or the closure
    [loadSubcommand] installs (lines 598-629), which reads the maps of the
    index it was made for when it is called. *)
Inductive IndexExecute : Type :=
| NoExecute
| UserExecute (b : Behaviour)
| DispatchExecute.

Record SubcommandIndexData : Type := mkSubcommandIndexData {
  id_data : Builder;
  id_permissions : option PermissionsBitField;
  id_subcommands : option (JsMap.t SubcommandData);
  id_subcommandGroups : option (JsMap.t SubcommandGroupData);
  id_execute : IndexExecute
}.

(** An entry of [commands], told apart by its [interface] tag. *)
Inductive Command : Type :=
| IsCommandData (c : CommandData)
| IsSubcommandIndexData (i : SubcommandIndexData).

Definition data (c : Command) : Builder :=
  match c with
  | IsCommandData c => cd_data c
  | IsSubcommandIndexData i => id_data i
  end.

Definition permissions (c : Command) : option PermissionsBitField :=
  match c with
  | IsCommandData c => cd_permissions c
  | IsSubcommandIndexData i => id_permissions i
  end.

Inductive ContextType : Type := User | Message.

Record ContextMenuData : Type := mkContextMenuData {
  cm_data : Builder;
  cm_type : ContextType;
  cm_permissions : option PermissionsBitField;
  cm_execute : Behaviour
}.

(** A modal definition; of its [ModalBuilder] the two fields read here. *)
Record ModalData : Type := mkModalData {
  custom_id : option string;
  title : option string;
  md_execute : Behaviour
}.

Record ContextMenus : Type := mkContextMenus {
  cm_User : JsMap.t ContextMenuData;
  cm_Message : JsMap.t ContextMenuData
}.

Definition menus_of (t : ContextType) (c : ContextMenus) : JsMap.t ContextMenuData :=
  match t with
  | User => cm_User c
  | Message => cm_Message c
  end.

(** The facade.  [user] is [this.user?.id]. *)
Record Client : Type := mkClient {
  store : gmap string string;
  commands : JsMap.t Command;
  modals : JsMap.t ModalData;
  contextMenus : ContextMenus;
  user : option string
}.

Definition new_Client : Client :=
  {| store := ∅; commands := JsMap.empty; modals := JsMap.empty;
     contextMenus := {| cm_User := JsMap.empty; cm_Message := JsMap.empty |};
     user := None |}.

(* ===================================================================== *)
(** ** External collaborators                                             *)
(* ===================================================================== *)

Inductive Route : Type :=
| applicationGuildCommands (clientId guildId : string)
| applicationCommands (clientId : string).

(** What [await super.login(token)] does: it rejects, or it resolves and
    leaves [this.user?.id] with a value or without one. *)
Inductive SuperLogin : Type :=
| Rejects (e : Error)
| Resolves (user_id : option string).

(** The SDK and the REST transport.  [rest_put] gives the value the call
    throws, or nothing when it succeeds. *)
Record Sdk : Type := mkSdk {
  has : PermissionsBitField -> PermissionsBitField -> bool;
  setDefaultMemberPermissions : PermissionsBitField -> Builder -> Builder;
  super_login : option string -> SuperLogin;
  rest_put : Route -> list json -> option Error
}.

Record Env : Type := mkEnv {
  DISCORD_TOKEN : option string;
  NODE_ENV : option string;
  CLIENT_ID : option string;
  TEST_GUILD_ID : option string
}.

(* ===================================================================== *)
(** ** Effects of the interaction handler                                 *)
(* ===================================================================== *)

(** The closure a dispatch reaches, by the path through the registry that
    led to it. *)
Inductive Handler : Type :=
| CommandExecute (command : string)
| SubcommandExecute (command : string) (group : option string) (subcommand : string)
| ContextMenuExecute (type : ContextType) (menu : string)
| AutocompleteOf (command : string) (group : option string) (subcommand : string)
| ModalExecute (modal : string)
| ComponentOf (command : string) (group : option string)
    (subcommand : option string) (lookup : Lookup) (key : string).

Inductive Event : Type :=
(** [this.logger.error(error)] *)
| LoggerError (e : Error)
(** [interaction.reply({ content, flags })], with whether the flags hold
    [MessageFlags.Ephemeral] *)
| Reply (content : string) (ephemeral : bool)
(** [interaction.editReply({ content, flags })] *)
| EditReply (content : string) (ephemeral : bool)
(** [interaction.followUp(...)]: no path of [index.ts] produces it *)
| FollowUp (content : string) (ephemeral : bool)
(** [interaction.respond(choices)], the choices as (name, value) *)
| Respond (choices : list (string * string))
(** a user's closure is called with these trailing arguments *)
| Invoke (h : Handler) (args : list string).

Inductive Outcome (A : Type) : Type :=
| Ok (a : A)
| Throw (e : Error).
Arguments Ok {A} a.
Arguments Throw {A} e.

(** A computation of the handler: from the interaction's flags to the events
    it produced, the flags it leaves, and its value or the value it threw.
    The SDK's calls on the interaction are taken to resolve.  Only the
    executors change the flags here: the handler never reads them again
    after a message of its own. *)
Definition M (A : Type) : Type := Flags -> list Event * Flags * Outcome A.

Definition ret {A} (a : A) : M A := fun f => ([], f, Ok a).

Definition bind {A B} (m : M A) (k : A -> M B) : M B :=
  fun f =>
    match m f with
    | (tr, f', Ok a) =>
        match k a f' with
        | (tr', f'', o) => (tr ++ tr', f'', o)
        end
    | (tr, f', Throw e) => (tr, f', Throw e)
    end.

Definition throw {A} (e : Error) : M A := fun f => ([], f, Throw e).

Definition emit (ev : Event) : M unit := fun f => ([ev], f, Ok tt).

Definition get_flags : M Flags := fun f => ([], f, Ok f).

(** [try { m } catch (error) { h error }] *)
Definition try_catch {A} (m : M A) (h : Error -> M A) : M A :=
  fun f =>
    match m f with
    | (tr, f', Ok a) => (tr, f', Ok a)
    | (tr, f', Throw e) =>
        match h e f' with
        | (tr', f'', o) => (tr ++ tr', f'', o)
        end
    end.

Declare Scope handler_scope.
Delimit Scope handler_scope with handler.
Notation "x <- m ;; k" := (bind m (fun x => k))
  (at level 100, m at next level, right associativity) : handler_scope.
Notation "m ;;; k" := (bind m (fun _ => k))
  (at level 100, right associativity) : handler_scope.
Open Scope handler_scope.

(** [await b(client, interaction, ...args)] *)
Definition call (h : Handler) (b : Behaviour) (i : Interaction) (args : list string)
  : M unit :=
  fun f =>
    match b i f args with
    | (f', None) => ([Invoke h args], f', Ok tt)
    | (f', Some e) => ([Invoke h args], f', Throw e)
    end.

(** A string in a condition. *)
Definition truthy (s : option string) : bool :=
  match s with
  | Some s => negb (String.eqb s EmptyString)
  | None => false
  end.

(** Reading a property or calling a method of [undefined]. *)
Definition TypeError (what : string) : Error := "TypeError: " +:+ what.

(** [reply] (lines 113-116) *)
Definition reply (content : string) (ephemeral : bool) : M unit :=
  f <- get_flags ;;
  if deferred f || replied f then emit (EditReply content ephemeral)
  else emit (Reply content ephemeral).

(** [try { m } catch (error) { this.logger.error(error) }] *)
Definition logged (m : M unit) : M unit :=
  try_catch m (fun error => emit (LoggerError error)).

(** [try { m } catch (error) { this.logger.error(error); await reply(interaction,
    { content, flags: [Ephemeral] }) }] *)
Definition answered (content : string) (m : M unit) : M unit :=
  try_catch m (fun error => emit (LoggerError error) ;;; reply content true).

(** [customId.split] on the delimiter: never an empty list. *)
Fixpoint split (s : string) : list string :=
  match s with
  | EmptyString => [EmptyString]
  | String c s' =>
      if Ascii.eqb c "-" then EmptyString :: split s'
      else match split s' with
           | x :: r => String c x :: r
           | [] => [String c EmptyString]
           end
  end.

(** [args[n]] as a property name and as a value. *)
Definition key_name (k : option string) : string :=
  match k with
  | Some k => k
  | None => "undefined"
  end.

(* ===================================================================== *)
(** ** The default interaction handler ([index.ts], lines 300-472)        *)
(* ===================================================================== *)

(** [required && !(member?.permissions).has(required)]: nothing is read when
    there is no requirement; with one, [has] is called on the member's
    permissions, which throws when there is no member. *)
Definition lacks_permission (sdk : Sdk) (required : option PermissionsBitField)
    (interaction : Interaction) : M bool :=
  match required with
  | None => ret false
  | Some p =>
      match member interaction with
      | None => throw (TypeError "Cannot read properties of undefined (reading 'has')")
      | Some m => ret (negb (has sdk m p))
      end
  end.

(** [map!.get(key)] on a map that may be missing. *)
Definition get_of {V} (m : option (JsMap.t V)) (k : string) : M (option V) :=
  match m with
  | None => throw (TypeError "Cannot read properties of undefined (reading 'get')")
  | Some m => ret (JsMap.get k m)
  end.

(** The closure [loadSubcommand] installs as [index.execute] (lines 598-629).
    [getSubcommand()] without an argument requires a subcommand and throws
    when the options name none. *)
Definition dispatch_execute (index : SubcommandIndexData) (interaction : Interaction)
  : M unit :=
  match kind interaction with
  | ChatInputCommand =>
      let groupName := getSubcommandGroup interaction in
      if truthy (getSubcommand interaction) then
        let name_ := key_name (getSubcommand interaction) in
        subcommand <-
          (if truthy groupName then
             match id_subcommandGroups index with
             | None => throw (TypeError "Cannot read properties of undefined (reading 'get')")
             | Some groups =>
                 match JsMap.get_opt groupName groups with
                 | None => ret None
                 | Some group => get_of (gd_subcommands group) name_
                 end
             end
           else get_of (id_subcommands index) name_) ;;
        match subcommand with
        | None => reply ("Could not find subcommand **" +:+ name_ +:+ "**!") true
        | Some subcommand =>
            answered "There was an error while executing this command!"
              (call (SubcommandExecute (name (id_data index))
                       (if truthy groupName then groupName else None) name_)
                 (execute (sd_top subcommand)) interaction [])
        end
      else throw "TypeError [CommandInteractionOptionNoSubcommand]"
  | _ => ret tt
  end.

(** [command.execute!(client, interaction)] *)
Definition command_execute (commandName : string) (command : Command)
    (interaction : Interaction) : M unit :=
  match command with
  | IsCommandData c =>
      call (CommandExecute commandName) (execute (cd_top c)) interaction []
  | IsSubcommandIndexData index =>
      match id_execute index with
      | NoExecute => throw (TypeError "command.execute is not a function")
      | UserExecute b => call (CommandExecute commandName) b interaction []
      | DispatchExecute => dispatch_execute index interaction
      end
  end.

(** Lines 305-338 *)
Definition chat_input (sdk : Sdk) (client : Client) (interaction : Interaction)
  : M unit :=
  let commandName := commandName interaction in
  match JsMap.get commandName (commands client) with
  | None => emit (Reply ("Could not find command **" +:+ commandName +:+ "**!") true)
  | Some command =>
      denied <-
        (if inGuild interaction
         then lacks_permission sdk (permissions command) interaction
         else ret false) ;;
      if (denied : bool) then
        emit (Reply "You do not have permission to use this command!" true)
      else
        answered "There was an error while executing this command!"
          (command_execute commandName command interaction)
  end.

(** Lines 339-373, after the subtype has selected the namespace. *)
Definition context_menu (sdk : Sdk) (client : Client) (interaction : Interaction)
    (type : ContextType) : M unit :=
  let commandName := commandName interaction in
  match JsMap.get commandName (menus_of type (contextMenus client)) with
  | None =>
      emit (Reply ("Could not find context menu **" +:+ commandName +:+ "**!") true)
  | Some context =>
      denied <- lacks_permission sdk (cm_permissions context) interaction ;;
      if (denied : bool) then
        emit (Reply "You do not have permission to use this context menu!" true)
      else
        answered "There was an error while executing this context menu!"
          (call (ContextMenuExecute type commandName) (cm_execute context) interaction [])
  end.

(** The entry is read as a subcommand index whatever its tag: a plain
    command has neither [subcommands] nor [subcommandGroups]. *)
Definition subcommands_of (c : Command) : option (JsMap.t SubcommandData) :=
  match c with
  | IsCommandData _ => None
  | IsSubcommandIndexData i => id_subcommands i
  end.

Definition subcommandGroups_of (c : Command) : option (JsMap.t SubcommandGroupData) :=
  match c with
  | IsCommandData _ => None
  | IsSubcommandIndexData i => id_subcommandGroups i
  end.

(** Lines 374-400 *)
Definition autocomplete_ (client : Client) (interaction : Interaction) : M unit :=
  let commandName := commandName interaction in
  let subcommand := getSubcommand interaction in
  let group := getSubcommandGroup interaction in
  match JsMap.get commandName (commands client) with
  | None => ret tt
  | Some command =>
      let autocomplete : option Behaviour :=
        if truthy subcommand then
          if truthy group then
            g ← subcommandGroups_of command ≫= JsMap.get_opt group;
            s ← gd_subcommands g ≫= JsMap.get_opt subcommand;
            autocomplete (sd_top s)
          else
            s ← subcommands_of command ≫= JsMap.get_opt subcommand;
            autocomplete (sd_top s)
        else None in
      match autocomplete with
      | None => emit (Respond [("ERROR", "autocompleteNotFound")])
      | Some autocomplete =>
          logged
            (call (AutocompleteOf commandName
                     (if truthy group then group else None) (key_name subcommand))
               autocomplete interaction [])
      end
  end.

(** What indexing a table finds.  A table is a plain object: besides its
    own entries it has the members it inherits from [Object.prototype].
    The handler calls what it finds without a receiver: [constructor] and
    [toString] then return, the other inherited functions throw a
    [TypeError] when they convert the receiver, and [__proto__] gives an
    object, which is no function.  The texts of these errors are the
    engine's. *)
Inductive Property : Type :=
| Own (i : Behaviour)
| Inherited (thrown : option Error).

Definition Object_prototype (k : string) : option Property :=
  if existsb (String.eqb k) ["constructor"; "toString"] then Some (Inherited None)
  else if String.eqb k "__proto__" then
    Some (Inherited (Some (TypeError "i is not a function")))
  else if String.eqb k "toLocaleString" then
    Some (Inherited
            (Some (TypeError "Object.prototype.toLocaleString called on null or undefined")))
  else if existsb (String.eqb k)
            ["hasOwnProperty"; "isPrototypeOf"; "propertyIsEnumerable"; "valueOf";
             "__defineGetter__"; "__defineSetter__";
             "__lookupGetter__"; "__lookupSetter__"] then
    Some (Inherited (Some (TypeError "Cannot convert undefined or null to object")))
  else None.

(** [table[key]]: an own entry stands before an inherited member. *)
Definition obj_prop (k : option string) (o : gmap string Behaviour) : option Property :=
  match obj_get k o with
  | Some i => Some (Own i)
  | None => Object_prototype (key_name k)
  end.

(** [await i(client, interaction, ...args)] on what the table gave.  Only
    an own entry is a closure of the user's. *)
Definition call_property (h : Handler) (i : Property) (interaction : Interaction)
    (args : list string) : M unit :=
  match i with
  | Own b => call h b interaction args
  | Inherited None => ret tt
  | Inherited (Some e) => throw e
  end.

(** Lines 401-468 *)
Definition component (client : Client) (interaction : Interaction) (lookup : Lookup)
  : M unit :=
  let args := split (customId interaction) in
  match JsMap.get_opt (args !! 0%nat) (commands client) with
  | None =>
      match kind interaction with
      | ModalSubmit =>
          match JsMap.get_opt (args !! 0%nat) (modals client) with
          | None => ret tt
          | Some modal =>
              let shifted := tail args in
              logged
                (call (ModalExecute (key_name (args !! 0%nat))) (md_execute modal)
                   interaction (drop 1 shifted))
          end
      | _ => ret tt
      end
  | Some (IsCommandData command) =>
      match table lookup (cd_top command) ≫= obj_prop (args !! 1%nat) with
      | None => ret tt
      | Some i =>
          logged
            (call_property (ComponentOf (key_name (args !! 0%nat)) None None lookup
                     (key_name (args !! 1%nat)))
               i interaction (drop 2 args))
      end
  | Some (IsSubcommandIndexData command) =>
      match id_subcommandGroups command ≫= JsMap.get_opt (args !! 1%nat) with
      | Some group =>
          match gd_subcommands group ≫= JsMap.get_opt (args !! 2%nat) with
          | None => ret tt
          | Some subcommand =>
              match table lookup (sd_top subcommand) ≫= obj_prop (args !! 3%nat) with
              | None => ret tt
              | Some i =>
                  logged
                    (call_property (ComponentOf (key_name (args !! 0%nat)) (args !! 1%nat)
                             (args !! 2%nat) lookup (key_name (args !! 3%nat)))
                       i interaction (drop 4 args))
              end
          end
      | None =>
          match id_subcommands command ≫= JsMap.get_opt (args !! 1%nat) with
          | None => ret tt
          | Some subcommand =>
              match table lookup (sd_top subcommand) ≫= obj_prop (args !! 2%nat) with
              | None => ret tt
              | Some i =>
                  logged
                    (call_property (ComponentOf (key_name (args !! 0%nat)) None
                             (args !! 1%nat) lookup (key_name (args !! 2%nat)))
                       i interaction (drop 3 args))
              end
          end
      end
  end.

(** The listener [useDefaultInteractionHandler] registers. *)
Definition useDefaultInteractionHandler (sdk : Sdk) (client : Client)
    (interaction : Interaction) : M unit :=
  match kind interaction with
  | ChatInputCommand => chat_input sdk client interaction
  | UserContextMenuCommand => context_menu sdk client interaction User
  | MessageContextMenuCommand => context_menu sdk client interaction Message
  | OtherContextMenuCommand => ret tt
  | Autocomplete => autocomplete_ client interaction
  | AnySelectMenu => component client interaction selectMenus
  | ModalSubmit => component client interaction modals_
  | Button => component client interaction buttons
  | OtherInteraction => ret tt
  end.

(* ===================================================================== *)
(** ** Loaders ([index.ts], lines 280-288, 560-650)                       *)
(* ===================================================================== *)

(** [a ?? b] on strings that may be absent. *)
Definition nullish {A} (a b : option A) : option A :=
  match a with
  | Some _ => a
  | None => b
  end.

(** The callback of [loadModalsFrom], for one loaded modal. *)
Definition loadModal (modal : ModalData) (client : Client) : Client :=
  let name_ := nullish (custom_id modal) (title modal) in
  if truthy name_ then
    {| store := store client; commands := commands client;
       modals := JsMap.set (key_name name_) modal (modals client);
       contextMenus := contextMenus client; user := user client |}
  else client.

(** [loadModalsFrom] once its loads have settled, in the order they did. *)
Definition loadModalsFrom (loaded : list ModalData) (client : Client) : Client :=
  fold_left (fun c m => loadModal m c) loaded client.

Definition with_commands (client : Client) (cs : JsMap.t Command) : Client :=
  {| store := store client; commands := cs; modals := modals client;
     contextMenus := contextMenus client; user := user client |}.

(** The definition [loadCommand] stores: its builder has received the
    permission requirement, when there is one. *)
Definition prepared (sdk : Sdk) (command : CommandData) : CommandData :=
  match cd_permissions command with
  | Some p =>
      {| cd_data := setDefaultMemberPermissions sdk p (cd_data command);
         cd_permissions := cd_permissions command; cd_top := cd_top command |}
  | None => command
  end.

(** [loadCommand] (lines 645-650), from the module's default export. *)
Definition loadCommand (sdk : Sdk) (command : CommandData) (client : Client) : Client :=
  let command := prepared sdk command in
  with_commands client
    (JsMap.set (name (cd_data command)) (IsCommandData command) (commands client)).

(** The synchronous part of [loadSubcommand] (lines 560-565 and 598-632),
    from the default export of the folder's index: the maps and the executor
    get their defaults and the index is stored.  The files of the folder
    attach themselves to the stored object as their imports resolve. *)
Definition loadSubcommand (sdk : Sdk) (index : SubcommandIndexData) (client : Client)
  : Client :=
  let index :=
    {| id_data := match id_permissions index with
                  | Some p => setDefaultMemberPermissions sdk p (id_data index)
                  | None => id_data index
                  end;
       id_permissions := id_permissions index;
       id_subcommands := nullish (id_subcommands index) (Some JsMap.empty);
       id_subcommandGroups := nullish (id_subcommandGroups index) (Some JsMap.empty);
       id_execute := match id_execute index with
                     | NoExecute => DispatchExecute
                     | e => e
                     end |} in
  with_commands client
    (JsMap.set (name (id_data index)) (IsSubcommandIndexData index) (commands client)).

(** The commands of a folder once their loads have settled, in that order. *)
Definition loadCommands (sdk : Sdk) (loaded : list CommandData) (client : Client)
  : Client :=
  fold_left (fun c d => loadCommand sdk d c) loaded client.

(** [src/src/Client.ts]: the registry is a [Collection], which is a [Map]. *)
Module Legacy.

Record Command : Type := mkCommand {
  name : string;
  execute : Behaviour
}.

Record Client : Type := mkClient { commands : JsMap.t Command }.

(** [addCommand] (lines 100-104) *)
Definition addCommand (command : Command) (client : Client) : Client :=
  {| commands := JsMap.set (name command) command (commands client) |}.

Definition addCommands (loaded : list Command) (client : Client) : Client :=
  fold_left (fun c d => addCommand d c) loaded client.

End Legacy.

(* ===================================================================== *)
(** ** Login and the registration differ ([index.ts], lines 483-530)      *)
(* ===================================================================== *)

Inductive LogLevel : Type := debug | info | log | warn | error | success.

Inductive LoginEvent : Type :=
| Logger (level : LogLevel) (message : string)
| SleepAsync (ms : Z)
| RestPut (route : Route) (body : list json)
| StoreSet (key value : string).

(** How a call of [login] ends: it resolves with the token, the process
    exits, or the promise rejects. *)
Inductive LoginEnd : Type :=
| Returns (token : string)
| ProcessExit (code : Z)
| Rejected (e : Error).

Definition reserved_key : string := "%registered_applications%".

(** [all]: the commands, then the user context menus, then the message
    context menus, each in the order of its map. *)
Definition all_of (client : Client) : list json :=
  map (fun c => toJSON (data c)) (JsMap.values (commands client))
  ++ map (fun c => toJSON (cm_data c)) (JsMap.values (cm_User (contextMenus client)))
  ++ map (fun c => toJSON (cm_data c)) (JsMap.values (cm_Message (contextMenus client))).

Definition parsedString (client : Client) : string := canonical (all_of client).

(** [store.get(key, fallback)] *)
Definition store_get (key fallback : string) (client : Client) : string :=
  default fallback (store client !! key).

Definition store_set (key value : string) (client : Client) : Client :=
  {| store := <[key := value]> (store client); commands := commands client;
     modals := modals client; contextMenus := contextMenus client;
     user := user client |}.

Definition with_user (client : Client) (u : option string) : Client :=
  {| store := store client; commands := commands client; modals := modals client;
     contextMenus := contextMenus client; user := u |}.

Definition login (sdk : Sdk) (env : Env) (client : Client) (token : option string)
  : Client * list LoginEvent * LoginEnd :=
  let token := nullish token (DISCORD_TOKEN env) in
  match super_login sdk token with
  | Rejects e => (client, [], Rejected e)
  | Resolves u =>
      let client := with_user client u in
      let isTestEnv :=
        match NODE_ENV env with
        | Some v => String.eqb v "development"
        | None => false
        end in
      let clientId := nullish (CLIENT_ID env) (user client) in
      let guildId := TEST_GUILD_ID env in
      if negb (truthy token) || negb (truthy clientId) then
        (client, [Logger error "No token or client ID was provided!"], ProcessExit 1)
      else
        let token := key_name token in
        let clientId := key_name clientId in
        let waited :=
          if isTestEnv && negb (truthy guildId) then
            [Logger warn ("No guild ID was provided for the test environment!"
                            +:+ newline
                            +:+ "Commands will be registered globally in 5 seconds.");
             SleepAsync 5000]
          else [] in
        let checking :=
          waited ++ [Logger debug "Checking if interactions need to be registered..."] in
        let all := all_of client in
        let parsedString := canonical all in
        if String.eqb (store_get reserved_key EmptyString client) parsedString
           && negb (String.eqb parsedString EmptyString) then
          (client,
           checking ++ [Logger log "Interactions are currently up to date!"],
           Returns token)
        else
          let route :=
            if isTestEnv && truthy guildId
            then applicationGuildCommands clientId (key_name guildId)
            else applicationCommands clientId in
          match rest_put sdk route all with
          | None =>
              (store_set reserved_key parsedString client,
               checking ++ [Logger info "Registering interactions...";
                            RestPut route all;
                            StoreSet reserved_key parsedString;
                            Logger success "Interactions have been registered!"],
               Returns token)
          | Some e =>
              (client,
               checking ++ [Logger info "Registering interactions...";
                            RestPut route all;
                            Logger error e],
               ProcessExit 1)
          end
  end.

(** The calls of the REST transport in a trace. *)
Definition is_put (ev : LoginEvent) : bool :=
  match ev with
  | RestPut _ _ => true
  | _ => false
  end.

Definition puts (tr : list LoginEvent) : nat := List.length (List.filter is_put tr).

(* ===================================================================== *)
(** ** Vocabulary of the statements                                       *)
(* ===================================================================== *)

(** The most recently loaded of the definitions registered under [n]. *)
Definition last_loaded {A} (key : A -> string) (n : string) (loaded : list A) : option A :=
  List.find (fun d => String.eqb (key d) n) (rev loaded).

(** The table a component interaction is looked up in, by its kind
    (lines 404-409). *)
Definition lookup_of_kind (k : InteractionKind) : option Lookup :=
  match k with
  | AnySelectMenu => Some selectMenus
  | ModalSubmit => Some modals_
  | Button => Some buttons
  | _ => None
  end.

(** The kind of a context-menu interaction of each subtype. *)
Definition context_kind (t : ContextType) : InteractionKind :=
  match t with
  | User => UserContextMenuCommand
  | Message => MessageContextMenuCommand
  end.

(** The same interaction inside or outside a guild. *)
Definition set_inGuild (b : bool) (i : Interaction) : Interaction :=
  {| kind := kind i; commandName := commandName i; customId := customId i;
     inGuild := b; member := member i; getSubcommand := getSubcommand i;
     getSubcommandGroup := getSubcommandGroup i |}.

(** The events of a trace that call a user's closure. *)
Definition is_invoke (ev : Event) : bool :=
  match ev with
  | Invoke _ _ => true
  | _ => false
  end.

Definition invocations (tr : list Event) : list Event := List.filter is_invoke tr.

Definition trace_of {A} (r : list Event * Flags * Outcome A) : list Event := fst (fst r).

(** A follow-up message among the events. *)
Definition is_followUp (ev : Event) : bool :=
  match ev with
  | FollowUp _ _ => true
  | _ => false
  end.

(** A computation none of whose events is a follow-up. *)
Definition no_followUp {A} (m : M A) : Prop :=
  forall f, Forall (fun ev => is_followUp ev = false) (trace_of (m f)).

Definition login_trace (r : Client * list LoginEvent * LoginEnd) : list LoginEvent :=
  snd (fst r).
Definition login_client (r : Client * list LoginEvent * LoginEnd) : Client :=
  fst (fst r).
Definition login_end (r : Client * list LoginEvent * LoginEnd) : LoginEnd := snd r.

(* ===================================================================== *)
(** ** Fixtures                                                           *)
(* ===================================================================== *)

Module Fixtures.

Definition succeeds : Behaviour := fun _ f _ => (f, None).
Definition fails (e : Error) : Behaviour := fun _ f _ => (f, Some e).
(** An executor that defers the reply and then throws. *)
Definition defers_then_fails (e : Error) : Behaviour :=
  fun _ f _ => ({| deferred := true; replied := replied f |}, Some e).

Definition fresh : Flags := {| deferred := false; replied := false |}.

Definition builder (n : string) : Builder :=
  {| name := n;
     toJSON := JObj [("name", JStr n); ("description", JStr "A command");
                     ("options", JArr []); ("type", JNum {| integer := 1; is_safe := eq_refl |})] |}.

Definition top (b : Behaviour) : TopLevelCommandData :=
  {| execute := b; autocomplete := None; cmd_selectMenus := None;
     cmd_buttons := None; cmd_modals := None |}.

Definition with_buttons (b : Behaviour) (keys : list string) : TopLevelCommandData :=
  {| execute := succeeds; autocomplete := None; cmd_selectMenus := None;
     cmd_buttons := Some (list_to_map (map (fun k => (k, b)) keys));
     cmd_modals := None |}.

Definition command (n : string) (p : option PermissionsBitField) (b : Behaviour)
  : CommandData :=
  {| cd_data := builder n; cd_permissions := p; cd_top := top b |}.

(** A bitfield test in the manner of the SDK, a transport that succeeds
    and a gateway login that fails when no token is resolvable, as the
    specification describes the SDK's (section 6). *)
Definition sdk : Sdk :=
  {| has := fun m p => N.testbit m 3 || N.eqb (N.land m p) p;
     setDefaultMemberPermissions := fun p b =>
       {| name := name b;
          toJSON := match toJSON b with
                    | JObj l => JObj (l ++ [("default_member_permissions", JStr (pretty p))])
                    | j => j
                    end |};
     super_login := fun t => if truthy t then Resolves (Some "4242") else Rejects "TokenInvalid";
     rest_put := fun _ _ => None |}.

(** The same with a transport that throws. *)
Definition sdk_offline : Sdk :=
  {| has := has sdk; setDefaultMemberPermissions := setDefaultMemberPermissions sdk;
     super_login := super_login sdk;
     rest_put := fun _ _ => Some "ECONNREFUSED" |}.

(** The same with a gateway login that leaves no user behind. *)
Definition sdk_no_user : Sdk :=
  {| has := has sdk; setDefaultMemberPermissions := setDefaultMemberPermissions sdk;
     super_login := fun t => if truthy t then Resolves None else Rejects "TokenInvalid";
     rest_put := rest_put sdk |}.

(** A text between double quotes. *)
Definition quoted (s : string) : string :=
  String dquote (s +:+ String dquote EmptyString).

Definition no_env : Env :=
  {| DISCORD_TOKEN := None; NODE_ENV := None; CLIENT_ID := None;
     TEST_GUILD_ID := None |}.

Definition interaction (k : InteractionKind) (n id : string) : Interaction :=
  {| kind := k; commandName := n; customId := id; inGuild := false;
     member := None; getSubcommand := None; getSubcommandGroup := None |}.

Definition in_guild (i : Interaction) (m : PermissionsBitField) : Interaction :=
  {| kind := kind i; commandName := commandName i; customId := customId i;
     inGuild := true; member := Some m; getSubcommand := getSubcommand i;
     getSubcommandGroup := getSubcommandGroup i |}.

Definition subcommand (n : string) (t : TopLevelCommandData) : SubcommandData :=
  {| sd_data := builder n; sd_top := t |}.

(** An index [cmdA] with the subcommand [sub1], whose buttons are [btn1],
    and the group [grp1] holding [sub2] with the same buttons. *)
Definition cmdA (b : Behaviour) : SubcommandIndexData :=
  {| id_data := builder "cmdA"; id_permissions := None;
     id_subcommands := Some [("sub1", subcommand "sub1" (with_buttons b ["btn1"]))];
     id_subcommandGroups :=
       Some [("grp1",
              {| gd_data := builder "grp1";
                 gd_subcommands :=
                   Some [("sub2", subcommand "sub2" (with_buttons b ["btn1"]))] |})];
     id_execute := NoExecute |}.

Definition ping_client : Client :=
  loadCommand sdk (command "ping" None succeeds) new_Client.

End Fixtures.

(* ===================================================================== *)
(** ** Vocabulary of the handler's invariants                             *)
(* ===================================================================== *)

(** Every event of a computation satisfies [P]. *)
Definition all_events {A} (P : Event -> Prop) (m : M A) : Prop :=
  forall f, Forall P (trace_of (m f)).

(** A message to the user: a reply, an edit of the reply, a follow-up or an
    autocomplete response. *)
Definition is_message (ev : Event) : bool :=
  match ev with
  | Reply _ _ | EditReply _ _ | FollowUp _ _ | Respond _ => true
  | _ => false
  end.

Definition messages (tr : list Event) : list Event := List.filter is_message tr.

Definition result_of {A} (r : list Event * Flags * Outcome A) : Outcome A := snd r.

(** A computation that throws nothing. *)
Definition never_throws {A} (m : M A) : Prop :=
  forall f, exists a, result_of (m f) = Ok a.

(** A computation that calls no closure, and one that calls at most one. *)
Definition no_call {A} (m : M A) : Prop :=
  forall f, invocations (trace_of (m f)) = [].

Definition at_most_one_call {A} (m : M A) : Prop :=
  forall f, List.length (invocations (trace_of (m f))) <= 1.

(** A computation that sends no message, and one that sends at most one
    and none at all when it throws. *)
Definition no_message {A} (m : M A) : Prop :=
  forall f, messages (trace_of (m f)) = [].

Definition one_message_unless_thrown {A} (m : M A) : Prop :=
  forall f,
    match result_of (m f) with
    | Ok _ => List.length (messages (trace_of (m f))) <= 1
    | Throw _ => messages (trace_of (m f)) = []
    end.

(** The registry name a closure was reached under. *)
Definition handler_root (h : Handler) : string :=
  match h with
  | CommandExecute c => c
  | SubcommandExecute c _ _ => c
  | ContextMenuExecute _ c => c
  | AutocompleteOf c _ _ => c
  | ModalExecute c => c
  | ComponentOf c _ _ _ _ => c
  end.

(** A text without the delimiter of custom ids. *)
Fixpoint hyphen_free (s : string) : bool :=
  match s with
  | EmptyString => true
  | String c s' => negb (Ascii.eqb c "-") && hyphen_free s'
  end.

(** The kinds the component branch of the handler takes (line 401). *)
Definition is_component (k : InteractionKind) : bool :=
  match k with
  | AnySelectMenu | ModalSubmit | Button => true
  | _ => false
  end.

(** An event of the component branch: a call under the first segment of
    the custom id, or a logged error. *)
Definition component_event (root : string) (ev : Event) : Prop :=
  match ev with
  | Invoke h _ => handler_root h = root
  | LoggerError _ => True
  | _ => False
  end.

(** The first segment of a custom id. *)
Definition first_segment (id : string) : string :=
  key_name (split id !! 0%nat).

(* ===================================================================== *)
(** ** Vocabulary of the login sequence                                   *)
(* ===================================================================== *)

(** The development mode of the environment. *)
Definition development (env : Env) : bool :=
  match NODE_ENV env with
  | Some v => String.eqb v "development"
  | None => false
  end.

(** The configuration [login] goes on with: the SDK's login resolved and
    left the user [u], and a token and a client id are there. *)
Definition configured (sdk : Sdk) (env : Env) (token : option string)
    (u : option string) : Prop :=
  super_login sdk (nullish token (DISCORD_TOKEN env)) = Resolves u
  /\ truthy (nullish token (DISCORD_TOKEN env)) = true
  /\ truthy (nullish (CLIENT_ID env) u) = true.

Definition is_sleep (ev : LoginEvent) : bool :=
  match ev with
  | SleepAsync _ => true
  | _ => false
  end.

(* ===================================================================== *)
(** ** Context menus ([index.ts], lines 264-271)                          *)
(* ===================================================================== *)



(* ===================================================================== *)
(** ** Vocabulary of the signature                                        *)
(* ===================================================================== *)

Fixpoint all_chars (P : ascii -> bool) (s : string) : bool :=
  match s with
  | EmptyString => true
  | String c s' => P c && all_chars P s'
  end.

Definition no_quote (s : string) : bool :=
  all_chars (fun c => negb (Ascii.eqb c dquote)) s.

Definition no_space (s : string) : bool :=
  all_chars (fun c => negb (is_space c)) s.

Definition starts_with_colon (s : string) : bool :=
  match s with
  | String c _ => Ascii.eqb c ":"
  | EmptyString => false
  end.

(** A text as the JSON of a builder has them: no double quote in it and no
    colon at its start. *)
Definition plain_string (s : string) : bool :=
  no_quote s && negb (starts_with_colon s).

(** A JSON value all of whose strings are plain and none of whose keys is
    empty. *)
Fixpoint plain (j : json) : bool :=
  match j with
  | JStr s => plain_string s
  | JArr l => forallb plain l
  | JObj l =>
      forallb (fun kv => plain_string (fst kv)
                         && negb (String.eqb (fst kv) EmptyString)
                         && plain (snd kv)) l
  | _ => true
  end.

(** The compact form of a JSON value: no blank anywhere, keys bare, string
    values between quotes. *)
Fixpoint compact (j : json) : string :=
  match j with
  | JNull => "null"
  | JBool true => "true"
  | JBool false => "false"
  | JNum n => pretty (integer n)
  | JStr s => String dquote (strip_spaces (escape s) +:+ String dquote EmptyString)
  | JArr l => "[" +:+ join "," (map compact l) +:+ "]"
  | JObj l =>
      "{" +:+ join ","
                (map (fun kv => strip_spaces (escape (fst kv)) +:+ ":" +:+ compact (snd kv)) l)
        +:+ "}"
  end.

(** The text of [stringify] with the quotes of the keys taken off. *)
Fixpoint unquoted (d : nat) (j : json) : string :=
  match j with
  | JNull => "null"
  | JBool true => "true"
  | JBool false => "false"
  | JNum n => pretty (integer n)
  | JStr s => quote s
  | JArr [] => "[]"
  | JArr l =>
      "[" +:+ newline +:+ indent (S d)
        +:+ join ("," +:+ newline +:+ indent (S d)) (map (unquoted (S d)) l)
        +:+ newline +:+ indent d +:+ "]"
  | JObj [] => "{}"
  | JObj l =>
      "{" +:+ newline +:+ indent (S d)
        +:+ join ("," +:+ newline +:+ indent (S d))
              (map (fun kv => escape (fst kv) +:+ ": " +:+ unquoted (S d) (snd kv)) l)
        +:+ newline +:+ indent d +:+ "}"
  end.

(** In the text [r], what follows the first double quote does not begin
    with a colon. *)
Definition first_quote_ok (r : string) : bool :=
  match until_quote r with
  | Some (_, rest) => negb (starts_with_colon rest)
  | None => true
  end.

(** A text the scan may resume in after a string value. *)
Definition ok_cont (r : string) : bool :=
  negb (starts_with_colon r) && first_quote_ok r.

(** A blank that [stringify] leaves as it is inside a string: the space and
    the no-break space (the other blanks are escaped). *)
Definition is_blank (c : ascii) : bool :=
  let n := N_of_ascii c in (n =? 32)%N || (n =? 160)%N.

Fixpoint remove_blanks (s : string) : string :=
  match s with
  | EmptyString => EmptyString
  | String c s' => if is_blank c then remove_blanks s' else String c (remove_blanks s')
  end.

(** The same JSON value with the blanks taken out of its strings and keys. *)
Fixpoint squeeze (j : json) : json :=
  match j with
  | JStr s => JStr (remove_blanks s)
  | JArr l => JArr (map squeeze l)
  | JObj l => JObj (map (fun kv => (remove_blanks (fst kv), squeeze (snd kv))) l)
  | j => j
  end.

(** The scan takes the text [t], wherever it stands before a text it may
    resume in, to the text [u]. *)
Definition scans_to (t u : string) : Prop :=
  forall r, ok_cont r = true -> replace_keys (t +:+ r) = u +:+ replace_keys r.

(** Put before a text whose first quote opens no match, [t] gives such a
    text again. *)
Definition keeps_first_quote (t : string) : Prop :=
  forall r, first_quote_ok r = true -> first_quote_ok (t +:+ r) = true.

(** A text that is not empty and does not begin with a colon. *)
Definition head_ok (t : string) : bool :=
  negb (starts_with_colon t) && negb (String.eqb t EmptyString).

(** A digit or the minus sign. *)
Definition is_numeric (c : ascii) : bool :=
  let n := N_of_ascii c in ((48 <=? n)%N && (n <=? 57)%N) || (n =? 45)%N.

(** The text of a JSON value is scanned as a piece at every depth. *)
Definition scans_well (j : json) : Prop :=
  forall d, scans_to (stringify d j) (unquoted d j)
            /\ keeps_first_quote (stringify d j)
            /\ head_ok (stringify d j) = true.

(* ===================================================================== *)
(** ** The files of a subcommand folder ([index.ts], lines 566-596)       *)
(* ===================================================================== *)

(** What a folder of subcommands holds besides its index, once imported:
    the default export of a file, or the default export of the index of a
    sub-folder together with those of its files. *)
Inductive FolderEntry : Type :=
| SubcommandFile (subcommand : SubcommandData)
| GroupFolder (group : SubcommandGroupData) (files : list SubcommandData).

(** The calls of the SDK's builders the loop makes, each from the builder
    given and the builder called to the builder as the call leaves it:
    [index.data.addSubcommand], [group.data.addSubcommand] and
    [index.data.addSubcommandGroup].  They are taken to return. *)
Record BuilderCalls : Type := mkBuilderCalls {
  index_addSubcommand : Builder -> Builder -> Builder;
  group_addSubcommand : Builder -> Builder -> Builder;
  index_addSubcommandGroup : Builder -> Builder -> Builder
}.

(** Lines 579-581, for the files of a group in the order their imports
    settle: the group has its map from line 574. *)
Definition attach_to_group (calls : BuilderCalls) (group : SubcommandGroupData)
    (files : list SubcommandData) : SubcommandGroupData :=
  fold_left
    (fun group subcommand =>
       {| gd_data := group_addSubcommand calls (sd_data subcommand) (gd_data group);
          gd_subcommands :=
            JsMap.set (name (sd_data subcommand)) subcommand <$> gd_subcommands group |})
    files
    {| gd_data := gd_data group;
       gd_subcommands := nullish (gd_subcommands group) (Some JsMap.empty) |}.

(** One entry of the folder attached to the index (lines 572-595).  The
    group is stored under the name its builder has when its own import
    settles, and the index is given that builder then; the files of the
    group are attached to the stored group afterwards. *)
Definition attach (calls : BuilderCalls) (entry : FolderEntry) (index : SubcommandIndexData)
  : SubcommandIndexData :=
  match entry with
  | SubcommandFile subcommand =>
      {| id_data := index_addSubcommand calls (sd_data subcommand) (id_data index);
         id_permissions := id_permissions index;
         id_subcommands :=
           JsMap.set (name (sd_data subcommand)) subcommand <$> id_subcommands index;
         id_subcommandGroups := id_subcommandGroups index;
         id_execute := id_execute index |}
  | GroupFolder group files =>
      {| id_data := index_addSubcommandGroup calls (gd_data group) (id_data index);
         id_permissions := id_permissions index;
         id_subcommands := id_subcommands index;
         id_subcommandGroups :=
           JsMap.set (name (gd_data group)) (attach_to_group calls group files)
             <$> id_subcommandGroups index;
         id_execute := id_execute index |}
  end.

(** [loadSubcommand] once the imports of the folder have settled, in the
    order they did.  The synchronous part stores the index first; the
    entries are attached to the stored object, where it stands in the
    registry. *)
Definition loadSubcommandFolder (sdk : Sdk) (calls : BuilderCalls)
    (index : SubcommandIndexData) (entries : list FolderEntry) (client : Client)
  : Client :=
  let client := loadSubcommand sdk index client in
  let key :=
    match id_permissions index with
    | Some p => name (setDefaultMemberPermissions sdk p (id_data index))
    | None => name (id_data index)
    end in
  match JsMap.get key (commands client) with
  | Some (IsSubcommandIndexData stored) =>
      with_commands client
        (JsMap.set key
           (IsSubcommandIndexData (fold_left (fun i e => attach calls e i) entries stored))
           (commands client))
  | _ => client
  end.

(** The subcommand files among the entries, and the group folders. *)
Definition subcommand_files (entries : list FolderEntry) : list SubcommandData :=
  flat_map (fun e => match e with
                     | SubcommandFile s => [s]
                     | GroupFolder _ _ => []
                     end) entries.

Definition group_folders (entries : list FolderEntry)
  : list (SubcommandGroupData * list SubcommandData) :=
  flat_map (fun e => match e with
                     | SubcommandFile _ => []
                     | GroupFolder g files => [(g, files)]
                     end) entries.

(** The builder of the index after the calls the entries make on it
    (lines 585 and 592). *)
Definition built (calls : BuilderCalls) (entries : list FolderEntry) (data : Builder)
  : Builder :=
  fold_left (fun b e => match e with
                        | SubcommandFile s => index_addSubcommand calls (sd_data s) b
                        | GroupFolder g _ => index_addSubcommandGroup calls (gd_data g) b
                        end) entries data.

(* ===================================================================== *)
(** ** The first revision: [Command.ts] and [Client.ts]                   *)
(* ===================================================================== *)

(** [Legacy] above has the registry of this revision alone, with every
    executor a closure of the user's.  Here the executor a subcommand group
    installs is opened, and the listener and the registration follow. *)
Module FirstRevision.

(** [Subcommand] ([Command.ts], at lines 1077-1100 of [index.ts]): of its
    builder the name, and the executor. *)
Record Subcommand : Type := mkSubcommand {
  sc_name : string;
  sc_execute : Behaviour
}.

(** The [execute] of a [Command]: a closure of the user's (the one given to
    [setExecutor], or the empty default), or the closure the constructor of
    [SubcommandGroup] installs, which reads the array [subcommands] when it
    is called. *)
Inductive Executor : Type :=
| Closure (b : Behaviour)
| FindSubcommand.

(** A [Command] (lines 1033-1061) or a [SubcommandGroup] (lines 1117-1158),
    which is a [Command] with the array [subcommands]; a plain [Command] has
    the empty array. *)
Record Command : Type := mkCommand {
  name : string;
  execute : Executor;
  subcommands : list Subcommand
}.

(** [() => {}] *)
Definition noop : Behaviour := fun _ f _ => (f, None).

(** [new Command(name)] *)
Definition new_Command (n : string) : Command :=
  {| name := n; execute := Closure noop; subcommands := [] |}.

(** [new SubcommandGroup(name)] *)
Definition new_SubcommandGroup (n : string) : Command :=
  {| name := n; execute := FindSubcommand; subcommands := [] |}.

(** [setExecutor] (lines 1057-1060) *)
Definition setExecutor (b : Behaviour) (this : Command) : Command :=
  {| name := name this; execute := Closure b; subcommands := subcommands this |}.

(** [addSubcommand] (lines 1153-1157): the subcommand is pushed on the
    array.  The call of the builder that follows adds it to the options
    [toJSON] gives. *)
Definition addSubcommand (subcommand : Subcommand) (this : Command) : Command :=
  {| name := name this; execute := execute this;
     subcommands := subcommands this ++ [subcommand] |}.

Definition addSubcommands (added : list Subcommand) (this : Command) : Command :=
  fold_left (fun c s => addSubcommand s c) added this.

(** The closure of the constructor of [SubcommandGroup] (lines 1123-1137).
    [getSubcommand()] throws when the options name no subcommand; the reply
    is a direct [interaction.reply]. *)
Definition find_subcommand (this : Command) (interaction : Interaction) : M unit :=
  if truthy (getSubcommand interaction) then
    let subcommand := key_name (getSubcommand interaction) in
    match List.find (fun sc => String.eqb (sc_name sc) subcommand) (subcommands this) with
    | None => emit (Reply "An error occurred while executing this command." true)
    | Some data =>
        call (SubcommandExecute (name this) None subcommand) (sc_execute data)
          interaction []
    end
  else throw "TypeError [CommandInteractionOptionNoSubcommand]".

(** [await command.execute(this, interaction)] *)
Definition execute_command (command : Command) (interaction : Interaction) : M unit :=
  match execute command with
  | Closure b => call (CommandExecute (name command)) b interaction []
  | FindSubcommand => find_subcommand command interaction
  end.

(** [interaction.isCommand()]: an application command of any type. *)
Definition isCommand (k : InteractionKind) : bool :=
  match k with
  | ChatInputCommand | UserContextMenuCommand | MessageContextMenuCommand
  | OtherContextMenuCommand => true
  | _ => false
  end.

(** The listener [registerCommands] installs for [interactionCreate]
    ([Client.ts], lines 204-222).  The error goes to [console.error], the
    logger of this revision, and the reply is a direct [interaction.reply]. *)
Definition interactionCreate (commands : JsMap.t Command) (interaction : Interaction)
  : M unit :=
  if isCommand (kind interaction) then
    match JsMap.get (commandName interaction) commands with
    | None => ret tt
    | Some command =>
        try_catch (execute_command command interaction)
          (fun err =>
             emit (LoggerError err) ;;;
             emit (Reply "There was an error while executing this command." true))
    end
  else ret tt.

(** What [registerCommands] reads of the client: the registry, [this.token]
    and [this.user?.id]. *)
Record Client : Type := mkClient {
  commands : JsMap.t Command;
  token : option string;
  user : option string
}.

(** What a call of [registerCommands] does, in order.  [AddEvent] is the
    call of [this.addEvent] with an event of that name; [once] is false
    unless the constructor of the event was given it ([Event.ts], at lines
    18-72 of [logger.ts]), and [addEvent] then listens with [on]. *)
Inductive Effect : Type :=
| AddEvent (event : string) (once : bool)
| ConsoleLog (message : string)
| ConsoleError (e : Error)
| Put (route : Route) (body : list json).

Inductive Settled : Type :=
| Fulfilled
| RejectedWith (e : Error).

(** [registerCommands] ([Client.ts], lines 197-264).  [toJSON] is the
    builder's, and [rest_put] the transport of the SDK. *)
Definition registerCommands (sdk : Sdk) (toJSON : Command -> json) (env : Env)
    (this : Client) (guildId clientId token_ : option string)
  : list Effect * Settled :=
  let listening := [AddEvent "interactionCreate" false] in
  let token_ := nullish token_ (nullish (token this) (DISCORD_TOKEN env)) in
  let clientId := nullish clientId (nullish (user this) (CLIENT_ID env)) in
  if negb (truthy token_) then (listening, RejectedWith "No token provided.")
  else if negb (truthy clientId) then (listening, RejectedWith "No client ID provided.")
  else
    let commands_ := map toJSON (JsMap.values (commands this)) in
    let route :=
      if truthy guildId
      then applicationGuildCommands (key_name clientId) (key_name guildId)
      else applicationCommands (key_name clientId) in
    let started :=
      listening ++ [ConsoleLog "Started refreshing application commands...";
                    Put route commands_] in
    match rest_put sdk route commands_ with
    | None =>
        (started ++ [ConsoleLog "Successfully reloaded application commands!"],
         Fulfilled)
    | Some err => (started ++ [ConsoleError err], Fulfilled)
    end.

Definition is_transport_call (ev : Effect) : bool :=
  match ev with
  | Put _ _ => true
  | _ => false
  end.

End FirstRevision.

(* ===================================================================== *)
(** ** The second revision: the filter of file names                      *)
(* ===================================================================== *)

(** Regular expressions, as far as the patterns of the source go, matched
    by derivatives.  [Void] matches nothing; it only arises in derivatives. *)
Inductive regex : Type :=
| Void
| Eps
| Class (p : ascii -> bool)
| Seq (r1 r2 : regex)
| Alt (r1 r2 : regex)
| Star (r : regex).

(** [r+] *)
Definition Plus (r : regex) : regex := Seq r (Star r).

Fixpoint nullable (r : regex) : bool :=
  match r with
  | Void => false
  | Eps => true
  | Class _ => false
  | Seq r1 r2 => nullable r1 && nullable r2
  | Alt r1 r2 => nullable r1 || nullable r2
  | Star _ => true
  end.

Fixpoint derive (c : ascii) (r : regex) : regex :=
  match r with
  | Void => Void
  | Eps => Void
  | Class p => if p c then Eps else Void
  | Seq r1 r2 =>
      if nullable r1 then Alt (Seq (derive c r1) r2) (derive c r2)
      else Seq (derive c r1) r2
  | Alt r1 r2 => Alt (derive c r1) (derive c r2)
  | Star r1 => Seq (derive c r1) (Star r1)
  end.

(** The whole of [s] matches [r]: what [s.match(/^r$/)] tests, without
    flags. *)
Fixpoint matches (r : regex) (s : string) : bool :=
  match s with
  | EmptyString => nullable r
  | String c s' => matches (derive c r) s'
  end.

Module SecondRevision.

(** A literal character. *)
Definition lit (c : ascii) : regex := Class (Ascii.eqb c).

(** The line terminators among the code units below 256: the line feed and
    the carriage return. *)
Definition is_line_terminator (c : ascii) : bool :=
  (N_of_ascii c =? 10)%N || (N_of_ascii c =? 13)%N.

(** The dot: any character but a line terminator. *)
Definition dot : regex := Class (fun c => negb (is_line_terminator c)).

(** [activeRegex] (line 734): a character that is no underscore, the dot
    once or more, a blank of the class [\s], the dot, [j], [s], between the
    anchors of the start and the end. *)
Definition activeRegex : regex :=
  Seq (Class (fun c => negb (Ascii.eqb c "_")))
    (Seq (Plus dot)
       (Seq (Class is_space)
          (Seq dot (Seq (lit "j") (lit "s"))))).

(** A [Dirent] of [node:fs], by what the filter reads. *)
Record Dirent : Type := mkDirent {
  name : string;
  isFile : bool
}.

(** [isActiveFile] (lines 736-738), as the condition [filter] takes it. *)
Definition isActiveFile (file : Dirent) : bool :=
  isFile file && matches activeRegex (name file).

End SecondRevision.

(* ===================================================================== *)
(** ** The model on concrete inputs                                       *)
(* ===================================================================== *)

(** The keys lose their quotes and every blank goes, those inside the
    values too. *)
Example canonical_of_ping :
  canonical [toJSON (Fixtures.builder "ping")] =
  "[{name:" +:+ Fixtures.quoted "ping" +:+ ",description:"
    +:+ Fixtures.quoted "Acommand" +:+ ",options:[],type:1}]".
Proof. reflexivity. Qed.

Example canonical_of_nothing : canonical [] = "[]".
Proof. reflexivity. Qed.

Example split_keeps_empty_segments : split "a--b-" = ["a"; ""; "b"; ""].
Proof. reflexivity. Qed.

(** Setting a key again keeps its place among the entries. *)
Example set_again_keeps_the_order :
  JsMap.set "a" 3 (JsMap.set "b" 2 (JsMap.set "a" 1 JsMap.empty)) = [("a", 3); ("b", 2)].
Proof. reflexivity. Qed.

(** An unknown command name is answered and nothing is called. *)
Example unknown_command_is_answered :
  useDefaultInteractionHandler Fixtures.sdk Fixtures.ping_client
    (Fixtures.interaction ChatInputCommand "foo" EmptyString) Fixtures.fresh
  = ([Reply "Could not find command **foo**!" true], Fixtures.fresh, Ok tt).
Proof. reflexivity. Qed.

(** The scenario of the differ: [ping] is registered and its signature
    stored; with [pong] added the signature differs and the next login
    registers once more; a login after that registers nothing. *)
Example differ_scenario :
  let c1 := login_client (login Fixtures.sdk Fixtures.no_env Fixtures.ping_client
                            (Some "token")) in
  let c2 := loadCommand Fixtures.sdk (Fixtures.command "pong" None Fixtures.succeeds) c1 in
  let r2 := login Fixtures.sdk Fixtures.no_env c2 (Some "token") in
  let r3 := login Fixtures.sdk Fixtures.no_env (login_client r2) (Some "token") in
  parsedString c2 <> parsedString c1
  /\ puts (login_trace r2) = 1
  /\ store_get reserved_key EmptyString (login_client r2) = parsedString c2
  /\ puts (login_trace r3) = 0.
Proof.
  intros c1 c2 r2 r3. split; [|split; [|split]].
  - vm_compute. discriminate.
  - vm_compute. reflexivity.
  - vm_compute. reflexivity.
  - vm_compute. reflexivity.
Qed.

(* ===================================================================== *)
(** ** The registry                                                       *)
(* ===================================================================== *)

Lemma find_app {A} (p : A -> bool) (l1 l2 : list A) :
  List.find p (l1 ++ l2) =
  match List.find p l1 with
  | Some x => Some x
  | None => List.find p l2
  end.
Proof.
  induction l1 as [|x l1 IH]; simpl; [reflexivity|].
  now destruct (p x).
Qed.

Section JsMapFacts.

Context {V : Type}.
Implicit Types (m : JsMap.t V) (k : string) (v : V).

Lemma get_empty k : JsMap.get k (JsMap.empty : JsMap.t V) = None.
Proof. reflexivity. Qed.

Lemma get_set_eq k v m : JsMap.get k (JsMap.set k v m) = Some v.
Proof.
  induction m as [|[k' v'] m IH]; simpl.
  - now rewrite String.eqb_refl.
  - destruct (String.eqb k k') eqn:E; simpl; rewrite E; auto.
Qed.

Lemma get_set_ne k k' v m :
  k <> k' -> JsMap.get k' (JsMap.set k v m) = JsMap.get k' m.
Proof.
  intros Hne. induction m as [|[k0 v0] m IH]; simpl.
  - apply String.eqb_neq in Hne. rewrite String.eqb_sym in Hne. now rewrite Hne.
  - destruct (String.eqb k k0) eqn:E; simpl.
    + apply String.eqb_eq in E. subst k0.
      destruct (String.eqb k' k) eqn:E'; auto.
      apply String.eqb_eq in E'. congruence.
    + now rewrite IH.
Qed.

Lemma get_set k k' v m :
  JsMap.get k' (JsMap.set k v m) =
  if String.eqb k k' then Some v else JsMap.get k' m.
Proof.
  destruct (String.eqb k k') eqn:E.
  - apply String.eqb_eq in E. subst. apply get_set_eq.
  - apply String.eqb_neq in E. now apply get_set_ne.
Qed.

(** [set] never adds a second entry for a key: an existing key keeps its
    place, a new one goes last. *)
Lemma keys_set k v m :
  JsMap.keys (JsMap.set k v m) =
  match JsMap.get k m with
  | Some _ => JsMap.keys m
  | None => JsMap.keys m ++ [k]
  end.
Proof.
  induction m as [|[k' v'] m IH]; simpl; [reflexivity|].
  destruct (String.eqb k k') eqn:E; simpl; [reflexivity|].
  unfold JsMap.keys in *. rewrite IH. now destruct (JsMap.get k m).
Qed.

Lemma get_None_not_in k m : JsMap.get k m = None -> ~ In k (JsMap.keys m).
Proof.
  induction m as [|[k' v'] m IH]; simpl; [tauto|].
  destruct (String.eqb k k') eqn:E; [discriminate|].
  apply String.eqb_neq in E. intros H [H'|H']; [congruence|]. now apply IH.
Qed.

Lemma NoDup_keys_set k v m :
  List.NoDup (JsMap.keys m) -> List.NoDup (JsMap.keys (JsMap.set k v m)).
Proof.
  intros Hnd. rewrite keys_set. destruct (JsMap.get k m) eqn:E; [assumption|].
  apply List.NoDup_rev in Hnd. rewrite <- (List.rev_involutive (_ ++ _)).
  apply List.NoDup_rev. rewrite List.rev_app_distr. simpl. constructor; [|assumption].
  rewrite <- List.in_rev. now apply get_None_not_in.
Qed.

(** Folding insertions: the last inserted value of a key stands. *)
Lemma get_fold_set {A} (key : A -> string) (val : A -> V) (l : list A) m k :
  JsMap.get k (fold_left (fun acc d => JsMap.set (key d) (val d) acc) l m) =
  match List.find (fun d => String.eqb (key d) k) (rev l) with
  | Some d => Some (val d)
  | None => JsMap.get k m
  end.
Proof.
  revert m. induction l as [|d l IH]; intros m; simpl; [reflexivity|].
  rewrite IH, find_app.
  destruct (List.find _ (rev l)); [reflexivity|]. simpl.
  rewrite get_set. now destruct (String.eqb (key d) k).
Qed.

Lemma NoDup_keys_fold_set {A} (key : A -> string) (val : A -> V) (l : list A) m :
  List.NoDup (JsMap.keys m) ->
  List.NoDup (JsMap.keys (fold_left (fun acc d => JsMap.set (key d) (val d) acc) l m)).
Proof.
  revert m. induction l as [|d l IH]; intros m H; simpl; [assumption|].
  apply IH. now apply NoDup_keys_set.
Qed.

End JsMapFacts.

Lemma commands_loadCommands sdk loaded client :
  commands (loadCommands sdk loaded client) =
  fold_left (fun acc d => JsMap.set (name (cd_data (prepared sdk d)))
                            (IsCommandData (prepared sdk d)) acc)
    loaded (commands client).
Proof.
  unfold loadCommands. revert client.
  induction loaded as [|d l IH]; intros client; simpl; [reflexivity|].
  now rewrite IH.
Qed.

Lemma commands_addCommands loaded client :
  Legacy.commands (Legacy.addCommands loaded client) =
  fold_left (fun acc d => JsMap.set (Legacy.name d) d acc) loaded (Legacy.commands client).
Proof.
  unfold Legacy.addCommands. revert client.
  induction loaded as [|d l IH]; intros client; simpl; [reflexivity|].
  now rewrite IH.
Qed.

(** C8. Inserting under a name already present overwrites the entry and
    raises nothing: after any sequence of loads a name maps to the most
    recently loaded definition registered under it (and to what the registry
    held before when none was), the registry holds one entry per name, and
    the lookup of a name that was never registered is the absent value.
    Stated for [loadCommand] of [index.ts] and [addCommand] of [Client.ts]. *)
Theorem registry_last_loaded_wins :
  (forall sdk (loaded : list CommandData) (client : Client) (n : string),
      JsMap.get n (commands (loadCommands sdk loaded client)) =
      match last_loaded (fun d => name (cd_data (prepared sdk d))) n loaded with
      | Some d => Some (IsCommandData (prepared sdk d))
      | None => JsMap.get n (commands client)
      end)
  /\ (forall (loaded : list Legacy.Command) (client : Legacy.Client) (n : string),
      JsMap.get n (Legacy.commands (Legacy.addCommands loaded client)) =
      match last_loaded Legacy.name n loaded with
      | Some d => Some d
      | None => JsMap.get n (Legacy.commands client)
      end)
  /\ (forall sdk loaded,
      List.NoDup (JsMap.keys (commands (loadCommands sdk loaded new_Client))))
  /\ (forall loaded,
      List.NoDup (JsMap.keys
                    (Legacy.commands (Legacy.addCommands loaded (Legacy.mkClient [])))))
  /\ (forall (n : string),
      JsMap.get n (commands new_Client) = None
      /\ JsMap.get n (Legacy.commands (Legacy.mkClient [])) = None).
Proof.
  repeat split.
  - intros. rewrite commands_loadCommands. apply get_fold_set.
  - intros. rewrite commands_addCommands.
    apply (get_fold_set Legacy.name (fun d => d)).
  - intros. rewrite commands_loadCommands. apply NoDup_keys_fold_set. constructor.
  - intros. rewrite commands_addCommands.
    apply (NoDup_keys_fold_set Legacy.name (fun d => d)). constructor.
Qed.

(** C10. The callback of the modal-folder loader registers a modal under
    its builder's custom id when that is set and not empty, and under its
    title when no custom id is set and the title is not empty.  In every
    other case the registry is left as it was: with neither a custom id nor
    a title, with no custom id and an empty title, and with a custom id
    that is the empty string, whatever the title is (the title is consulted
    only when the custom id is not set). *)
Theorem modal_key_is_custom_id_or_title (modal : ModalData) (client : Client) :
  (forall c, custom_id modal = Some c -> c <> EmptyString ->
     modals (loadModal modal client) = JsMap.set c modal (modals client)
     /\ JsMap.get c (modals (loadModal modal client)) = Some modal)
  /\ (forall t, custom_id modal = None -> title modal = Some t -> t <> EmptyString ->
     modals (loadModal modal client) = JsMap.set t modal (modals client)
     /\ JsMap.get t (modals (loadModal modal client)) = Some modal)
  /\ (custom_id modal = None -> title modal = None ->
     loadModal modal client = client)
  /\ (custom_id modal = None -> title modal = Some EmptyString ->
     loadModal modal client = client)
  /\ (custom_id modal = Some EmptyString ->
     loadModal modal client = client).
Proof.
  unfold loadModal. split; [|split; [|split; [|split]]].
  - intros c Hc Hne. rewrite Hc. simpl. apply String.eqb_neq in Hne. rewrite Hne.
    simpl. split; [reflexivity|apply get_set_eq].
  - intros t Hc Ht Hne. rewrite Hc, Ht. simpl. apply String.eqb_neq in Hne.
    rewrite Hne. simpl. split; [reflexivity|apply get_set_eq].
  - intros Hc Ht. now rewrite Hc, Ht.
  - intros Hc Ht. now rewrite Hc, Ht.
  - intros Hc. now rewrite Hc.
Qed.

Lemma modal_key_is_custom_id_or_title_witness :
  let with_id := {| custom_id := Some "feedback"; title := Some "Feedback";
                    md_execute := Fixtures.succeeds |} in
  let with_title := {| custom_id := None; title := Some "Feedback";
                       md_execute := Fixtures.succeeds |} in
  let bare := {| custom_id := None; title := None;
                 md_execute := Fixtures.succeeds |} in
  JsMap.keys (modals (loadModal with_id new_Client)) = ["feedback"]
  /\ JsMap.keys (modals (loadModal with_title new_Client)) = ["Feedback"]
  /\ loadModal bare new_Client = new_Client.
Proof.
  intros with_id with_title bare.
  destruct (modal_key_is_custom_id_or_title with_id new_Client) as (H1 & _).
  destruct (modal_key_is_custom_id_or_title with_title new_Client) as (_ & H2 & _).
  destruct (modal_key_is_custom_id_or_title bare new_Client) as (_ & _ & H3 & _).
  split; [|split].
  - destruct (H1 "feedback" eq_refl) as [E _]; [discriminate|]. rewrite E. reflexivity.
  - destruct (H2 "Feedback" eq_refl eq_refl) as [E _]; [discriminate|]. rewrite E. reflexivity.
  - apply H3; reflexivity.
Defined.

(** A modal whose custom id is present and is the empty string, with the
    title [T]: the claim as written gives it a key (the custom id, which is
    present, or else the title), but the loader skips it.  Nothing is
    stored under either name. *)
Lemma empty_custom_id_is_skipped_despite_the_title :
  let modal := {| custom_id := Some EmptyString; title := Some "T";
                  md_execute := Fixtures.succeeds |} in
  custom_id modal <> None
  /\ title modal = Some "T"
  /\ JsMap.keys (modals (loadModal modal new_Client)) = []
  /\ JsMap.get EmptyString (modals (loadModal modal new_Client)) = None
  /\ JsMap.get "T" (modals (loadModal modal new_Client)) = None.
Proof.
  intros modal. split; [discriminate|]. repeat split.
Qed.

(* ===================================================================== *)
(** ** Dispatch                                                           *)
(* ===================================================================== *)

Lemma bind_ret_l {A B} (a : A) (k : A -> M B) f : bind (ret a) k f = k a f.
Proof. unfold bind, ret. simpl. now destruct (k a f) as [[tr f'] o]. Qed.

(** An own entry of a table is what indexing the table gives. *)
Lemma obj_prop_own (t : option (gmap string Behaviour)) k h :
  t ≫= obj_get k = Some h -> t ≫= obj_prop k = Some (Own h).
Proof.
  destruct t as [o|]; simpl; [|discriminate]. unfold obj_prop. now intros ->.
Qed.

(** A key that is no own entry and no member of [Object.prototype] gives
    nothing. *)
Lemma obj_prop_none (t : option (gmap string Behaviour)) k :
  t ≫= obj_get k = None -> Object_prototype (key_name k) = None ->
  t ≫= obj_prop k = None.
Proof.
  destruct t as [o|]; simpl; [|reflexivity]. unfold obj_prop. now intros -> ->.
Qed.

(** The isolating block around a closure: the closure is called, and what
    it throws is logged and answered, never thrown again. *)
Lemma answered_call msg h b i args f :
  answered msg (call h b i args) f =
  match b i f args with
  | (f', None) => ([Invoke h args], f', Ok tt)
  | (f', Some e) =>
      ([Invoke h args; LoggerError e;
        if deferred f' || replied f' then EditReply msg true else Reply msg true],
       f', Ok tt)
  end.
Proof.
  unfold answered, try_catch, call.
  destruct (b i f args) as [f' [e|]]; [|reflexivity].
  cbv [reply bind emit get_flags].
  destruct (deferred f' || replied f'); reflexivity.
Qed.

Lemma logged_call h b i args f :
  logged (call h b i args) f =
  match b i f args with
  | (f', None) => ([Invoke h args], f', Ok tt)
  | (f', Some e) => ([Invoke h args; LoggerError e], f', Ok tt)
  end.
Proof.
  unfold logged, try_catch, call.
  destruct (b i f args) as [f' [e|]]; reflexivity.
Qed.

Lemma answered_idle msg (m : M unit) f :
  (exists a, result_of (m f) = Ok a) -> answered msg m f = m f.
Proof.
  intros [a Ha]. unfold answered, try_catch. unfold result_of in Ha.
  destruct (m f) as [[tr f'] o]. simpl in Ha. now subst o.
Qed.

Lemma answered_ext msg (m m' : M unit) f :
  m f = m' f -> answered msg m f = answered msg m' f.
Proof. intros H. unfold answered, try_catch. now rewrite H. Qed.

Lemma answered_call_result msg h b i args f :
  exists a, result_of (answered msg (call h b i args) f) = Ok a.
Proof.
  rewrite answered_call. destruct (b i f args) as [f' [e|]]; now exists tt.
Qed.

(** C2. For a chat-input interaction whose command carries a permission
    requirement: inside a guild the member's permissions are tested, and a
    member who lacks the requirement gets the ephemeral refusal and no
    closure is called, while a member who has it reaches the isolated
    execution of the command; outside a guild the test is skipped and the
    isolated execution is reached whatever the member is.  That execution
    applies the executor to the interaction: for a plain command and for an
    index with an executor of its own the flags it leaves and the value it
    throws are the executor's, and for an index with the closure of the
    loader they are those of the executor of the subcommand the options
    name. *)
Theorem chat_input_permission_iff_in_guild
    (sdk : Sdk) (client : Client) (i : Interaction) (f : Flags)
    (command : Command) (p : PermissionsBitField) :
  kind i = ChatInputCommand ->
  JsMap.get (commandName i) (commands client) = Some command ->
  permissions command = Some p ->
  let run :=
    answered "There was an error while executing this command!"
      (command_execute (commandName i) command i) f in
  let executed (h : Handler) (b : Behaviour) :=
    match b i f [] with
    | (f', None) => ([Invoke h []], f', Ok tt)
    | (f', Some e) =>
        ([Invoke h []; LoggerError e;
          if deferred f' || replied f'
          then EditReply "There was an error while executing this command!" true
          else Reply "There was an error while executing this command!" true],
         f', Ok tt)
    end in
  (inGuild i = true -> forall m, member i = Some m ->
     (has sdk m p = false ->
        useDefaultInteractionHandler sdk client i f =
        ([Reply "You do not have permission to use this command!" true], f, Ok tt))
     /\ (has sdk m p = true -> useDefaultInteractionHandler sdk client i f = run))
  /\ (inGuild i = false -> useDefaultInteractionHandler sdk client i f = run)
  /\ (forall c, command = IsCommandData c ->
        run = executed (CommandExecute (commandName i)) (execute (cd_top c)))
  /\ (forall index b,
        command = IsSubcommandIndexData index -> id_execute index = UserExecute b ->
        run = executed (CommandExecute (commandName i)) b)
  /\ (forall index s sub,
        command = IsSubcommandIndexData index -> id_execute index = DispatchExecute ->
        getSubcommand i = Some s -> s <> EmptyString ->
        truthy (getSubcommandGroup i) = false ->
        id_subcommands index ≫= JsMap.get s = Some sub ->
        run = executed (SubcommandExecute (name (id_data index)) None s)
                (execute (sd_top sub))).
Proof.
  intros Hk Hget Hp run executed.
  unfold useDefaultInteractionHandler, chat_input. rewrite Hk, Hget, Hp.
  split; [|split; [|split; [|split]]].
  - intros Hg m Hm. rewrite Hg. unfold lacks_permission. rewrite Hm.
    split; intros Hhas; rewrite bind_ret_l, Hhas; reflexivity.
  - intros Hg. rewrite Hg. now rewrite bind_ret_l.
  - intros c ->. subst run executed. simpl. apply answered_call.
  - intros index b -> He. subst run executed. simpl. rewrite He. apply answered_call.
  - intros index s sub -> He Hs Hne Hg Hsub. subst run executed. simpl. rewrite He.
    unfold dispatch_execute. rewrite Hk, Hs, Hg.
    assert (Hts : truthy (Some s) = true).
    { simpl. apply String.eqb_neq in Hne. now rewrite Hne. }
    rewrite Hts. cbn [key_name].
    destruct (id_subcommands index) as [subs|]; [|discriminate]. simpl in Hsub.
    unfold get_of. rewrite <- answered_call.
    etransitivity; [|apply answered_idle; rewrite answered_call;
                      destruct (execute (sd_top sub) i f []) as [f' [e|]]; now exists tt].
    apply answered_ext. now rewrite bind_ret_l, Hsub.
Qed.

Lemma chat_input_permission_iff_in_guild_witness :
  let client := loadCommand Fixtures.sdk
                  (Fixtures.command "ban" (Some 4%N) (Fixtures.defers_then_fails "boom"))
                  new_Client in
  let dm := Fixtures.interaction ChatInputCommand "ban" EmptyString in
  let executed :=
    ([Invoke (CommandExecute "ban") []; LoggerError "boom";
      EditReply "There was an error while executing this command!" true],
     {| deferred := true; replied := false |}, Ok tt) in
  useDefaultInteractionHandler Fixtures.sdk client (Fixtures.in_guild dm 2%N) Fixtures.fresh
  = ([Reply "You do not have permission to use this command!" true], Fixtures.fresh, Ok tt)
  /\ useDefaultInteractionHandler Fixtures.sdk client (Fixtures.in_guild dm 6%N) Fixtures.fresh
     = executed
  /\ useDefaultInteractionHandler Fixtures.sdk client dm Fixtures.fresh = executed.
Proof.
  intros client dm executed.
  pose (d := prepared Fixtures.sdk
               (Fixtures.command "ban" (Some 4%N) (Fixtures.defers_then_fails "boom"))).
  split; [|split].
  - destruct (chat_input_permission_iff_in_guild Fixtures.sdk client
                (Fixtures.in_guild dm 2%N) Fixtures.fresh (IsCommandData d) 4%N
                eq_refl eq_refl eq_refl) as (H & _).
    destruct (H eq_refl 2%N eq_refl) as [H1 _]. now apply H1.
  - destruct (chat_input_permission_iff_in_guild Fixtures.sdk client
                (Fixtures.in_guild dm 6%N) Fixtures.fresh (IsCommandData d) 4%N
                eq_refl eq_refl eq_refl) as (H & _ & Hrun & _).
    destruct (H eq_refl 6%N eq_refl) as [_ H2].
    rewrite (H2 eq_refl), (Hrun d eq_refl). reflexivity.
  - destruct (chat_input_permission_iff_in_guild Fixtures.sdk client
                dm Fixtures.fresh (IsCommandData d) 4%N
                eq_refl eq_refl eq_refl) as (_ & H & Hrun & _).
    rewrite (H eq_refl), (Hrun d eq_refl). reflexivity.
Defined.

(** C9. For a context-menu interaction whose definition carries a
    permission requirement the member's permissions are tested whether the
    interaction is in a guild or not (the statement holds for both values
    [b] of the in-guild test): a member who lacks the requirement is
    refused, and with no member present the test reads the permissions of
    the absent member, which throws out of the handler before any reply or
    call. *)
Theorem context_menu_permission_unguarded
    (sdk : Sdk) (client : Client) (i : Interaction) (f : Flags)
    (t : ContextType) (context : ContextMenuData) (p : PermissionsBitField) :
  kind i = context_kind t ->
  JsMap.get (commandName i) (menus_of t (contextMenus client)) = Some context ->
  cm_permissions context = Some p ->
  forall b : bool,
  (member i = None ->
      useDefaultInteractionHandler sdk client (set_inGuild b i) f =
      ([], f, Throw (TypeError "Cannot read properties of undefined (reading 'has')")))
  /\ (forall m, member i = Some m -> has sdk m p = false ->
      useDefaultInteractionHandler sdk client (set_inGuild b i) f =
      ([Reply "You do not have permission to use this context menu!" true], f, Ok tt)).
Proof.
  intros Hk Hget Hp b.
  assert (Hctx : useDefaultInteractionHandler sdk client (set_inGuild b i) f =
                 context_menu sdk client (set_inGuild b i) t f).
  { unfold useDefaultInteractionHandler. simpl. rewrite Hk. now destruct t. }
  rewrite Hctx. unfold context_menu, lacks_permission. simpl. rewrite Hget, Hp.
  split.
  - intros Hm. now rewrite Hm.
  - intros m Hm Hhas. now rewrite Hm, bind_ret_l, Hhas.
Qed.

Lemma context_menu_permission_unguarded_witness :
  let menu := {| cm_data := Fixtures.builder "Report"; cm_type := Message;
                 cm_permissions := Some 4%N; cm_execute := Fixtures.succeeds |} in
  let client :=
    {| store := ∅; commands := JsMap.empty; modals := JsMap.empty;
       contextMenus := {| cm_User := JsMap.empty; cm_Message := [("Report", menu)] |};
       user := None |} in
  let dm := Fixtures.interaction MessageContextMenuCommand "Report" EmptyString in
  useDefaultInteractionHandler Fixtures.sdk client dm Fixtures.fresh =
  ([], Fixtures.fresh, Throw (TypeError "Cannot read properties of undefined (reading 'has')")).
Proof.
  intros menu client dm.
  destruct (context_menu_permission_unguarded Fixtures.sdk client dm Fixtures.fresh
              Message menu 4%N eq_refl eq_refl eq_refl false) as (H & _).
  now apply H.
Defined.



(** What the modal fallback does (lines 412-424): the first segment is
    shifted off and the executor gets the shifted list without its first
    element, so the segment that follows the modal's name is passed to
    nobody. *)
Lemma modal_fallback_arguments
    (sdk : Sdk) (client : Client) (i : Interaction) (f : Flags)
    (m : string) (segments : list string) (modal : ModalData) :
  kind i = ModalSubmit ->
  split (customId i) = m :: segments ->
  JsMap.get m (commands client) = None ->
  JsMap.get m (modals client) = Some modal ->
  useDefaultInteractionHandler sdk client i f =
  logged (call (ModalExecute m) (md_execute modal) i (drop 1 segments)) f.
Proof.
  intros Hk Hs Hc Hm. unfold useDefaultInteractionHandler, component.
  rewrite Hk, Hs. simpl. now rewrite Hc, Hm.
Qed.

Lemma modal_fallback_ignores_unknown
    (sdk : Sdk) (client : Client) (i : Interaction) (f : Flags)
    (m : string) (segments : list string) :
  kind i = ModalSubmit ->
  split (customId i) = m :: segments ->
  JsMap.get m (commands client) = None ->
  JsMap.get m (modals client) = None ->
  useDefaultInteractionHandler sdk client i f = ([], f, Ok tt).
Proof.
  intros Hk Hs Hc Hm. unfold useDefaultInteractionHandler, component.
  rewrite Hk, Hs. simpl. now rewrite Hc, Hm.
Qed.

(** C4, on the code.  With the modal [feedback] in the flat registry and no
    command of that name, the submission [feedback-a-b] calls the modal's
    executor with the single argument [b]: the segment [a] is dropped. *)
Lemma modal_fallback_drops_a_segment :
  let modal := {| custom_id := Some "feedback"; title := None;
                  md_execute := Fixtures.succeeds |} in
  let client := loadModal modal new_Client in
  useDefaultInteractionHandler Fixtures.sdk client
    (Fixtures.interaction ModalSubmit EmptyString "feedback-a-b") Fixtures.fresh
  = ([Invoke (ModalExecute "feedback") ["b"]], Fixtures.fresh, Ok tt).
Proof. reflexivity. Qed.

(** An autocomplete interaction on a plain command never calls a closure:
    the executor is only searched under a subcommand. *)
Lemma autocomplete_of_plain_command
    (sdk : Sdk) (client : Client) (i : Interaction) (f : Flags) (c : CommandData) :
  kind i = Autocomplete ->
  JsMap.get (commandName i) (commands client) = Some (IsCommandData c) ->
  useDefaultInteractionHandler sdk client i f =
  ([Respond [("ERROR", "autocompleteNotFound")]], f, Ok tt).
Proof.
  intros Hk Hget. unfold useDefaultInteractionHandler, autocomplete_.
  rewrite Hk, Hget. simpl.
  destruct (truthy (getSubcommand i)); [|reflexivity].
  destruct (truthy (getSubcommandGroup i)); reflexivity.
Qed.

Lemma autocomplete_of_unknown_command
    (sdk : Sdk) (client : Client) (i : Interaction) (f : Flags) :
  kind i = Autocomplete ->
  JsMap.get (commandName i) (commands client) = None ->
  useDefaultInteractionHandler sdk client i f = ([], f, Ok tt).
Proof.
  intros Hk Hget. unfold useDefaultInteractionHandler, autocomplete_.
  now rewrite Hk, Hget.
Qed.

(** C5, on the code.  The plain command [search] carries an autocomplete
    executor; an autocomplete interaction for it is answered with the
    sentinel and the executor is not called.  An autocomplete interaction
    for a name that is not registered gets no answer at all. *)
Lemma autocomplete_of_top_level_command_gets_sentinel :
  let search :=
    {| cd_data := Fixtures.builder "search"; cd_permissions := None;
       cd_top := {| execute := Fixtures.succeeds;
                    autocomplete := Some Fixtures.succeeds;
                    cmd_selectMenus := None; cmd_buttons := None;
                    cmd_modals := None |} |} in
  let client := loadCommand Fixtures.sdk search new_Client in
  useDefaultInteractionHandler Fixtures.sdk client
    (Fixtures.interaction Autocomplete "search" EmptyString) Fixtures.fresh
  = ([Respond [("ERROR", "autocompleteNotFound")]], Fixtures.fresh, Ok tt)
  /\ useDefaultInteractionHandler Fixtures.sdk client
       (Fixtures.interaction Autocomplete "find" EmptyString) Fixtures.fresh
     = ([], Fixtures.fresh, Ok tt).
Proof. split; reflexivity. Qed.

(** What an executor throws stays inside the handler: it is logged and
    answered through [reply], which edits the reply when the executor left
    the interaction deferred or replied to. *)
Lemma executor_failure_is_isolated
    (sdk : Sdk) (client : Client) (i : Interaction) (f f' : Flags)
    (c : CommandData) (e : Error) :
  kind i = ChatInputCommand ->
  JsMap.get (commandName i) (commands client) = Some (IsCommandData c) ->
  cd_permissions c = None ->
  execute (cd_top c) i f [] = (f', Some e) ->
  useDefaultInteractionHandler sdk client i f =
  ([Invoke (CommandExecute (commandName i)) [];
    LoggerError e;
    if deferred f' || replied f'
    then EditReply "There was an error while executing this command!" true
    else Reply "There was an error while executing this command!" true],
   f', Ok tt).
Proof.
  intros Hk Hget Hp He. unfold useDefaultInteractionHandler, chat_input.
  rewrite Hk, Hget. simpl. rewrite Hp.
  assert (Hd : (if inGuild i then lacks_permission sdk None i else ret false) = ret false).
  { now destruct (inGuild i). }
  rewrite Hd, bind_ret_l, answered_call, He. reflexivity.
Qed.

Lemma context_menu_failure_is_isolated
    (sdk : Sdk) (client : Client) (i : Interaction) (f f' : Flags)
    (t : ContextType) (context : ContextMenuData) (e : Error) :
  kind i = context_kind t ->
  JsMap.get (commandName i) (menus_of t (contextMenus client)) = Some context ->
  cm_permissions context = None ->
  cm_execute context i f [] = (f', Some e) ->
  useDefaultInteractionHandler sdk client i f =
  ([Invoke (ContextMenuExecute t (commandName i)) [];
    LoggerError e;
    if deferred f' || replied f'
    then EditReply "There was an error while executing this context menu!" true
    else Reply "There was an error while executing this context menu!" true],
   f', Ok tt).
Proof.
  intros Hk Hget Hp He.
  assert (Hctx : useDefaultInteractionHandler sdk client i f = context_menu sdk client i t f).
  { unfold useDefaultInteractionHandler. rewrite Hk. now destruct t. }
  rewrite Hctx. unfold context_menu. rewrite Hget, Hp. simpl.
  rewrite bind_ret_l, answered_call, He. reflexivity.
Qed.

(** C6, on the code.  The executor of [ping] defers the reply and throws:
    the handler logs the value and edits the deferred reply; it sends no
    follow-up, and the value is not thrown again. *)
Lemma failure_after_defer_edits_the_reply :
  let client :=
    loadCommand Fixtures.sdk
      (Fixtures.command "ping" None (Fixtures.defers_then_fails "boom")) new_Client in
  useDefaultInteractionHandler Fixtures.sdk client
    (Fixtures.interaction ChatInputCommand "ping" EmptyString) Fixtures.fresh
  = ([Invoke (CommandExecute "ping") [];
      LoggerError "boom";
      EditReply "There was an error while executing this command!" true],
     {| deferred := true; replied := false |}, Ok tt).
Proof. reflexivity. Qed.

(* ===================================================================== *)
(** ** The registration differ                                            *)
(* ===================================================================== *)

Lemma until_quote_length s k r :
  until_quote s = Some (k, r) -> String.length s = S (String.length k + String.length r).
Proof.
  revert k r. induction s as [|c s IH]; intros k r; simpl; [discriminate|].
  destruct (Ascii.eqb c dquote).
  - intros [= <- <-]. reflexivity.
  - destruct (until_quote s) as [[k' r']|]; [|discriminate].
    intros [= <- <-]. simpl. now rewrite (IH k' r' eq_refl).
Qed.

Lemma match_key_shorter s k rest :
  match_key s = Some (k, rest) -> String.length rest < String.length s.
Proof.
  unfold match_key. destruct s as [|c s1]; [discriminate|].
  destruct (Ascii.eqb c dquote); [|discriminate].
  destruct (until_quote s1) as [[[|k0 k'] [|c2 r]]|] eqn:E; try discriminate.
  destruct (Ascii.eqb c2 ":"); [|discriminate].
  intros [= <- <-]. apply until_quote_length in E. simpl in *. lia.
Qed.

(** The scan always ends before its fuel does: any fuel above the length of
    the text gives the same result. *)
Lemma replace_keys_from_enough (n m : nat) (s : string) :
  String.length s < n -> String.length s < m ->
  replace_keys_from n s = replace_keys_from m s.
Proof.
  revert m s. induction n as [|n IH]; intros m s Hn Hm; [lia|].
  destruct m as [|m]; [lia|]. simpl.
  destruct (match_key s) as [[k rest]|] eqn:E.
  - apply match_key_shorter in E. f_equal. f_equal. apply IH; lia.
  - destruct s as [|c s']; [reflexivity|]. simpl in *. f_equal. apply IH; lia.
Qed.

Lemma replace_keys_unfold (s : string) :
  replace_keys s =
  match match_key s with
  | Some (k, rest) => k +:+ ":" +:+ replace_keys rest
  | None =>
      match s with
      | EmptyString => EmptyString
      | String c s' => String c (replace_keys s')
      end
  end.
Proof.
  unfold replace_keys at 1. simpl.
  destruct (match_key s) as [[k rest]|] eqn:E.
  - apply match_key_shorter in E. f_equal. f_equal.
    apply replace_keys_from_enough; lia.
  - destruct s as [|c s']; [reflexivity|]. reflexivity.
Qed.

(** The signature is never the empty string: it opens with the bracket of
    the array. *)
Lemma canonical_nonempty (all : list json) : canonical all <> EmptyString.
Proof.
  unfold canonical.
  assert (H : exists r, JSON_stringify (JArr all) = String "[" r).
  { destruct all; simpl; eauto. }
  destruct H as [r ->]. rewrite replace_keys_unfold. simpl. discriminate.
Qed.

Lemma all_of_with_user client u : all_of (with_user client u) = all_of client.
Proof. reflexivity. Qed.

Lemma all_of_store_set client k v : all_of (store_set k v client) = all_of client.
Proof. reflexivity. Qed.

Lemma store_get_set client k v d : store_get k d (store_set k v client) = v.
Proof. unfold store_get, store_set. simpl. now rewrite lookup_insert_eq. Qed.

Lemma puts_app tr tr' : puts (tr ++ tr') = puts tr + puts tr'.
Proof. unfold puts. now rewrite List.filter_app, List.length_app. Qed.

(** Case analysis of [login], one goal per path through it. *)
Ltac login_paths :=
  unfold login;
  repeat match goal with
    | |- context [match super_login ?s ?t with _ => _ end] =>
        destruct (super_login s t) eqn:?
    | |- context [match rest_put ?s ?r ?b with _ => _ end] =>
        destruct (rest_put s r b) eqn:?
    | |- context [if negb (truthy ?a) || negb (truthy ?b) then _ else _] =>
        destruct (negb (truthy a) || negb (truthy b)) eqn:?
    | |- context [if String.eqb ?a ?b && ?c then _ else _] =>
        destruct (String.eqb a b && c) eqn:?
    end.

Lemma puts_checking (waited : list LoginEvent) (l : list LoginEvent) :
  puts waited = 0 -> puts (waited ++ l) = puts l.
Proof. intros H. now rewrite puts_app, H. Qed.

Lemma puts_waited (c : bool) (w : string) :
  puts (if c then [Logger warn w; SleepAsync 5000] else []) = 0.
Proof. now destruct c. Qed.

Lemma login_keeps_definitions sdk env client token :
  all_of (login_client (login sdk env client token)) = all_of client.
Proof. login_paths; reflexivity. Qed.

Lemma login_puts_at_most_once sdk env client token :
  puts (login_trace (login sdk env client token)) <= 1.
Proof.
  login_paths; unfold login_trace; cbn [fst snd];
    rewrite <- ?app_assoc;
    try (rewrite puts_checking by apply puts_waited); unfold puts; simpl; lia.
Qed.

Lemma login_skips_when_current sdk env client token :
  store_get reserved_key EmptyString client = parsedString client ->
  puts (login_trace (login sdk env client token)) = 0.
Proof.
  intros Hcur.
  assert (Heq : forall u,
             String.eqb (store_get reserved_key EmptyString (with_user client u))
               (canonical (all_of (with_user client u)))
             && negb (String.eqb (canonical (all_of (with_user client u))) EmptyString)
             = true).
  { intros u. rewrite all_of_with_user. apply andb_true_intro. split.
    - apply String.eqb_eq. exact Hcur.
    - apply negb_true_iff, String.eqb_neq, canonical_nonempty. }
  unfold login.
  destruct (super_login sdk _) as [e|u]; [reflexivity|].
  destruct (negb (truthy _) || negb (truthy _)); [reflexivity|].
  rewrite Heq. unfold login_trace. cbn [fst snd].
  rewrite <- app_assoc, puts_checking by apply puts_waited. reflexivity.
Qed.

Lemma login_returns_current sdk env client token t :
  login_end (login sdk env client token) = Returns t ->
  store_get reserved_key EmptyString (login_client (login sdk env client token))
  = parsedString client.
Proof.
  unfold login.
  destruct (super_login sdk _) as [e|u]; [discriminate|].
  destruct (negb (truthy _) || negb (truthy _)); [discriminate|].
  destruct (String.eqb _ _ && _) eqn:E.
  - intros _. apply andb_prop in E. destruct E as [E _].
    apply String.eqb_eq in E. exact E.
  - destruct (rest_put sdk _ _); [discriminate|].
    intros _. unfold login_client. simpl. now rewrite store_get_set.
Qed.

(** C1. The signature is a function of the exported definitions alone, so
    serializing the same set again gives the same string, and [login] leaves
    the set as it was.  A login whose computed signature equals the stored
    one and is not empty calls the REST transport not at all; any login
    calls it at most once; and after a login that returned, the stored
    signature is the computed one, so that the next login, whatever its
    token, environment and collaborators, does not call the transport. *)
Theorem registration_is_differential
    (sdk : Sdk) (env : Env) (client : Client) (token : option string) :
  (forall client', all_of client' = all_of client ->
                   parsedString client' = parsedString client)
  /\ parsedString (login_client (login sdk env client token)) = parsedString client
  /\ puts (login_trace (login sdk env client token)) <= 1
  /\ (store_get reserved_key EmptyString client = parsedString client ->
      parsedString client <> EmptyString ->
      puts (login_trace (login sdk env client token)) = 0)
  /\ (forall t, login_end (login sdk env client token) = Returns t ->
      store_get reserved_key EmptyString (login_client (login sdk env client token))
      = parsedString client
      /\ forall sdk' env' token',
          puts (login_trace
                  (login sdk' env' (login_client (login sdk env client token)) token'))
          = 0).
Proof.
  assert (Hsame : parsedString (login_client (login sdk env client token))
                  = parsedString client).
  { unfold parsedString. now rewrite login_keeps_definitions. }
  repeat split.
  - intros client' H. unfold parsedString. now rewrite H.
  - exact Hsame.
  - apply login_puts_at_most_once.
  - intros Hcur _. now apply login_skips_when_current.
  - now apply login_returns_current with (t := t).
  - intros sdk' env' token'. apply login_skips_when_current.
    rewrite Hsame. now apply login_returns_current with (t := t).
Qed.

Lemma registration_is_differential_witness :
  let first := login Fixtures.sdk Fixtures.no_env Fixtures.ping_client (Some "token") in
  let second := login Fixtures.sdk Fixtures.no_env (login_client first) (Some "token") in
  puts (login_trace first) = 1
  /\ login_end first = Returns "token"
  /\ puts (login_trace second) = 0
  /\ puts (login_trace (login Fixtures.sdk_offline Fixtures.no_env
                          (login_client first) (Some "token"))) = 0.
Proof.
  intros first second.
  destruct (registration_is_differential Fixtures.sdk Fixtures.no_env
              Fixtures.ping_client (Some "token")) as (_ & _ & _ & _ & Hnext).
  destruct (Hnext "token" eq_refl) as [Hstored Hskip].
  destruct (registration_is_differential Fixtures.sdk Fixtures.no_env
              (login_client first) (Some "token")) as (_ & _ & _ & Hcur & _).
  split; [reflexivity|]. split; [reflexivity|]. split.
  - apply Hcur.
    + subst first. rewrite Hstored. reflexivity.
    + apply canonical_nonempty.
  - apply Hskip.
Defined.

(** C7, as the code has it.  Once the SDK's login has resolved, a token
    (argument, else environment) or a client id (environment, else the
    logged-in user) that is absent or empty is logged and ends the process,
    with no call of the transport.  A call of the transport that throws is
    logged and ends the process, and the store is then as it was.  The
    store changes only on a login that returned after a call of the
    transport that succeeded. *)
Theorem login_failures_are_fatal
    (sdk : Sdk) (env : Env) (client : Client) (token : option string) :
  (forall u,
      super_login sdk (nullish token (DISCORD_TOKEN env)) = Resolves u ->
      truthy (nullish token (DISCORD_TOKEN env)) = false
      \/ truthy (nullish (CLIENT_ID env) u) = false ->
      login sdk env client token =
      (with_user client u,
       [Logger error "No token or client ID was provided!"], ProcessExit 1))
  /\ (forall route body e,
      In (RestPut route body) (login_trace (login sdk env client token)) ->
      rest_put sdk route body = Some e ->
      login_end (login sdk env client token) = ProcessExit 1
      /\ In (Logger error e) (login_trace (login sdk env client token))
      /\ store (login_client (login sdk env client token)) = store client)
  /\ (store (login_client (login sdk env client token)) <> store client ->
      exists t route,
        login_end (login sdk env client token) = Returns t
        /\ In (RestPut route (all_of client)) (login_trace (login sdk env client token))
        /\ rest_put sdk route (all_of client) = None).
Proof.
  split; [|split].
  - intros u Hu Hmiss. unfold login. rewrite Hu.
    assert (E : negb (truthy (nullish token (DISCORD_TOKEN env)))
                || negb (truthy (nullish (CLIENT_ID env) (user (with_user client u))))
                = true).
    { simpl. destruct Hmiss as [-> | ->]; [reflexivity|]. apply orb_true_r. }
    now rewrite E.
  - intros route body e. unfold login.
    destruct (super_login sdk _) as [e0|u]; [intros []|].
    destruct (negb (truthy _) || negb (truthy _));
      [intros [H|[]]; discriminate|].
    destruct (String.eqb _ _ && _).
    + unfold login_trace. cbn [fst snd]. rewrite <- app_assoc.
      intros Hin. apply in_app_or in Hin.
      destruct Hin as [Hin|Hin]; [|simpl in Hin; intuition discriminate].
      destruct (_ && _) in Hin; simpl in Hin; intuition discriminate.
    + match goal with
      | |- context [rest_put sdk ?r ?b] =>
          destruct (rest_put sdk r b) as [e'|] eqn:Hput
      end; unfold login_trace, login_end, login_client; cbn [fst snd];
        intros Hin He; apply in_app_or in Hin.
      * destruct Hin as [Hin|Hin].
        { apply in_app_or in Hin. destruct Hin as [Hin|Hin];
            [destruct (_ && _) in Hin|]; simpl in Hin; intuition discriminate. }
        simpl in Hin. destruct Hin as [Hin|[Hin|[Hin|[]]]]; try discriminate.
        injection Hin as <- <-. simpl in Hput, He. rewrite Hput in He.
        injection He as <-.
        split; [reflexivity|]. split; [|reflexivity].
        apply in_or_app. right. simpl. auto.
      * destruct Hin as [Hin|Hin].
        { apply in_app_or in Hin. destruct Hin as [Hin|Hin];
            [destruct (_ && _) in Hin|]; simpl in Hin; intuition discriminate. }
        simpl in Hin. destruct Hin as [Hin|[Hin|[Hin|[Hin|[]]]]]; try discriminate.
        injection Hin as <- <-. simpl in Hput, He. rewrite Hput in He.
        discriminate.
  - unfold login.
    destruct (super_login sdk _) as [e0|u]; [intros H; now elim H|].
    destruct (negb (truthy _) || negb (truthy _)); [intros H; now elim H|].
    destruct (String.eqb _ _ && _); [intros H; now elim H|].
    match goal with
    | |- context [rest_put sdk ?r ?b] =>
        destruct (rest_put sdk r b) as [e'|] eqn:Hput
    end; [intros H; now elim H|].
    intros _. eexists _, _. unfold login_trace, login_end. cbn [fst snd].
    split; [reflexivity|]. split; [|exact Hput].
    apply in_or_app. right. simpl. auto.
Qed.

Lemma login_failures_are_fatal_witness :
  login Fixtures.sdk_no_user Fixtures.no_env Fixtures.ping_client (Some "token")
  = (Fixtures.ping_client,
     [Logger error "No token or client ID was provided!"], ProcessExit 1)
  /\ (let r := login Fixtures.sdk_offline Fixtures.no_env Fixtures.ping_client
                 (Some "token") in
      login_end r = ProcessExit 1
      /\ In (Logger error "ECONNREFUSED") (login_trace r)
      /\ store (login_client r) = store Fixtures.ping_client).
Proof.
  split.
  - destruct (login_failures_are_fatal Fixtures.sdk_no_user Fixtures.no_env
                Fixtures.ping_client (Some "token")) as (H & _ & _).
    apply (H None eq_refl). right. reflexivity.
  - intros r.
    destruct (login_failures_are_fatal Fixtures.sdk_offline Fixtures.no_env
                Fixtures.ping_client (Some "token")) as (_ & H & _).
    apply (H (applicationCommands "4242") (all_of Fixtures.ping_client) "ECONNREFUSED").
    + do 2 right. left. reflexivity.
    + reflexivity.
Defined.

(** C7 does not hold as the specification states it: with no token in the
    argument or the environment, the SDK's login rejects before the check
    is reached, and [login] rejects with it: nothing is logged and the
    process is not ended by this code. *)
Lemma missing_token_rejects_before_the_check :
  let r := login Fixtures.sdk Fixtures.no_env Fixtures.ping_client None in
  truthy (nullish None (DISCORD_TOKEN Fixtures.no_env)) = false
  /\ login_end r = Rejected "TokenInvalid"
  /\ login_end r <> ProcessExit 1
  /\ login_trace r = [].
Proof.
  intros r. split; [reflexivity|]. split; [reflexivity|]. split; [discriminate|reflexivity].
Qed.

(* ===================================================================== *)
(** ** The handler sends no follow-up                                     *)
(* ===================================================================== *)

Lemma no_followUp_ret {A} (a : A) : no_followUp (ret a).
Proof. intros f. constructor. Qed.

Lemma no_followUp_throw {A} (e : Error) : no_followUp (throw e : M A).
Proof. intros f. constructor. Qed.

Lemma no_followUp_emit ev : is_followUp ev = false -> no_followUp (emit ev).
Proof. intros H f. repeat constructor. exact H. Qed.

Lemma no_followUp_bind {A B} (m : M A) (k : A -> M B) :
  no_followUp m -> (forall a, no_followUp (k a)) -> no_followUp (bind m k).
Proof.
  intros Hm Hk f. unfold bind, trace_of. specialize (Hm f). unfold trace_of in Hm.
  destruct (m f) as [[tr f'] [a|e]]; simpl in *; [|assumption].
  specialize (Hk a f'). unfold trace_of in Hk.
  destruct (k a f') as [[tr' f''] o]. simpl in *. apply Forall_app. now split.
Qed.

Lemma no_followUp_try_catch {A} (m : M A) (h : Error -> M A) :
  no_followUp m -> (forall e, no_followUp (h e)) -> no_followUp (try_catch m h).
Proof.
  intros Hm Hh f. unfold try_catch, trace_of. specialize (Hm f). unfold trace_of in Hm.
  destruct (m f) as [[tr f'] [a|e]]; simpl in *; [assumption|].
  specialize (Hh e f'). unfold trace_of in Hh.
  destruct (h e f') as [[tr' f''] o]. simpl in *. apply Forall_app. now split.
Qed.

Lemma no_followUp_call h b i args : no_followUp (call h b i args).
Proof.
  intros f. unfold call, trace_of.
  destruct (b i f args) as [f' [e|]]; repeat constructor.
Qed.

Lemma no_followUp_reply content ephemeral : no_followUp (reply content ephemeral).
Proof.
  unfold reply. apply no_followUp_bind.
  - intros f. constructor.
  - intros f. destruct (deferred f || replied f); now apply no_followUp_emit.
Qed.

Create HintDb quiet.
#[local] Hint Resolve no_followUp_ret no_followUp_throw no_followUp_call
  no_followUp_reply : quiet.

(** One step per construct of the handler's code. *)
Ltac quiet_step :=
  first
    [ solve [auto with quiet]
    | apply no_followUp_emit; reflexivity
    | apply no_followUp_bind; [|intros ?]
    | apply no_followUp_try_catch; [|intros ?]
    | match goal with
      | |- no_followUp (match ?x with _ => _ end) => destruct x
      end
    | progress cbv zeta
    | progress unfold logged, answered, lacks_permission, get_of, call_property ].

(** The helper [reply] edits the reply of an interaction that is deferred
    or replied to; together with the direct replies and the autocomplete
    response these are all the messages of the handler. *)
Lemma handler_sends_no_followUp sdk client i :
  no_followUp (useDefaultInteractionHandler sdk client i).
Proof.
  unfold useDefaultInteractionHandler, chat_input, context_menu, autocomplete_,
    component, command_execute, dispatch_execute.
  destruct (kind i); repeat quiet_step.
Qed.

(* ===================================================================== *)
(** ** Invariants of the handler                                          *)
(* ===================================================================== *)

Section Combinators.

Context {A B : Type}.
Implicit Types (m : M A) (k : A -> M B) (h : Error -> M A).

Lemma trace_bind m k f :
  trace_of (bind m k f) =
  match m f with
  | (tr, f', Ok a) => tr ++ trace_of (k a f')
  | (tr, _, Throw _) => tr
  end.
Proof.
  unfold bind, trace_of. destruct (m f) as [[tr f'] [a|e]]; [|reflexivity].
  now destruct (k a f') as [[tr' f''] o].
Qed.

Lemma result_bind m k f :
  result_of (bind m k f) =
  match m f with
  | (_, f', Ok a) => result_of (k a f')
  | (_, _, Throw e) => Throw e
  end.
Proof.
  unfold bind, result_of. destruct (m f) as [[tr f'] [a|e]]; [|reflexivity].
  now destruct (k a f') as [[tr' f''] o].
Qed.

Lemma trace_try_catch m h f :
  trace_of (try_catch m h f) =
  match m f with
  | (tr, _, Ok _) => tr
  | (tr, f', Throw e) => tr ++ trace_of (h e f')
  end.
Proof.
  unfold try_catch, trace_of. destruct (m f) as [[tr f'] [a|e]]; [reflexivity|].
  now destruct (h e f') as [[tr' f''] o].
Qed.

Lemma result_try_catch m h f :
  result_of (try_catch m h f) =
  match m f with
  | (_, _, Ok a) => Ok a
  | (_, f', Throw e) => result_of (h e f')
  end.
Proof.
  unfold try_catch, result_of. destruct (m f) as [[tr f'] [a|e]]; [reflexivity|].
  now destruct (h e f') as [[tr' f''] o].
Qed.

End Combinators.

Lemma all_events_ret {A} P (a : A) : all_events P (ret a).
Proof. intros f. constructor. Qed.

Lemma all_events_throw {A} P (e : Error) : all_events P (throw e : M A).
Proof. intros f. constructor. Qed.

Lemma all_events_get_flags P : all_events P get_flags.
Proof. intros f. constructor. Qed.

Lemma all_events_emit (P : Event -> Prop) ev : P ev -> all_events P (emit ev).
Proof. intros H f. repeat constructor. exact H. Qed.

Lemma all_events_bind {A B} P (m : M A) (k : A -> M B) :
  all_events P m -> (forall a, all_events P (k a)) -> all_events P (bind m k).
Proof.
  intros Hm Hk f. rewrite trace_bind. specialize (Hm f). unfold trace_of in Hm.
  destruct (m f) as [[tr f'] [a|e]]; simpl in Hm; [|assumption].
  apply Forall_app. split; [assumption|apply Hk].
Qed.

Lemma all_events_try_catch {A} P (m : M A) (h : Error -> M A) :
  all_events P m -> (forall e, all_events P (h e)) -> all_events P (try_catch m h).
Proof.
  intros Hm Hh f. rewrite trace_try_catch. specialize (Hm f). unfold trace_of in Hm.
  destruct (m f) as [[tr f'] [a|e]]; simpl in Hm; [assumption|].
  apply Forall_app. split; [assumption|apply Hh].
Qed.

Lemma all_events_call (P : Event -> Prop) h b i args :
  P (Invoke h args) -> all_events P (call h b i args).
Proof.
  intros H f. unfold call, trace_of.
  destruct (b i f args) as [f' [e|]]; repeat constructor; exact H.
Qed.

(** One step of a proof that all events of a piece of the handler satisfy a
    predicate; what is left are the events themselves. *)
Ltac events_step :=
  first
    [ apply all_events_ret
    | apply all_events_throw
    | apply all_events_get_flags
    | apply all_events_bind; [|intros ?]
    | apply all_events_try_catch; [|intros ?]
    | apply all_events_call
    | apply all_events_emit
    | match goal with
      | |- all_events _ (match ?x with _ => _ end) => destruct x eqn:?
      end
    | progress cbv zeta
    | progress unfold logged, answered, reply, lacks_permission, get_of, call_property ].

Lemma first_segment_hyphen_free id : hyphen_free (first_segment id) = true.
Proof.
  unfold first_segment.
  assert (H : exists x r, split id = x :: r /\ hyphen_free x = true).
  { induction id as [|c s (x & r & E & Hx)]; simpl.
    - now exists EmptyString, [].
    - destruct (Ascii.eqb c "-") eqn:Ec.
      + now exists EmptyString, (split s).
      + rewrite E. exists (String c x), r. split; [reflexivity|].
        simpl. now rewrite Ec, Hx. }
  destruct H as (x & r & -> & Hx). exact Hx.
Qed.

Lemma component_events client i lookup :
  all_events (component_event (first_segment (customId i))) (component client i lookup).
Proof.
  unfold component, first_segment. repeat events_step; simpl; auto.
Qed.

Lemma split_head id : split id !! 0%nat = Some (first_segment id).
Proof.
  unfold first_segment.
  assert (H : exists x r, split id = x :: r).
  { destruct id as [|c s]; simpl; [eauto|].
    destruct (Ascii.eqb c "-"); [eauto|]. destruct (split s); eauto. }
  destruct H as (x & r & ->). reflexivity.
Qed.

(** The component branch consults the registries under the first segment
    of the custom id and nowhere else. *)
Lemma component_reads_the_first_segment client client' i lookup f :
  JsMap.get (first_segment (customId i)) (commands client') =
  JsMap.get (first_segment (customId i)) (commands client) ->
  JsMap.get (first_segment (customId i)) (modals client') =
  JsMap.get (first_segment (customId i)) (modals client) ->
  component client' i lookup f = component client i lookup f.
Proof.
  intros Hc Hm. unfold component. cbv zeta. rewrite !split_head.
  cbn [JsMap.get_opt]. now rewrite Hc, Hm.
Qed.

Lemma hyphen_free_differs n id :
  hyphen_free n = false -> n <> first_segment id.
Proof.
  intros Hn ->. now rewrite first_segment_hyphen_free in Hn.
Qed.

(** X1. A component interaction (select menu, modal submission, button) is
    handled in silence: the handler sends no message of any kind.  What it
    does depends on the registries only through what the commands and the
    modals hold under the first segment of the custom id, and that segment
    holds no hyphen.  So whatever is registered under a name that holds a
    hyphen, command or modal, is never reached by a component interaction:
    registering it, with any executors and tables, changes the handling of
    no such interaction. *)
Theorem component_dispatch_is_silent_and_rooted
    (sdk : Sdk) (client : Client) (i : Interaction) (f : Flags) :
  is_component (kind i) = true ->
  messages (trace_of (useDefaultInteractionHandler sdk client i f)) = []
  /\ hyphen_free (first_segment (customId i)) = true
  /\ (forall client',
        JsMap.get (first_segment (customId i)) (commands client') =
        JsMap.get (first_segment (customId i)) (commands client) ->
        JsMap.get (first_segment (customId i)) (modals client') =
        JsMap.get (first_segment (customId i)) (modals client) ->
        useDefaultInteractionHandler sdk client' i f =
        useDefaultInteractionHandler sdk client i f)
  /\ (forall n command,
        hyphen_free n = false ->
        useDefaultInteractionHandler sdk
          (with_commands client (JsMap.set n command (commands client))) i f =
        useDefaultInteractionHandler sdk client i f)
  /\ (forall n modal,
        hyphen_free n = false ->
        useDefaultInteractionHandler sdk
          {| store := store client; commands := commands client;
             modals := JsMap.set n modal (modals client);
             contextMenus := contextMenus client; user := user client |} i f =
        useDefaultInteractionHandler sdk client i f).
Proof.
  intros Hk.
  assert (Hsame : forall client',
            JsMap.get (first_segment (customId i)) (commands client') =
            JsMap.get (first_segment (customId i)) (commands client) ->
            JsMap.get (first_segment (customId i)) (modals client') =
            JsMap.get (first_segment (customId i)) (modals client) ->
            useDefaultInteractionHandler sdk client' i f =
            useDefaultInteractionHandler sdk client i f).
  { intros client' Hc Hm. unfold useDefaultInteractionHandler.
    destruct (kind i); try discriminate;
      now apply component_reads_the_first_segment. }
  split; [|split; [apply first_segment_hyphen_free|split; [exact Hsame|split]]].
  - assert (Hall : Forall (component_event (first_segment (customId i)))
                     (trace_of (useDefaultInteractionHandler sdk client i f))).
    { unfold useDefaultInteractionHandler.
      destruct (kind i); try discriminate; apply component_events. }
    induction Hall as [|ev tr Hev _ IH]; [reflexivity|].
    unfold messages in *. simpl. destruct ev; simpl in *; try contradiction; exact IH.
  - intros n command Hn. apply Hsame; simpl; [|reflexivity].
    apply get_set_ne. now apply hyphen_free_differs.
  - intros n modal Hn. apply Hsame; simpl; [reflexivity|].
    apply get_set_ne. now apply hyphen_free_differs.
Qed.

Lemma component_dispatch_is_silent_and_rooted_witness :
  let hyphenated :=
    IsCommandData
      {| cd_data := Fixtures.builder "user-info"; cd_permissions := None;
         cd_top := Fixtures.with_buttons (Fixtures.fails "never") ["more"] |} in
  let client :=
    with_commands Fixtures.ping_client
      (JsMap.set "user-info" hyphenated (commands Fixtures.ping_client)) in
  useDefaultInteractionHandler Fixtures.sdk client
    (Fixtures.interaction Button EmptyString "user-info-more") Fixtures.fresh
  = ([], Fixtures.fresh, Ok tt).
Proof.
  intros hyphenated client.
  destruct (component_dispatch_is_silent_and_rooted Fixtures.sdk Fixtures.ping_client
              (Fixtures.interaction Button EmptyString "user-info-more") Fixtures.fresh
              eq_refl) as (_ & _ & _ & H & _).
  unfold client. rewrite (H "user-info" hyphenated eq_refl). reflexivity.
Defined.

Lemma invocations_app tr tr' : invocations (tr ++ tr') = invocations tr ++ invocations tr'.
Proof. unfold invocations. apply List.filter_app. Qed.

Lemma messages_app tr tr' : messages (tr ++ tr') = messages tr ++ messages tr'.
Proof. unfold messages. apply List.filter_app. Qed.

Lemma no_call_of_events {A} (m : M A) :
  all_events (fun ev => is_invoke ev = false) m -> no_call m.
Proof.
  intros H f. specialize (H f). unfold invocations.
  induction H as [|ev tr Hev _ IH]; [reflexivity|]. simpl. now rewrite Hev.
Qed.

Lemma no_message_of_events {A} (m : M A) :
  all_events (fun ev => is_message ev = false) m -> no_message m.
Proof.
  intros H f. specialize (H f). unfold messages.
  induction H as [|ev tr Hev _ IH]; [reflexivity|]. simpl. now rewrite Hev.
Qed.

Lemma at_most_one_call_of_none {A} (m : M A) : no_call m -> at_most_one_call m.
Proof. intros H f. rewrite H. simpl. lia. Qed.

Lemma at_most_one_call_call h b i args : at_most_one_call (call h b i args).
Proof.
  intros f. unfold call, trace_of. destruct (b i f args) as [f' [e|]]; simpl; lia.
Qed.

Lemma at_most_one_call_bind {A B} (m : M A) (k : A -> M B) :
  no_call m -> (forall a, at_most_one_call (k a)) -> at_most_one_call (bind m k).
Proof.
  intros Hm Hk f. rewrite trace_bind. specialize (Hm f). unfold trace_of in Hm.
  destruct (m f) as [[tr f'] [a|e]]; simpl in Hm.
  - rewrite invocations_app, Hm. apply Hk.
  - rewrite Hm. simpl. lia.
Qed.

Lemma at_most_one_call_try_catch {A} (m : M A) (h : Error -> M A) :
  at_most_one_call m -> (forall e, no_call (h e)) -> at_most_one_call (try_catch m h).
Proof.
  intros Hm Hh f. rewrite trace_try_catch. specialize (Hm f). unfold trace_of in Hm.
  destruct (m f) as [[tr f'] [a|e]]; simpl in Hm; [assumption|].
  rewrite invocations_app, Hh, List.app_nil_r. assumption.
Qed.

(** A piece of the handler without a call. *)
Ltac no_call_tac :=
  apply no_call_of_events; repeat events_step; reflexivity.

Ltac one_call_step :=
  first
    [ apply at_most_one_call_call
    | apply at_most_one_call_bind; [no_call_tac|intros ?]
    | apply at_most_one_call_try_catch; [|intros ?; no_call_tac]
    | match goal with
      | |- at_most_one_call (match ?x with _ => _ end) => destruct x eqn:?
      end
    | progress cbv zeta
    | progress unfold logged, answered, call_property
    | apply at_most_one_call_of_none; no_call_tac ].

(** X2. Whatever the registry and the interaction, the handler calls at
    most one closure of the user's for one interaction. *)
Theorem handler_calls_at_most_one_closure
    (sdk : Sdk) (client : Client) (i : Interaction) (f : Flags) :
  List.length (invocations (trace_of (useDefaultInteractionHandler sdk client i f))) <= 1.
Proof.
  revert f.
  change (at_most_one_call (useDefaultInteractionHandler sdk client i)).
  unfold useDefaultInteractionHandler, chat_input, context_menu, autocomplete_,
    component, command_execute, dispatch_execute.
  destruct (kind i); repeat one_call_step.
Qed.

Lemma one_message_of_none {A} (m : M A) : no_message m -> one_message_unless_thrown m.
Proof. intros H f. rewrite H. destruct (result_of (m f)); simpl; [lia|reflexivity]. Qed.

Lemma one_message_emit ev : one_message_unless_thrown (emit ev).
Proof. intros f. simpl. unfold messages. simpl. destruct (is_message ev); simpl; lia. Qed.

Lemma one_message_bind {A B} (m : M A) (k : A -> M B) :
  no_message m -> (forall a, one_message_unless_thrown (k a)) ->
  one_message_unless_thrown (bind m k).
Proof.
  intros Hm Hk f. rewrite trace_bind, result_bind. specialize (Hm f).
  unfold trace_of in Hm.
  destruct (m f) as [[tr f'] [a|e]]; simpl in Hm.
  - rewrite messages_app, Hm. apply Hk.
  - exact Hm.
Qed.

Lemma one_message_try_catch {A} (m : M A) (h : Error -> M A) :
  one_message_unless_thrown m -> (forall e, one_message_unless_thrown (h e)) ->
  one_message_unless_thrown (try_catch m h).
Proof.
  intros Hm Hh f. rewrite trace_try_catch, result_try_catch. specialize (Hm f).
  unfold trace_of, result_of in Hm.
  destruct (m f) as [[tr f'] [a|e]]; simpl in Hm; [assumption|].
  rewrite messages_app, Hm. apply Hh.
Qed.

Ltac no_message_tac :=
  apply no_message_of_events; repeat events_step; reflexivity.

Ltac one_message_step :=
  first
    [ apply one_message_emit
    | apply one_message_bind; [no_message_tac|intros ?]
    | apply one_message_try_catch; [|intros ?]
    | match goal with
      | |- one_message_unless_thrown (match ?x with _ => _ end) => destruct x eqn:?
      end
    | progress cbv zeta
    | progress unfold logged, answered, reply, call_property
    | apply one_message_of_none; no_message_tac ].

(** X3. Whatever the registry and the interaction, the handler sends at
    most one message (reply, edit of the reply or autocomplete response)
    for one interaction, and none when it throws. *)
Theorem handler_sends_at_most_one_message
    (sdk : Sdk) (client : Client) (i : Interaction) (f : Flags) :
  List.length (messages (trace_of (useDefaultInteractionHandler sdk client i f))) <= 1
  /\ match result_of (useDefaultInteractionHandler sdk client i f) with
     | Ok _ => True
     | Throw _ => messages (trace_of (useDefaultInteractionHandler sdk client i f)) = []
     end.
Proof.
  assert (H : one_message_unless_thrown (useDefaultInteractionHandler sdk client i)).
  { unfold useDefaultInteractionHandler, chat_input, context_menu, autocomplete_,
      component, command_execute, dispatch_execute.
    destruct (kind i); repeat one_message_step. }
  specialize (H f).
  destruct (result_of (useDefaultInteractionHandler sdk client i f)) as [a|e].
  - split; [exact H|exact I].
  - split; [rewrite H; simpl; lia|exact H].
Qed.

Lemma never_throws_ret {A} (a : A) : never_throws (ret a).
Proof. intros f. now exists a. Qed.

Lemma never_throws_emit ev : never_throws (emit ev).
Proof. intros f. now exists tt. Qed.

Lemma never_throws_get_flags : never_throws get_flags.
Proof. intros f. now exists f. Qed.

Lemma never_throws_bind {A B} (m : M A) (k : A -> M B) :
  never_throws m -> (forall a, never_throws (k a)) -> never_throws (bind m k).
Proof.
  intros Hm Hk f. rewrite result_bind. destruct (Hm f) as [a Ha].
  unfold result_of in Ha. destruct (m f) as [[tr f'] o]. simpl in Ha. subst o.
  apply Hk.
Qed.

(** A [try] block whose [catch] throws nothing throws nothing, whatever
    its body does. *)
Lemma never_throws_try_catch {A} (m : M A) (h : Error -> M A) :
  (forall e, never_throws (h e)) -> never_throws (try_catch m h).
Proof.
  intros Hh f. rewrite result_try_catch.
  destruct (m f) as [[tr f'] [a|e]]; [now exists a|apply Hh].
Qed.

Lemma never_throws_lacks_permission sdk required i m :
  member i = Some m -> never_throws (lacks_permission sdk required i).
Proof.
  intros Hm f. unfold lacks_permission. rewrite Hm.
  destruct required; eexists; reflexivity.
Qed.

Ltac never_throws_step :=
  first
    [ apply never_throws_ret
    | apply never_throws_emit
    | apply never_throws_get_flags
    | eapply never_throws_lacks_permission; eassumption
    | apply never_throws_try_catch; intros ?
    | apply never_throws_bind; [|intros ?]
    | match goal with
      | |- never_throws (match ?x with _ => _ end) => destruct x eqn:?
      end
    | progress cbv zeta
    | progress unfold logged, answered, reply, call_property ].



(* ===================================================================== *)
(** ** Subcommands                                                        *)
(* ===================================================================== *)

(** What [loadSubcommand] stores for an index without a permission
    requirement and without an executor of its own. *)
Lemma loadSubcommand_stored sdk index client :
  id_permissions index = None ->
  id_execute index = NoExecute ->
  JsMap.get (name (id_data index)) (commands (loadSubcommand sdk index client)) =
  Some (IsSubcommandIndexData
          {| id_data := id_data index; id_permissions := None;
             id_subcommands := nullish (id_subcommands index) (Some JsMap.empty);
             id_subcommandGroups := nullish (id_subcommandGroups index) (Some JsMap.empty);
             id_execute := DispatchExecute |}).
Proof.
  intros Hp He. unfold loadSubcommand. rewrite Hp, He. simpl. apply get_set_eq.
Qed.

Lemma nullish_bind_get {V} (m : option (JsMap.t V)) k v :
  m ≫= JsMap.get k = Some v ->
  nullish m (Some JsMap.empty) = m /\ exists m', m = Some m' /\ JsMap.get k m' = Some v.
Proof. destruct m as [m'|]; simpl; [eauto|discriminate]. Qed.

(** X5. An index stored by [loadSubcommand] (no permission requirement, no
    executor of its own) dispatches a chat-input interaction for its name
    to the subcommand the options name: directly when they name no group,
    inside the group when they name one.  The subcommand's executor is
    called in an isolating block of its own, so what it throws is logged
    and answered once. *)
Theorem loaded_index_dispatches_to_subcommand
    (sdk : Sdk) (client : Client) (index : SubcommandIndexData)
    (i : Interaction) (f : Flags) (s : string) (sub : SubcommandData) :
  id_permissions index = None ->
  id_execute index = NoExecute ->
  kind i = ChatInputCommand ->
  commandName i = name (id_data index) ->
  getSubcommand i = Some s ->
  s <> EmptyString ->
  (truthy (getSubcommandGroup i) = false ->
   id_subcommands index ≫= JsMap.get s = Some sub ->
   useDefaultInteractionHandler sdk (loadSubcommand sdk index client) i f =
   answered "There was an error while executing this command!"
     (call (SubcommandExecute (name (id_data index)) None s)
        (execute (sd_top sub)) i []) f)
  /\ (forall g group,
        getSubcommandGroup i = Some g -> g <> EmptyString ->
        id_subcommandGroups index ≫= JsMap.get g = Some group ->
        gd_subcommands group ≫= JsMap.get s = Some sub ->
        useDefaultInteractionHandler sdk (loadSubcommand sdk index client) i f =
        answered "There was an error while executing this command!"
          (call (SubcommandExecute (name (id_data index)) (Some g) s)
             (execute (sd_top sub)) i []) f).
Proof.
  intros Hp He Hk Hn Hs Hne.
  assert (Hts : truthy (getSubcommand i) = true).
  { rewrite Hs. simpl. apply String.eqb_neq in Hne. now rewrite Hne. }
  pose proof (loadSubcommand_stored sdk index client Hp He) as Hget.
  unfold useDefaultInteractionHandler, chat_input. rewrite Hk, Hn, Hget.
  cbn [permissions id_permissions lacks_permission].
  assert (Hd : (if inGuild i then ret false else ret false) = (ret false : M bool)).
  { now destruct (inGuild i). }
  rewrite Hd, bind_ret_l. cbn [command_execute id_execute].
  unfold dispatch_execute. rewrite Hk, Hts, Hs.
  cbn [key_name id_subcommands id_subcommandGroups id_data].
  split.
  - intros Hg Hsub. rewrite Hg.
    apply nullish_bind_get in Hsub. destruct Hsub as (-> & m' & -> & Hsub).
    etransitivity; [|apply answered_idle, answered_call_result].
    apply answered_ext. unfold get_of. now rewrite bind_ret_l, Hsub.
  - intros g group Hg Hgne Hgroup Hsub.
    assert (Htg : truthy (getSubcommandGroup i) = true).
    { rewrite Hg. simpl. apply String.eqb_neq in Hgne. now rewrite Hgne. }
    rewrite Htg, Hg.
    apply nullish_bind_get in Hgroup. destruct Hgroup as (-> & gs & -> & Hgroup).
    etransitivity; [|apply answered_idle, answered_call_result].
    apply answered_ext. cbn [JsMap.get_opt]. rewrite Hgroup.
    destruct (gd_subcommands group) as [subs|]; [|discriminate]. simpl in Hsub.
    unfold get_of. now rewrite bind_ret_l, Hsub.
Qed.

Lemma loaded_index_dispatches_to_subcommand_witness :
  let sub := Fixtures.subcommand "sub2" (Fixtures.top (Fixtures.fails "boom")) in
  let index :=
    {| id_data := Fixtures.builder "cmdA"; id_permissions := None;
       id_subcommands := None;
       id_subcommandGroups :=
         Some [("grp1", {| gd_data := Fixtures.builder "grp1";
                           gd_subcommands := Some [("sub2", sub)] |})];
       id_execute := NoExecute |} in
  let i := {| kind := ChatInputCommand; commandName := "cmdA"; customId := EmptyString;
              inGuild := false; member := None; getSubcommand := Some "sub2";
              getSubcommandGroup := Some "grp1" |} in
  useDefaultInteractionHandler Fixtures.sdk
    (loadSubcommand Fixtures.sdk index new_Client) i Fixtures.fresh =
  ([Invoke (SubcommandExecute "cmdA" (Some "grp1") "sub2") [];
    LoggerError "boom";
    Reply "There was an error while executing this command!" true],
   Fixtures.fresh, Ok tt).
Proof.
  intros sub index i.
  destruct (loaded_index_dispatches_to_subcommand Fixtures.sdk new_Client
              index i Fixtures.fresh "sub2" sub
              eq_refl eq_refl eq_refl eq_refl eq_refl) as [_ H]; [discriminate|].
  erewrite H; [reflexivity|reflexivity|discriminate|reflexivity|reflexivity].
Defined.

Lemma answered_throw msg (m : M unit) e f :
  m f = ([], f, Throw e) ->
  answered msg m f =
  ([LoggerError e; if deferred f || replied f then EditReply msg true else Reply msg true],
   f, Ok tt).
Proof.
  intros H. unfold answered, try_catch. rewrite H.
  cbv [reply bind emit get_flags]. now destruct (deferred f || replied f).
Qed.

Lemma reply_run msg f :
  reply msg true f =
  ([if deferred f || replied f then EditReply msg true else Reply msg true], f, Ok tt).
Proof. cbv [reply bind emit get_flags]. now destruct (deferred f || replied f). Qed.

Lemma nullish_bind_get_None {V} (m : option (JsMap.t V)) k :
  m ≫= JsMap.get k = None ->
  exists m', nullish m (Some JsMap.empty) = Some m' /\ JsMap.get k m' = None.
Proof. destruct m as [m'|]; simpl; [eauto|]. intros _. now exists JsMap.empty. Qed.

(** X6. For an index stored by [loadSubcommand] that has no permission
    requirement and no executor of its own (so that the closure of the
    loader runs), a miss in the resolution of the subcommand is answered
    and calls nothing.  A subcommand that the index does not hold, a group
    that it does not hold, and a subcommand that the group named does not
    hold get the message that the subcommand could not be found, through
    [reply] (an edit when the interaction is deferred or replied to).
    Options that name no subcommand at all, and a group that has no map of
    subcommands, make the dispatch throw; the value is caught by the block
    around the command, logged, and answered with the generic failure
    message. *)
Theorem subcommand_miss_is_answered
    (sdk : Sdk) (client : Client) (index : SubcommandIndexData)
    (i : Interaction) (f : Flags) :
  id_permissions index = None ->
  id_execute index = NoExecute ->
  kind i = ChatInputCommand ->
  commandName i = name (id_data index) ->
  let not_found s :=
    ([if deferred f || replied f
      then EditReply ("Could not find subcommand **" +:+ s +:+ "**!") true
      else Reply ("Could not find subcommand **" +:+ s +:+ "**!") true], f, Ok tt) in
  (forall s, getSubcommand i = Some s -> s <> EmptyString ->
     truthy (getSubcommandGroup i) = false ->
     id_subcommands index ≫= JsMap.get s = None ->
     useDefaultInteractionHandler sdk (loadSubcommand sdk index client) i f = not_found s)
  /\ (forall s g, getSubcommand i = Some s -> s <> EmptyString ->
     getSubcommandGroup i = Some g -> g <> EmptyString ->
     id_subcommandGroups index ≫= JsMap.get g = None ->
     useDefaultInteractionHandler sdk (loadSubcommand sdk index client) i f = not_found s)
  /\ (forall s g group m, getSubcommand i = Some s -> s <> EmptyString ->
     getSubcommandGroup i = Some g -> g <> EmptyString ->
     id_subcommandGroups index ≫= JsMap.get g = Some group ->
     gd_subcommands group = Some m ->
     JsMap.get s m = None ->
     useDefaultInteractionHandler sdk (loadSubcommand sdk index client) i f = not_found s)
  /\ (forall s g group, getSubcommand i = Some s -> s <> EmptyString ->
     getSubcommandGroup i = Some g -> g <> EmptyString ->
     id_subcommandGroups index ≫= JsMap.get g = Some group ->
     gd_subcommands group = None ->
     exists e,
       useDefaultInteractionHandler sdk (loadSubcommand sdk index client) i f =
       ([LoggerError e;
         if deferred f || replied f
         then EditReply "There was an error while executing this command!" true
         else Reply "There was an error while executing this command!" true],
        f, Ok tt))
  /\ (truthy (getSubcommand i) = false ->
     exists e,
       useDefaultInteractionHandler sdk (loadSubcommand sdk index client) i f =
       ([LoggerError e;
         if deferred f || replied f
         then EditReply "There was an error while executing this command!" true
         else Reply "There was an error while executing this command!" true],
        f, Ok tt)).
Proof.
  intros Hp He Hk Hn not_found.
  pose proof (loadSubcommand_stored sdk index client Hp He) as Hget.
  assert (Hrun : forall r,
             dispatch_execute
               {| id_data := id_data index; id_permissions := None;
                  id_subcommands := nullish (id_subcommands index) (Some JsMap.empty);
                  id_subcommandGroups :=
                    nullish (id_subcommandGroups index) (Some JsMap.empty);
                  id_execute := DispatchExecute |} i f = r ->
             useDefaultInteractionHandler sdk (loadSubcommand sdk index client) i f =
             answered "There was an error while executing this command!"
               (fun _ => r) f).
  { intros r <-. unfold useDefaultInteractionHandler, chat_input.
    rewrite Hk, Hn, Hget. cbn [permissions id_permissions lacks_permission].
    assert (Hd : (if inGuild i then ret false else ret false) = (ret false : M bool)).
    { now destruct (inGuild i). }
    rewrite Hd, bind_ret_l. cbn [command_execute id_execute].
    now apply answered_ext. }
  assert (Htruthy : forall s, s <> EmptyString -> truthy (Some s) = true).
  { intros s Hs. simpl. apply String.eqb_neq in Hs. now rewrite Hs. }
  split; [|split; [|split; [|split]]].
  - intros s Hs Hne Hg Hsub.
    apply nullish_bind_get_None in Hsub. destruct Hsub as (m' & Hm' & Hsub).
    rewrite (Hrun (not_found s)); [now apply answered_idle; exists tt|].
    unfold dispatch_execute. rewrite Hk, Hs, (Htruthy s Hne), Hg.
    cbn [key_name id_subcommands]. rewrite Hm'. unfold get_of.
    rewrite bind_ret_l, Hsub. apply reply_run.
  - intros s g Hs Hne Hg Hgne Hgroup.
    apply nullish_bind_get_None in Hgroup. destruct Hgroup as (m' & Hm' & Hgroup).
    rewrite (Hrun (not_found s)); [now apply answered_idle; exists tt|].
    unfold dispatch_execute. rewrite Hk, Hs, (Htruthy s Hne), Hg, (Htruthy g Hgne).
    cbn [key_name id_subcommandGroups JsMap.get_opt]. rewrite Hm', Hgroup.
    rewrite bind_ret_l. apply reply_run.
  - intros s g group m Hs Hne Hg Hgne Hgroup Hm Hmiss.
    apply nullish_bind_get in Hgroup. destruct Hgroup as (Hnull & gs & Egs & Hgroup).
    rewrite (Hrun (not_found s)); [now apply answered_idle; exists tt|].
    unfold dispatch_execute. rewrite Hk, Hs, (Htruthy s Hne), Hg, (Htruthy g Hgne).
    cbn [key_name id_subcommandGroups JsMap.get_opt]. rewrite Hnull, Egs, Hgroup, Hm.
    unfold get_of. rewrite bind_ret_l, Hmiss. apply reply_run.
  - intros s g group Hs Hne Hg Hgne Hgroup Hm.
    apply nullish_bind_get in Hgroup. destruct Hgroup as (Hnull & gs & Egs & Hgroup).
    exists (TypeError "Cannot read properties of undefined (reading 'get')").
    rewrite (Hrun ([], f,
                   Throw (TypeError "Cannot read properties of undefined (reading 'get')")));
      [apply answered_throw; reflexivity|].
    unfold dispatch_execute. rewrite Hk, Hs, (Htruthy s Hne), Hg, (Htruthy g Hgne).
    cbn [key_name id_subcommandGroups JsMap.get_opt]. rewrite Hnull, Egs, Hgroup, Hm.
    reflexivity.
  - intros Hnone.
    exists "TypeError [CommandInteractionOptionNoSubcommand]".
    rewrite (Hrun ([], f, Throw "TypeError [CommandInteractionOptionNoSubcommand]"));
      [apply answered_throw; reflexivity|].
    unfold dispatch_execute. now rewrite Hk, Hnone.
Qed.

Lemma subcommand_miss_is_answered_witness :
  let client := loadSubcommand Fixtures.sdk (Fixtures.cmdA Fixtures.succeeds) new_Client in
  let i s := {| kind := ChatInputCommand; commandName := "cmdA"; customId := EmptyString;
                inGuild := false; member := None; getSubcommand := s;
                getSubcommandGroup := None |} in
  let in_group := {| kind := ChatInputCommand; commandName := "cmdA";
                     customId := EmptyString; inGuild := false; member := None;
                     getSubcommand := Some "sub1"; getSubcommandGroup := Some "grp1" |} in
  useDefaultInteractionHandler Fixtures.sdk client (i (Some "nope")) Fixtures.fresh =
  ([Reply "Could not find subcommand **nope**!" true], Fixtures.fresh, Ok tt)
  /\ useDefaultInteractionHandler Fixtures.sdk client in_group Fixtures.fresh =
     ([Reply "Could not find subcommand **sub1**!" true], Fixtures.fresh, Ok tt)
  /\ invocations (trace_of (useDefaultInteractionHandler Fixtures.sdk client (i None)
                              Fixtures.fresh)) = [].
Proof.
  intros client i in_group. split; [|split].
  - destruct (subcommand_miss_is_answered Fixtures.sdk new_Client
                (Fixtures.cmdA Fixtures.succeeds) (i (Some "nope")) Fixtures.fresh
                eq_refl eq_refl eq_refl eq_refl) as (H & _).
    apply (H "nope"); [reflexivity|discriminate|reflexivity|reflexivity].
  - destruct (subcommand_miss_is_answered Fixtures.sdk new_Client
                (Fixtures.cmdA Fixtures.succeeds) in_group Fixtures.fresh
                eq_refl eq_refl eq_refl eq_refl) as (_ & _ & H & _).
    eapply (H "sub1" "grp1"); try reflexivity; discriminate.
  - destruct (subcommand_miss_is_answered Fixtures.sdk new_Client
                (Fixtures.cmdA Fixtures.succeeds) (i None) Fixtures.fresh
                eq_refl eq_refl eq_refl eq_refl) as (_ & _ & _ & _ & H).
    destruct (H eq_refl) as [e E]. fold client in E. rewrite E. reflexivity.
Defined.

(* ===================================================================== *)
(** ** Autocomplete and components, the remaining paths                   *)
(* ===================================================================== *)

(** X7. An autocomplete interaction whose options name a subcommand of a
    registered index reaches the autocomplete executor of that subcommand
    (inside the named group, when the options name one); what the executor
    throws is logged and nothing is sent.  When the subcommand found has no
    autocomplete executor, the sentinel is the response. *)
Theorem autocomplete_resolves_under_subcommand
    (sdk : Sdk) (client : Client) (i : Interaction) (f : Flags)
    (index : SubcommandIndexData) (s : string) (sub : SubcommandData) :
  kind i = Autocomplete ->
  JsMap.get (commandName i) (commands client) = Some (IsSubcommandIndexData index) ->
  getSubcommand i = Some s ->
  s <> EmptyString ->
  let found g :=
    match autocomplete (sd_top sub) with
    | Some a => logged (call (AutocompleteOf (commandName i) g s) a i []) f
    | None => ([Respond [("ERROR", "autocompleteNotFound")]], f, Ok tt)
    end in
  (truthy (getSubcommandGroup i) = false ->
   id_subcommands index ≫= JsMap.get s = Some sub ->
   useDefaultInteractionHandler sdk client i f = found None)
  /\ (forall g group,
        getSubcommandGroup i = Some g -> g <> EmptyString ->
        id_subcommandGroups index ≫= JsMap.get g = Some group ->
        gd_subcommands group ≫= JsMap.get s = Some sub ->
        useDefaultInteractionHandler sdk client i f = found (Some g)).
Proof.
  intros Hk Hget Hs Hne found.
  assert (Hts : truthy (getSubcommand i) = true).
  { rewrite Hs. simpl. apply String.eqb_neq in Hne. now rewrite Hne. }
  unfold useDefaultInteractionHandler, autocomplete_. rewrite Hk, Hget, Hts, Hs.
  cbn [subcommands_of subcommandGroups_of key_name JsMap.get_opt]. split.
  - intros Hg Hsub. rewrite Hg.
    change (@JsMap.get_opt SubcommandData (Some s)) with (@JsMap.get SubcommandData s).
    rewrite Hsub. subst found. simpl. now destruct (autocomplete (sd_top sub)).
  - intros g group Hg Hgne Hgroup Hsub.
    assert (Htg : truthy (getSubcommandGroup i) = true).
    { rewrite Hg. simpl. apply String.eqb_neq in Hgne. now rewrite Hgne. }
    rewrite Htg, Hg.
    change (@JsMap.get_opt SubcommandGroupData (Some g))
      with (@JsMap.get SubcommandGroupData g).
    rewrite Hgroup. simpl.
    change (@JsMap.get_opt SubcommandData (Some s)) with (@JsMap.get SubcommandData s).
    rewrite Hsub. subst found. simpl. now destruct (autocomplete (sd_top sub)).
Qed.

Lemma autocomplete_resolves_under_subcommand_witness :
  let sub :=
    {| sd_data := Fixtures.builder "city";
       sd_top := {| execute := Fixtures.succeeds;
                    autocomplete := Some (Fixtures.fails "boom");
                    cmd_selectMenus := None; cmd_buttons := None; cmd_modals := None |} |} in
  let index :=
    {| id_data := Fixtures.builder "weather"; id_permissions := None;
       id_subcommands := Some [("city", sub)]; id_subcommandGroups := None;
       id_execute := NoExecute |} in
  let i := {| kind := Autocomplete; commandName := "weather"; customId := EmptyString;
              inGuild := false; member := None; getSubcommand := Some "city";
              getSubcommandGroup := None |} in
  useDefaultInteractionHandler Fixtures.sdk
    (loadSubcommand Fixtures.sdk index new_Client) i Fixtures.fresh =
  ([Invoke (AutocompleteOf "weather" None "city") []; LoggerError "boom"],
   Fixtures.fresh, Ok tt).
Proof.
  intros sub index i.
  destruct (autocomplete_resolves_under_subcommand Fixtures.sdk
              (loadSubcommand Fixtures.sdk index new_Client) i Fixtures.fresh
              {| id_data := Fixtures.builder "weather"; id_permissions := None;
                 id_subcommands := Some [("city", sub)];
                 id_subcommandGroups := Some JsMap.empty;
                 id_execute := DispatchExecute |} "city" sub
              eq_refl eq_refl eq_refl) as [H _]; [discriminate|].
  rewrite H; reflexivity.
Defined.

(** X8. A component interaction whose first segment names a plain command
    takes the second segment as the key in the table of its kind.  An own
    entry under that key is called with every segment after the second.
    A command that has no table of that kind makes the interaction a
    silent no-op, and so does a key that is neither an own entry of the
    table nor the name of a member of [Object.prototype].  A key that is
    no own entry but names an inherited member calls no closure of the
    user's: the inherited member is called, and what that throws is
    logged. *)
Theorem plain_command_component_routing
    (sdk : Sdk) (client : Client) (i : Interaction) (f : Flags) (lookup : Lookup)
    (command : CommandData) (c k : string) (rest : list string) :
  lookup_of_kind (kind i) = Some lookup ->
  split (customId i) = c :: k :: rest ->
  JsMap.get c (commands client) = Some (IsCommandData command) ->
  (forall h, table lookup (cd_top command) ≫= obj_get (Some k) = Some h ->
     useDefaultInteractionHandler sdk client i f =
     logged (call (ComponentOf c None None lookup k) h i rest) f
     /\ invocations (trace_of (useDefaultInteractionHandler sdk client i f)) =
        [Invoke (ComponentOf c None None lookup k) rest])
  /\ (table lookup (cd_top command) = None ->
     useDefaultInteractionHandler sdk client i f = ([], f, Ok tt))
  /\ (table lookup (cd_top command) ≫= obj_get (Some k) = None ->
     Object_prototype k = None ->
     useDefaultInteractionHandler sdk client i f = ([], f, Ok tt))
  /\ (forall t thrown,
        table lookup (cd_top command) = Some t ->
        t !! k = None ->
        Object_prototype k = Some (Inherited thrown) ->
        useDefaultInteractionHandler sdk client i f =
        (match thrown with
         | Some e => [LoggerError e]
         | None => []
         end, f, Ok tt)).
Proof.
  intros Hk Hsplit Hget.
  assert (Hc : useDefaultInteractionHandler sdk client i f = component client i lookup f).
  { unfold useDefaultInteractionHandler.
    destruct (kind i); simpl in Hk; try discriminate; now inversion Hk. }
  rewrite Hc. unfold component. rewrite Hsplit. simpl. rewrite Hget.
  split; [|split; [|split]].
  - intros h Hh. apply obj_prop_own in Hh. rewrite Hh.
    change (drop 0 rest) with rest. cbn [call_property]. split; [reflexivity|].
    rewrite logged_call. now destruct (h i f rest) as [f' [e|]].
  - intros Ht. now rewrite Ht.
  - intros Hh Hp. now rewrite (obj_prop_none _ (Some k) Hh Hp).
  - intros t thrown Ht Hown Hp. rewrite Ht. simpl. unfold obj_prop. simpl.
    rewrite Hown, Hp. now destruct thrown.
Qed.

Lemma plain_command_component_routing_witness :
  let client :=
    loadCommand Fixtures.sdk
      {| cd_data := Fixtures.builder "poll"; cd_permissions := None;
         cd_top := Fixtures.with_buttons (Fixtures.fails "closed") ["vote"] |}
      new_Client in
  let press k id :=
    useDefaultInteractionHandler Fixtures.sdk client
      (Fixtures.interaction k EmptyString id) Fixtures.fresh in
  press Button "poll-vote-7-yes"
  = ([Invoke (ComponentOf "poll" None None buttons "vote") ["7"; "yes"];
      LoggerError "closed"], Fixtures.fresh, Ok tt)
  /\ press AnySelectMenu "poll-vote-7-yes" = ([], Fixtures.fresh, Ok tt)
  /\ press Button "poll-veto-7" = ([], Fixtures.fresh, Ok tt)
  /\ press Button "poll-hasOwnProperty-x"
     = ([LoggerError (TypeError "Cannot convert undefined or null to object")],
        Fixtures.fresh, Ok tt)
  /\ press Button "poll-constructor-x" = ([], Fixtures.fresh, Ok tt).
Proof.
  intros client press.
  pose (command := {| cd_data := Fixtures.builder "poll"; cd_permissions := None;
                      cd_top := Fixtures.with_buttons (Fixtures.fails "closed") ["vote"] |}).
  pose (route := fun k lookup id key rest =>
          plain_command_component_routing Fixtures.sdk client
            (Fixtures.interaction k EmptyString id)
            Fixtures.fresh lookup command "poll" key rest).
  split; [|split; [|split; [|split]]].
  - destruct (route Button buttons "poll-vote-7-yes" "vote" ["7"; "yes"]
                eq_refl eq_refl eq_refl) as (H & _).
    destruct (H (Fixtures.fails "closed") eq_refl) as [H' _].
    unfold press. etransitivity; [exact H'|reflexivity].
  - destruct (route AnySelectMenu selectMenus "poll-vote-7-yes" "vote" ["7"; "yes"]
                eq_refl eq_refl eq_refl) as (_ & H & _).
    now apply H.
  - destruct (route Button buttons "poll-veto-7" "veto" ["7"]
                eq_refl eq_refl eq_refl) as (_ & _ & H & _).
    apply H; reflexivity.
  - destruct (route Button buttons "poll-hasOwnProperty-x" "hasOwnProperty" ["x"]
                eq_refl eq_refl eq_refl) as (_ & _ & _ & H).
    apply (H _ (Some (TypeError "Cannot convert undefined or null to object")) eq_refl);
      reflexivity.
  - destruct (route Button buttons "poll-constructor-x" "constructor" ["x"]
                eq_refl eq_refl eq_refl) as (_ & _ & _ & H).
    apply (H _ None eq_refl); reflexivity.
Defined.

(** X9. A custom id of one segment, the name of a command alone, has no
    second segment to look a handler up with.  For a subcommand index the
    interaction is then a silent no-op.  For a plain command the missing
    segment reads as the property named [undefined]: the interaction is a
    no-op unless the table of its kind has a handler under that very name,
    which is then called without arguments. *)
Theorem one_segment_custom_id
    (sdk : Sdk) (client : Client) (i : Interaction) (f : Flags) (lookup : Lookup)
    (c : string) :
  lookup_of_kind (kind i) = Some lookup ->
  split (customId i) = [c] ->
  (forall index,
      JsMap.get c (commands client) = Some (IsSubcommandIndexData index) ->
      useDefaultInteractionHandler sdk client i f = ([], f, Ok tt))
  /\ (forall command,
      JsMap.get c (commands client) = Some (IsCommandData command) ->
      useDefaultInteractionHandler sdk client i f =
      match table lookup (cd_top command) ≫= obj_get (Some "undefined") with
      | Some h => logged (call (ComponentOf c None None lookup "undefined") h i []) f
      | None => ([], f, Ok tt)
      end).
Proof.
  intros Hk Hsplit.
  assert (Hc : useDefaultInteractionHandler sdk client i f = component client i lookup f).
  { unfold useDefaultInteractionHandler.
    destruct (kind i); simpl in Hk; try discriminate; now inversion Hk. }
  rewrite Hc. unfold component. rewrite Hsplit. simpl. split.
  - intros index ->. destruct (id_subcommandGroups index), (id_subcommands index);
      reflexivity.
  - intros command ->. simpl.
    destruct (table lookup (cd_top command)) as [t|]; [|reflexivity]. simpl.
    unfold obj_prop. simpl. now destruct (t !! "undefined").
Qed.

Lemma one_segment_custom_id_witness :
  let client :=
    loadCommand Fixtures.sdk
      {| cd_data := Fixtures.builder "poll"; cd_permissions := None;
         cd_top := Fixtures.with_buttons Fixtures.succeeds ["vote"] |} new_Client in
  useDefaultInteractionHandler Fixtures.sdk client
    (Fixtures.interaction Button EmptyString "poll") Fixtures.fresh
  = ([], Fixtures.fresh, Ok tt).
Proof.
  intros client.
  destruct (one_segment_custom_id Fixtures.sdk client
              (Fixtures.interaction Button EmptyString "poll") Fixtures.fresh
              buttons "poll" eq_refl eq_refl) as [_ H].
  rewrite (H {| cd_data := Fixtures.builder "poll"; cd_permissions := None;
                cd_top := Fixtures.with_buttons Fixtures.succeeds ["vote"] |} eq_refl).
  reflexivity.
Defined.

(** X10. An interaction that names nothing registered executes nothing and
    throws nothing: an unknown chat-input command and an unknown context
    menu are answered with an ephemeral reply that names them (a direct
    reply, whatever the flags of the interaction), and an unknown
    autocomplete or component interaction gets no event at all. *)
Theorem unregistered_names_execute_nothing
    (sdk : Sdk) (client : Client) (i : Interaction) (f : Flags) :
  JsMap.get (commandName i) (commands client) = None ->
  JsMap.get (commandName i) (cm_User (contextMenus client)) = None ->
  JsMap.get (commandName i) (cm_Message (contextMenus client)) = None ->
  JsMap.get (first_segment (customId i)) (commands client) = None ->
  JsMap.get (first_segment (customId i)) (modals client) = None ->
  useDefaultInteractionHandler sdk client i f =
  (match kind i with
   | ChatInputCommand =>
       [Reply ("Could not find command **" +:+ commandName i +:+ "**!") true]
   | UserContextMenuCommand | MessageContextMenuCommand =>
       [Reply ("Could not find context menu **" +:+ commandName i +:+ "**!") true]
   | _ => []
   end, f, Ok tt).
Proof.
  intros Hc Hu Hm Hsc Hsm.
  unfold useDefaultInteractionHandler, chat_input, context_menu, autocomplete_, component.
  rewrite split_head. simpl. rewrite Hc, Hsc, Hsm.
  destruct (kind i); simpl; rewrite ?Hu, ?Hm; reflexivity.
Qed.

Lemma unregistered_names_execute_nothing_witness :
  useDefaultInteractionHandler Fixtures.sdk Fixtures.ping_client
    (Fixtures.interaction UserContextMenuCommand "Report" "x-y")
    {| deferred := true; replied := false |}
  = ([Reply "Could not find context menu **Report**!" true],
     {| deferred := true; replied := false |}, Ok tt).
Proof.
  apply (unregistered_names_execute_nothing Fixtures.sdk Fixtures.ping_client
           (Fixtures.interaction UserContextMenuCommand "Report" "x-y"));
    reflexivity.
Defined.

(* ===================================================================== *)
(** ** Custom ids                                                         *)
(* ===================================================================== *)

Lemma split_cons_inv id : exists x r, split id = x :: r.
Proof.
  destruct id as [|c s]; simpl; [eauto|].
  destruct (Ascii.eqb c "-"); [eauto|]. destruct (split s); eauto.
Qed.

Lemma join_cons sep x y r : join sep (x :: y :: r) = x +:+ sep +:+ join sep (y :: r).
Proof. reflexivity. Qed.

Lemma join_split id : join "-" (split id) = id.
Proof.
  induction id as [|c s IH]; [reflexivity|]. simpl.
  destruct (split_cons_inv s) as (x & r & Hs). rewrite Hs in *.
  destruct (Ascii.eqb c "-") eqn:E.
  - apply Ascii.eqb_eq in E. subst c. rewrite join_cons, IH. reflexivity.
  - destruct r as [|y r].
    + simpl in *. now rewrite IH.
    + rewrite join_cons in IH |- *. rewrite <- IH. reflexivity.
Qed.

Lemma split_hyphen_free id : Forall (fun x => hyphen_free x = true) (split id).
Proof.
  induction id as [|c s IH]; simpl; [now repeat constructor|].
  destruct (Ascii.eqb c "-") eqn:E; [now constructor|].
  destruct (split_cons_inv s) as (x & r & Hs). rewrite Hs in *.
  inversion IH as [|? ? Hx Hr]; subst. constructor; [|assumption].
  simpl. now rewrite E, Hx.
Qed.

Lemma split_append_hyphen x s :
  hyphen_free x = true -> split (x +:+ String "-" s) = x :: split s.
Proof.
  induction x as [|c x IH]; intros H; simpl in *; [reflexivity|].
  apply andb_prop in H. destruct H as [Hc Hx].
  apply negb_true_iff in Hc. rewrite Hc, (IH Hx). reflexivity.
Qed.

Lemma split_hyphen_free_word x : hyphen_free x = true -> split x = [x].
Proof.
  induction x as [|c x IH]; intros H; simpl in *; [reflexivity|].
  apply andb_prop in H. destruct H as [Hc Hx].
  apply negb_true_iff in Hc. rewrite Hc, (IH Hx). reflexivity.
Qed.

(** X11. Splitting a custom id and joining its segments with the delimiter
    are inverse to each other: the split never gives an empty list, its
    segments hold no hyphen and joined again they give the id back; and a
    non-empty list of hyphen-free segments, joined, splits into itself (so
    the segments a handler receives are the ones the id was built from). *)
Theorem custom_id_round_trip :
  (forall id, split id <> []
              /\ Forall (fun x => hyphen_free x = true) (split id)
              /\ join "-" (split id) = id)
  /\ (forall segments,
        segments <> [] ->
        Forall (fun x => hyphen_free x = true) segments ->
        split (join "-" segments) = segments).
Proof.
  split.
  - intros id. split; [|split].
    + destruct (split_cons_inv id) as (x & r & ->). discriminate.
    + apply split_hyphen_free.
    + apply join_split.
  - intros segments Hne Hall. induction Hall as [|x r Hx Hr IH]; [contradiction|].
    destruct r as [|y r].
    + simpl. now apply split_hyphen_free_word.
    + rewrite join_cons. change ("-" +:+ join "-" (y :: r)) with (String "-" (join "-" (y :: r))).
      rewrite split_append_hyphen by assumption. f_equal. apply IH. discriminate.
Qed.

Lemma custom_id_round_trip_witness :
  split (join "-" ["cmdA"; "sub1"; "btn1"; ""; "42"]) = ["cmdA"; "sub1"; "btn1"; ""; "42"].
Proof.
  destruct custom_id_round_trip as [_ H]. apply H; [discriminate|].
  repeat constructor.
Defined.

(* ===================================================================== *)
(** ** Login, the remaining behaviour                                     *)
(* ===================================================================== *)

(** [login] past its checks, as one expression. *)
Lemma login_configured sdk env client token u :
  configured sdk env token u ->
  login sdk env client token =
  let client' := with_user client u in
  let checking :=
    (if development env && negb (truthy (TEST_GUILD_ID env))
     then [Logger warn ("No guild ID was provided for the test environment!"
                          +:+ newline
                          +:+ "Commands will be registered globally in 5 seconds.");
           SleepAsync 5000]
     else [])
    ++ [Logger debug "Checking if interactions need to be registered..."] in
  let route :=
    if development env && truthy (TEST_GUILD_ID env)
    then applicationGuildCommands (key_name (nullish (CLIENT_ID env) u))
           (key_name (TEST_GUILD_ID env))
    else applicationCommands (key_name (nullish (CLIENT_ID env) u)) in
  if String.eqb (store_get reserved_key EmptyString client) (parsedString client)
  then (client', checking ++ [Logger log "Interactions are currently up to date!"],
        Returns (key_name (nullish token (DISCORD_TOKEN env))))
  else
    match rest_put sdk route (all_of client) with
    | None =>
        (store_set reserved_key (parsedString client) client',
         checking ++ [Logger info "Registering interactions...";
                      RestPut route (all_of client);
                      StoreSet reserved_key (parsedString client);
                      Logger success "Interactions have been registered!"],
         Returns (key_name (nullish token (DISCORD_TOKEN env))))
    | Some e =>
        (client',
         checking ++ [Logger info "Registering interactions...";
                      RestPut route (all_of client);
                      Logger error e],
         ProcessExit 1)
    end.
Proof.
  intros (Hu & Ht & Hc). unfold login. rewrite Hu.
  cbn [user with_user]. rewrite Ht, Hc. cbn [negb orb].
  assert (Hne : negb (String.eqb (canonical (all_of (with_user client u))) EmptyString)
                = true).
  { apply negb_true_iff, String.eqb_neq, canonical_nonempty. }
  rewrite Hne, andb_true_r. reflexivity.
Qed.

Lemma login_unconfigured sdk env client token :
  (forall u, ~ configured sdk env token u) ->
  puts (login_trace (login sdk env client token)) = 0
  /\ Forall (fun ev => is_sleep ev = false) (login_trace (login sdk env client token))
  /\ (forall t, login_end (login sdk env client token) <> Returns t)
  /\ store (login_client (login sdk env client token)) = store client.
Proof.
  intros Hno. unfold login.
  destruct (super_login sdk _) as [e|u] eqn:Hu.
  - repeat split; try constructor. discriminate.
  - cbn [user with_user].
    destruct (truthy (nullish token (DISCORD_TOKEN env))) eqn:Ht;
      destruct (truthy (nullish (CLIENT_ID env) u)) eqn:Hc;
      try (exfalso; apply (Hno u); now repeat split);
      cbn [negb orb]; repeat split; try (repeat constructor); discriminate.
Qed.

Lemma configured_or_not sdk env token :
  (exists u, configured sdk env token u) \/ (forall u, ~ configured sdk env token u).
Proof.
  unfold configured.
  destruct (super_login sdk (nullish token (DISCORD_TOKEN env))) as [e|u] eqn:Hu.
  - right. intros u (H & _). discriminate.
  - destruct (truthy (nullish token (DISCORD_TOKEN env))) eqn:Ht.
    + destruct (truthy (nullish (CLIENT_ID env) u)) eqn:Hc.
      * left. now exists u.
      * right. intros u' (H & _ & Hc'). injection H as <-. congruence.
    + right. intros u' (_ & H & _). discriminate.
Qed.

Lemma in_checking (c : bool) (w : string) (ev : LoginEvent) :
  In ev ((if c then [Logger warn w; SleepAsync 5000] else [])
         ++ [Logger debug "Checking if interactions need to be registered..."]) ->
  is_put ev = false.
Proof.
  intros H. apply in_app_or in H. destruct H as [H|H].
  - destruct c; simpl in H; intuition (subst; reflexivity).
  - simpl in H. intuition (subst; reflexivity).
Qed.

(** X12. Whenever [login] calls the REST transport, the body is the whole
    exported list (commands, then user menus, then message menus), and the
    route is guild-scoped exactly in development mode with a test guild id
    set, application-global otherwise; the client id of the route is the
    one of the environment when it is set, even if the logged-in user has
    another, and the user's id otherwise. *)
Theorem registration_route_and_body
    (sdk : Sdk) (env : Env) (client : Client) (token : option string)
    (route : Route) (body : list json) :
  In (RestPut route body) (login_trace (login sdk env client token)) ->
  body = all_of client
  /\ exists u cid,
      configured sdk env token u
      /\ nullish (CLIENT_ID env) u = Some cid
      /\ (forall c, CLIENT_ID env = Some c -> cid = c)
      /\ (CLIENT_ID env = None -> u = Some cid)
      /\ (forall g, NODE_ENV env = Some "development" -> TEST_GUILD_ID env = Some g ->
            g <> EmptyString -> route = applicationGuildCommands cid g)
      /\ (NODE_ENV env <> Some "development" \/ truthy (TEST_GUILD_ID env) = false ->
            route = applicationCommands cid).
Proof.
  intros Hin.
  destruct (configured_or_not sdk env token) as [[u Hcfg]|Hno].
  2:{ destruct (login_unconfigured sdk env client token Hno) as (Hp & _).
      exfalso. unfold puts in Hp.
      assert (Hf : In (RestPut route body)
                     (List.filter is_put (login_trace (login sdk env client token)))).
      { apply List.filter_In. now split. }
      destruct (List.filter is_put _); [contradiction|discriminate]. }
  rewrite (login_configured _ _ _ _ _ Hcfg) in Hin. cbv zeta in Hin.
  assert (Hput : body = all_of client
                 /\ route =
                    if development env && truthy (TEST_GUILD_ID env)
                    then applicationGuildCommands (key_name (nullish (CLIENT_ID env) u))
                           (key_name (TEST_GUILD_ID env))
                    else applicationCommands (key_name (nullish (CLIENT_ID env) u))).
  { destruct (String.eqb _ _) in Hin.
    - unfold login_trace in Hin. cbn [fst snd] in Hin.
      apply in_app_or in Hin. destruct Hin as [Hin|Hin].
      + apply in_checking in Hin. discriminate.
      + simpl in Hin. intuition discriminate.
    - destruct (rest_put sdk _ _) in Hin; unfold login_trace in Hin;
        cbn [fst snd] in Hin; apply in_app_or in Hin; destruct Hin as [Hin|Hin];
        try (apply in_checking in Hin; discriminate);
        simpl in Hin; destruct Hin as [Hin|[Hin|Hin]]; try discriminate;
        try (injection Hin as <- <-; now split);
        intuition discriminate. }
  destruct Hput as [-> ->]. split; [reflexivity|]. clear Hin.
  pose proof Hcfg as (Hu & Ht & Hc).
  destruct (nullish (CLIENT_ID env) u) as [cid|] eqn:Hcid; [|discriminate].
  exists u, cid. split; [exact Hcfg|].
  split; [exact Hcid|]. cbn [key_name]. split; [|split; [|split]].
  - intros c Hc'. rewrite Hc' in Hcid. simpl in Hcid. congruence.
  - intros Hnone. rewrite Hnone in Hcid. exact Hcid.
  - intros g Hdev Hg Hgne. unfold development. rewrite Hdev, Hg. simpl.
    apply String.eqb_neq in Hgne. now rewrite Hgne.
  - intros [Hdev|Hg].
    + assert (development env = false) as ->; [|reflexivity].
      unfold development. destruct (NODE_ENV env) as [v|]; [|reflexivity].
      apply String.eqb_neq. congruence.
    + rewrite Hg, andb_false_r. reflexivity.
Qed.

Lemma registration_route_and_body_witness :
  let env := {| DISCORD_TOKEN := Some "token"; NODE_ENV := Some "development";
                CLIENT_ID := Some "1111"; TEST_GUILD_ID := Some "9999" |} in
  In (RestPut (applicationGuildCommands "1111" "9999") (all_of Fixtures.ping_client))
     (login_trace (login Fixtures.sdk env Fixtures.ping_client None))
  /\ forall route body,
      In (RestPut route body)
        (login_trace (login Fixtures.sdk env Fixtures.ping_client None)) ->
      route = applicationGuildCommands "1111" "9999".
Proof.
  intros env. split; [do 2 right; left; reflexivity|].
  intros route body Hin.
  destruct (registration_route_and_body Fixtures.sdk env Fixtures.ping_client None
              route body Hin) as (_ & u & cid & _ & _ & Hc & _ & Hg & _).
  rewrite (Hc "1111" eq_refl) in Hg. apply Hg; [reflexivity|reflexivity|discriminate].
Defined.

(** X13. [login] changes nothing of the client but the logged-in user and
    the value stored under the reserved key: the three registries are as
    they were, and so is every other key of the store. *)
Theorem login_touches_only_the_reserved_key
    (sdk : Sdk) (env : Env) (client : Client) (token : option string) (k : string) :
  k <> reserved_key ->
  store (login_client (login sdk env client token)) !! k = store client !! k
  /\ commands (login_client (login sdk env client token)) = commands client
  /\ modals (login_client (login sdk env client token)) = modals client
  /\ contextMenus (login_client (login sdk env client token)) = contextMenus client.
Proof.
  intros Hk. login_paths; unfold login_client;
    cbn [fst snd store_set store with_user commands modals contextMenus];
    repeat split.
  apply lookup_insert_ne. congruence.
Qed.

Lemma login_touches_only_the_reserved_key_witness :
  let client := store_set "prefix" "!" Fixtures.ping_client in
  store (login_client (login Fixtures.sdk Fixtures.no_env client (Some "token")))
    !! "prefix" = Some "!".
Proof.
  intros client.
  destruct (login_touches_only_the_reserved_key Fixtures.sdk Fixtures.no_env client
              (Some "token") "prefix") as [H _]; [discriminate|].
  rewrite H. reflexivity.
Defined.

(** X14. The token [login] resolves with is the one it was called with,
    and the one of the environment only when it was called with none; it
    is never empty. *)
Theorem login_returns_the_resolved_token
    (sdk : Sdk) (env : Env) (client : Client) (token : option string) (t : string) :
  login_end (login sdk env client token) = Returns t ->
  t <> EmptyString
  /\ (forall a, token = Some a -> t = a)
  /\ (token = None -> DISCORD_TOKEN env = Some t).
Proof.
  intros Hend.
  destruct (configured_or_not sdk env token) as [[u Hcfg]|Hno].
  2:{ destruct (login_unconfigured sdk env client token Hno) as (_ & _ & H & _).
      now elim (H t). }
  assert (Ht : nullish token (DISCORD_TOKEN env) = Some t).
  { rewrite (login_configured _ _ _ _ _ Hcfg) in Hend. cbv zeta in Hend.
    destruct Hcfg as (_ & Htok & _).
    destruct (nullish token (DISCORD_TOKEN env)) as [t'|]; [|discriminate].
    destruct (String.eqb _ _) in Hend; [|destruct (rest_put sdk _ _) in Hend];
      unfold login_end in Hend; cbn [snd key_name] in Hend; congruence. }
  destruct Hcfg as (_ & Htok & _). rewrite Ht in Htok.
  split; [|split].
  - intros ->. discriminate.
  - intros a ->. simpl in Ht. congruence.
  - intros ->. exact Ht.
Qed.

Lemma login_returns_the_resolved_token_witness :
  let env := {| DISCORD_TOKEN := Some "from-env"; NODE_ENV := None;
                CLIENT_ID := None; TEST_GUILD_ID := None |} in
  login_end (login Fixtures.sdk env Fixtures.ping_client (Some "from-argument"))
  = Returns "from-argument".
Proof.
  intros env.
  destruct (login_end (login Fixtures.sdk env Fixtures.ping_client (Some "from-argument")))
    as [t| |] eqn:E; try (vm_compute in E; discriminate).
  destruct (login_returns_the_resolved_token Fixtures.sdk env Fixtures.ping_client
              (Some "from-argument") t E) as (_ & H & _).
  now rewrite (H "from-argument" eq_refl).
Defined.

(** X15. When the configuration is complete and the stored signature
    differs from the computed one, [login] calls the REST transport exactly
    once, on the route of the environment with the whole exported list.
    If that call succeeds the computed signature is stored and the token is
    returned; if it throws, the value is logged, the process exits with
    code 1 and the store is as it was. *)
Theorem changed_signature_registers_once
    (sdk : Sdk) (env : Env) (client : Client) (token : option string)
    (u : option string) :
  configured sdk env token u ->
  store_get reserved_key EmptyString client <> parsedString client ->
  let r := login sdk env client token in
  let route :=
    if development env && truthy (TEST_GUILD_ID env)
    then applicationGuildCommands (key_name (nullish (CLIENT_ID env) u))
           (key_name (TEST_GUILD_ID env))
    else applicationCommands (key_name (nullish (CLIENT_ID env) u)) in
  puts (login_trace r) = 1
  /\ In (RestPut route (all_of client)) (login_trace r)
  /\ (rest_put sdk route (all_of client) = None ->
      login_end r = Returns (key_name (nullish token (DISCORD_TOKEN env)))
      /\ store_get reserved_key EmptyString (login_client r) = parsedString client
      /\ In (StoreSet reserved_key (parsedString client)) (login_trace r))
  /\ (forall e, rest_put sdk route (all_of client) = Some e ->
      login_end r = ProcessExit 1
      /\ store (login_client r) = store client
      /\ In (Logger error e) (login_trace r)
      /\ ~ In (StoreSet reserved_key (parsedString client)) (login_trace r)).
Proof.
  intros Hcfg Hdiff r route. subst r.
  rewrite (login_configured _ _ _ _ _ Hcfg). cbv zeta.
  apply String.eqb_neq in Hdiff. rewrite Hdiff. fold route.
  destruct (rest_put sdk route (all_of client)) as [e|] eqn:Hput;
    unfold login_trace, login_end, login_client; cbn [fst snd];
    (split; [rewrite <- app_assoc, puts_checking by apply puts_waited; reflexivity|]);
    (split; [apply in_or_app; right; simpl; tauto|]).
  - split; [discriminate|]. intros e' [= <-]. split; [reflexivity|].
    split; [reflexivity|]. split; [apply in_or_app; right; simpl; tauto|].
    intros Hin. apply in_app_or in Hin. destruct Hin as [Hin|Hin].
    + apply in_app_or in Hin. destruct Hin as [Hin|[Hin|[]]]; [|discriminate].
      destruct (development env && negb (truthy (TEST_GUILD_ID env)));
        [destruct Hin as [Hin|[Hin|[]]]; discriminate|destruct Hin].
    + destruct Hin as [Hin|[Hin|[Hin|[]]]]; discriminate.
  - split; [|discriminate]. intros _. split; [reflexivity|].
    split; [apply store_get_set|]. apply in_or_app. right. simpl. tauto.
Qed.

Lemma changed_signature_registers_once_witness :
  let online := login Fixtures.sdk Fixtures.no_env Fixtures.ping_client (Some "token") in
  let offline :=
    login Fixtures.sdk_offline Fixtures.no_env Fixtures.ping_client (Some "token") in
  (login_end online = Returns "token"
   /\ store_get reserved_key EmptyString (login_client online)
      = parsedString Fixtures.ping_client)
  /\ (login_end offline = ProcessExit 1
      /\ store (login_client offline) = store Fixtures.ping_client
      /\ In (Logger error "ECONNREFUSED") (login_trace offline)).
Proof.
  intros online offline.
  assert (Hdiff : store_get reserved_key EmptyString Fixtures.ping_client
                  <> parsedString Fixtures.ping_client).
  { vm_compute. discriminate. }
  split.
  - destruct (changed_signature_registers_once Fixtures.sdk Fixtures.no_env
                Fixtures.ping_client (Some "token") (Some "4242")
                (conj eq_refl (conj eq_refl eq_refl)) Hdiff) as (_ & _ & H & _).
    destruct (H eq_refl) as (H1 & H2 & _). split; [exact H1|exact H2].
  - destruct (changed_signature_registers_once Fixtures.sdk_offline Fixtures.no_env
                Fixtures.ping_client (Some "token") (Some "4242")
                (conj eq_refl (conj eq_refl eq_refl)) Hdiff) as (_ & _ & _ & H).
    destruct (H "ECONNREFUSED" eq_refl) as (H1 & H2 & H3 & _).
    split; [exact H1|]. split; [exact H2|exact H3].
Defined.

Lemma filter_sleep_checking (c : bool) (w : string) (r : list LoginEvent) :
  List.filter is_sleep r = [] ->
  List.filter is_sleep
    (((if c then [Logger warn w; SleepAsync 5000] else [])
      ++ [Logger debug "Checking if interactions need to be registered..."]) ++ r)
  = if c then [SleepAsync 5000] else [].
Proof.
  intros Hr. rewrite !List.filter_app, Hr. now destruct c.
Qed.

Lemma in_filter_sleep (tr : list LoginEvent) (c : bool) :
  List.filter is_sleep tr = (if c then [SleepAsync 5000] else []) ->
  (In (SleepAsync 5000) tr <-> c = true).
Proof.
  intros H. split.
  - intros Hin.
    assert (Hf : In (SleepAsync 5000) (List.filter is_sleep tr)).
    { apply List.filter_In. now split. }
    rewrite H in Hf. destruct c; [reflexivity|contradiction].
  - intros ->.
    assert (Hf : In (SleepAsync 5000) (List.filter is_sleep tr)).
    { rewrite H. now left. }
    apply List.filter_In in Hf. tauto.
Qed.

(** X16. [login] waits five seconds (after a warning) exactly when the
    configuration is complete, the environment is in development mode and
    no test guild id is set; and it waits at most once. *)
Theorem login_waits_only_in_development_without_guild
    (sdk : Sdk) (env : Env) (client : Client) (token : option string) :
  (In (SleepAsync 5000) (login_trace (login sdk env client token)) <->
   (exists u, configured sdk env token u)
   /\ NODE_ENV env = Some "development"
   /\ truthy (TEST_GUILD_ID env) = false)
  /\ List.length (List.filter is_sleep (login_trace (login sdk env client token))) <= 1.
Proof.
  assert (Hdev : development env = true <-> NODE_ENV env = Some "development").
  { unfold development. destruct (NODE_ENV env) as [v|]; [|split; discriminate].
    rewrite String.eqb_eq. split; congruence. }
  destruct (configured_or_not sdk env token) as [[u Hcfg]|Hno].
  - assert (Hf : List.filter is_sleep (login_trace (login sdk env client token)) =
                 if development env && negb (truthy (TEST_GUILD_ID env))
                 then [SleepAsync 5000] else []).
    { rewrite (login_configured _ _ _ _ _ Hcfg). cbv zeta.
      destruct (String.eqb _ _); [|destruct (rest_put sdk _ _)];
        unfold login_trace; cbn [fst snd]; now apply filter_sleep_checking. }
    split.
    + rewrite (in_filter_sleep _ _ Hf), andb_true_iff, negb_true_iff, Hdev.
      split; [intros [H1 H2]; eauto|tauto].
    + rewrite Hf. destruct (_ && _); simpl; lia.
  - destruct (login_unconfigured sdk env client token Hno) as (_ & Hs & _).
    assert (Hnil : List.filter is_sleep (login_trace (login sdk env client token)) = []).
    { induction Hs as [|ev tr Hev _ IH]; [reflexivity|]. simpl. now rewrite Hev. }
    split; [|rewrite Hnil; simpl; lia]. split.
    + intros Hin. exfalso. rewrite List.Forall_forall in Hs.
      specialize (Hs _ Hin). discriminate.
    + intros ([u Hu] & _). now elim (Hno u).
Qed.

(* ===================================================================== *)
(** ** Loaders, the remaining behaviour                                   *)
(* ===================================================================== *)

Section JsMapOrder.

Context {V : Type}.
Implicit Types (m : JsMap.t V) (k : string) (v : V).




End JsMapOrder.







(* ===================================================================== *)
(** ** The signature in closed form                                       *)
(* ===================================================================== *)

Lemma append_cons (x : ascii) (a b : string) : String x a +:+ b = String x (a +:+ b).
Proof. reflexivity. Qed.

Lemma append_nil_l (b : string) : EmptyString +:+ b = b.
Proof. reflexivity. Qed.

Lemma append_assoc (a b c : string) : (a +:+ b) +:+ c = a +:+ (b +:+ c).
Proof.
  induction a as [|x a IH]; [reflexivity|]. rewrite !append_cons. now rewrite IH.
Qed.

Lemma append_nil_r (a : string) : a +:+ EmptyString = a.
Proof. induction a as [|x a IH]; [reflexivity|]. rewrite append_cons. now rewrite IH. Qed.

Lemma all_chars_app P a b : all_chars P (a +:+ b) = all_chars P a && all_chars P b.
Proof.
  induction a as [|x a IH]; [reflexivity|]. rewrite append_cons. simpl.
  now rewrite IH, andb_assoc.
Qed.

Lemma until_quote_app p r :
  no_quote p = true -> until_quote (p +:+ String dquote r) = Some (p, r).
Proof.
  induction p as [|c p IH]; intros H.
  - reflexivity.
  - rewrite append_cons. simpl in *.
    apply andb_prop in H. destruct H as [Hc Hp]. apply negb_true_iff in Hc.
    rewrite Hc. unfold no_quote in IH. now rewrite (IH Hp).
Qed.

Lemma until_quote_plain p r :
  no_quote p = true ->
  until_quote (p +:+ r) =
  match until_quote r with
  | Some (k, rest) => Some (p +:+ k, rest)
  | None => None
  end.
Proof.
  induction p as [|c p IH]; intros H.
  - rewrite append_nil_l. now destruct (until_quote r) as [[k rest]|].
  - rewrite append_cons. simpl in *.
    apply andb_prop in H. destruct H as [Hc Hp]. apply negb_true_iff in Hc.
    rewrite Hc. unfold no_quote in IH. rewrite (IH Hp).
    now destruct (until_quote r) as [[k rest]|].
Qed.

Lemma replace_keys_copy c s :
  Ascii.eqb c dquote = false -> replace_keys (String c s) = String c (replace_keys s).
Proof. intros H. rewrite replace_keys_unfold. simpl. now rewrite H. Qed.

(** Text without quotes is copied. *)
Lemma replace_keys_plain p r :
  no_quote p = true -> replace_keys (p +:+ r) = p +:+ replace_keys r.
Proof.
  induction p as [|c p IH]; intros H; [reflexivity|].
  rewrite !append_cons. simpl in H.
  apply andb_prop in H. destruct H as [Hc Hp]. apply negb_true_iff in Hc.
  rewrite replace_keys_copy by assumption. unfold no_quote in IH. now rewrite (IH Hp).
Qed.

(** A quote that opens no match is copied. *)
Lemma replace_keys_quote r :
  first_quote_ok r = true ->
  replace_keys (String dquote r) = String dquote (replace_keys r).
Proof.
  intros H. rewrite replace_keys_unfold.
  assert (E : match_key (String dquote r) = None).
  { unfold match_key. rewrite Ascii.eqb_refl. unfold first_quote_ok in H.
    destruct (until_quote r) as [[k rest]|]; [|reflexivity].
    destruct k; [reflexivity|]. destruct rest as [|c2 rest]; [reflexivity|].
    simpl in H. apply negb_true_iff in H. now rewrite H. }
  now rewrite E.
Qed.

(** A key between quotes, followed by a colon, loses its quotes. *)
Lemma replace_keys_key k r :
  no_quote k = true -> k <> EmptyString ->
  replace_keys (String dquote (k +:+ String dquote (String ":" r)))
  = k +:+ ":" +:+ replace_keys r.
Proof.
  intros Hk Hne. rewrite replace_keys_unfold. unfold match_key.
  rewrite Ascii.eqb_refl, until_quote_app by assumption.
  destruct k; [contradiction|]. reflexivity.
Qed.

(** A string value between quotes is copied when the text after it is one
    the scan may resume in. *)
Lemma replace_keys_value v r :
  no_quote v = true -> ok_cont r = true ->
  replace_keys (String dquote (v +:+ String dquote r))
  = String dquote (v +:+ String dquote (replace_keys r)).
Proof.
  intros Hv Hr. apply andb_prop in Hr. destruct Hr as [Hcolon Hfirst].
  rewrite replace_keys_quote.
  - rewrite replace_keys_plain by assumption. now rewrite replace_keys_quote.
  - unfold first_quote_ok. now rewrite until_quote_app.
Qed.

Lemma all_chars_impl (P Q : ascii -> bool) s :
  (forall c, P c = true -> Q c = true) -> all_chars P s = true -> all_chars Q s = true.
Proof.
  intros H. induction s as [|c s IH]; simpl; [reflexivity|].
  intros Hs. apply andb_prop in Hs. destruct Hs as [Hc Hs]. now rewrite (H c Hc), IH.
Qed.

Lemma starts_with_colon_app t r :
  t <> EmptyString -> starts_with_colon (t +:+ r) = starts_with_colon t.
Proof. destruct t; [contradiction|reflexivity]. Qed.

Lemma head_ok_inv t : head_ok t = true -> starts_with_colon t = false /\ t <> EmptyString.
Proof.
  unfold head_ok. intros H. apply andb_prop in H. destruct H as [H1 H2].
  apply negb_true_iff in H1, H2. apply String.eqb_neq in H2. now split.
Qed.

Lemma head_ok_app t r : head_ok t = true -> head_ok (t +:+ r) = true.
Proof.
  intros H. apply head_ok_inv in H. destruct H as [H1 H2].
  destruct t as [|c t]; [contradiction|]. unfold head_ok. rewrite append_cons.
  simpl in *. now rewrite H1.
Qed.

Lemma ok_cont_app t r :
  head_ok t = true -> keeps_first_quote t -> first_quote_ok r = true ->
  ok_cont (t +:+ r) = true.
Proof.
  intros Hh Hk Hr. apply head_ok_inv in Hh. destruct Hh as [H1 H2].
  unfold ok_cont. rewrite starts_with_colon_app, H1 by assumption. simpl. now apply Hk.
Qed.

Lemma ok_cont_first r : ok_cont r = true -> first_quote_ok r = true.
Proof. intros H. now apply andb_prop in H. Qed.

Lemma keeps_first_quote_plain p : no_quote p = true -> keeps_first_quote p.
Proof.
  intros Hp r Hr. unfold first_quote_ok in *. rewrite until_quote_plain by assumption.
  now destruct (until_quote r) as [[k rest]|].
Qed.

Lemma keeps_first_quote_app t1 t2 :
  keeps_first_quote t1 -> keeps_first_quote t2 -> keeps_first_quote (t1 +:+ t2).
Proof. intros H1 H2 r Hr. rewrite append_assoc. apply H1, H2, Hr. Qed.

Lemma scans_to_plain p : no_quote p = true -> scans_to p p.
Proof. intros Hp r _. now apply replace_keys_plain. Qed.

(** A piece followed by a piece that opens well. *)
Lemma scans_to_app t1 u1 t2 u2 :
  scans_to t1 u1 -> scans_to t2 u2 -> head_ok t2 = true -> keeps_first_quote t2 ->
  scans_to (t1 +:+ t2) (u1 +:+ u2).
Proof.
  intros H1 H2 Hh Hk r Hr. rewrite !append_assoc.
  rewrite H1 by (apply ok_cont_app; auto using ok_cont_first).
  now rewrite H2.
Qed.

(** Plain text before a piece needs nothing of the piece. *)
Lemma scans_to_plain_app p t u :
  no_quote p = true -> scans_to t u -> scans_to (p +:+ t) (p +:+ u).
Proof.
  intros Hp H r Hr. rewrite !append_assoc, replace_keys_plain by assumption.
  now rewrite H.
Qed.

Lemma scans_to_value v :
  no_quote v = true -> scans_to (String dquote (v +:+ String dquote EmptyString))
                         (String dquote (v +:+ String dquote EmptyString)).
Proof.
  intros Hv r Hr. rewrite !append_cons, !append_assoc, !append_cons, !append_nil_l.
  now apply replace_keys_value.
Qed.

Lemma scans_to_member k t u :
  no_quote k = true -> k <> EmptyString -> scans_to t u ->
  scans_to (String dquote (k +:+ String dquote EmptyString) +:+ ": " +:+ t)
           (k +:+ ": " +:+ u).
Proof.
  intros Hk Hne H r Hr.
  rewrite !append_cons, !append_assoc, !append_cons, !append_nil_l.
  rewrite replace_keys_key by assumption.
  rewrite replace_keys_copy by reflexivity.
  rewrite H by assumption. reflexivity.
Qed.

(** Pieces joined by a plain separator that does not begin with a colon. *)
Lemma scans_to_join sep (ts us : list string) :
  no_quote sep = true -> head_ok sep = true ->
  Forall2 scans_to ts us ->
  Forall (fun t => head_ok t = true /\ keeps_first_quote t) ts ->
  scans_to (join sep ts) (join sep us)
  /\ keeps_first_quote (join sep ts)
  /\ (ts <> [] -> head_ok (join sep ts) = true).
Proof.
  intros Hsep Hhead H2 Hall. induction H2 as [|t u ts us Htu H2 IH].
  - split; [|split].
    + intros r _. reflexivity.
    + intros r Hr. exact Hr.
    + intros H. contradiction.
  - inversion Hall as [|? ? [Hh Hk] Hall']; subst. specialize (IH Hall').
    destruct IH as (IHs & IHk & IHh).
    destruct H2 as [|t' u' ts us Htu' H2].
    + simpl. split; [exact Htu|]. split; [exact Hk|]. intros _. exact Hh.
    + rewrite !join_cons. split; [|split].
      * apply scans_to_app; [exact Htu| | |].
        -- apply scans_to_plain_app; assumption.
        -- apply head_ok_app; assumption.
        -- apply keeps_first_quote_app; [now apply keeps_first_quote_plain|exact IHk].
      * apply keeps_first_quote_app; [exact Hk|].
        apply keeps_first_quote_app; [now apply keeps_first_quote_plain|exact IHk].
      * intros _. now apply head_ok_app.
Qed.

Lemma escape_char_no_quote c :
  Ascii.eqb c dquote = false -> no_quote (escape_char c) = true.
Proof.
  destruct c as [[] [] [] [] [] [] [] []]; intros H; try reflexivity; discriminate.
Qed.

Lemma escape_char_head c :
  Ascii.eqb c ":" = false -> head_ok (escape_char c) = true.
Proof.
  destruct c as [[] [] [] [] [] [] [] []]; intros H; try reflexivity; discriminate.
Qed.

Lemma escape_no_quote s : no_quote s = true -> no_quote (escape s) = true.
Proof.
  induction s as [|c s IH]; [reflexivity|]. simpl. intros H.
  apply andb_prop in H. destruct H as [Hc Hs]. apply negb_true_iff in Hc.
  pose proof (escape_char_no_quote c Hc) as H1. specialize (IH Hs).
  unfold no_quote in *. now rewrite all_chars_app, H1, IH.
Qed.

Lemma escape_head s :
  s <> EmptyString -> starts_with_colon s = false -> head_ok (escape s) = true.
Proof.
  destruct s as [|c s]; [contradiction|]. simpl. intros _ H.
  apply head_ok_app. now apply escape_char_head.
Qed.

Lemma escape_nonempty s : s <> EmptyString -> escape s <> EmptyString.
Proof.
  destruct s as [|c s]; [contradiction|]. intros _. simpl.
  destruct c as [[] [] [] [] [] [] [] []]; discriminate.
Qed.

Lemma pretty_N_char_numeric x : is_numeric (pretty_N_char x) = true.
Proof. unfold pretty_N_char. repeat case_match; reflexivity. Qed.

Lemma pretty_N_go_numeric x :
  forall s, exists pre,
    pretty_N_go x s = pre +:+ s
    /\ all_chars is_numeric pre = true
    /\ ((0 < x)%N -> pre <> EmptyString).
Proof.
  induction (N.lt_wf_0 x) as [x _ IH]. intros s.
  destruct (N.eq_dec x 0) as [->|Hx].
  - exists EmptyString. rewrite pretty_N_go_0. repeat split. lia.
  - assert (Hpos : (0 < x)%N) by lia.
    rewrite pretty_N_go_step by assumption.
    destruct (IH (x `div` 10)%N (N.div_lt x 10 Hpos eq_refl)
                (String (pretty_N_char (x `mod` 10)) s)) as (pre & E & Hpre & _).
    exists (pre +:+ String (pretty_N_char (x `mod` 10)) EmptyString).
    rewrite E, append_assoc. split; [reflexivity|]. split.
    + rewrite all_chars_app, Hpre. simpl. now rewrite pretty_N_char_numeric.
    + intros _. destruct pre; discriminate.
Qed.

Lemma pretty_Z_numeric (z : Z) :
  all_chars is_numeric (pretty z) = true /\ pretty z <> EmptyString.
Proof.
  assert (HN : forall p, all_chars is_numeric (pretty (Npos p)) = true
                         /\ pretty (Npos p) <> EmptyString).
  { intros p. unfold pretty, pretty_N. case_decide; [discriminate|].
    destruct (pretty_N_go_numeric (Npos p) EmptyString) as (pre & E & Hpre & Hne).
    rewrite E, append_nil_r. split; [exact Hpre|]. apply Hne. lia. }
  destruct z as [|p|p].
  - split; [reflexivity|discriminate].
  - apply HN.
  - destruct (HN p) as [H1 H2]. split.
    + change (pretty (Z.neg p)) with ("-" +:+ pretty (Npos p)).
      rewrite all_chars_app, H1. reflexivity.
    + change (pretty (Z.neg p)) with ("-" +:+ pretty (Npos p)). discriminate.
Qed.

Lemma numeric_no_quote s : all_chars is_numeric s = true -> no_quote s = true.
Proof.
  apply all_chars_impl. intros c.
  destruct c as [[] [] [] [] [] [] [] []]; intros H; try reflexivity; discriminate.
Qed.

Lemma numeric_no_space s : all_chars is_numeric s = true -> no_space s = true.
Proof.
  apply all_chars_impl. intros c.
  destruct c as [[] [] [] [] [] [] [] []]; intros H; try reflexivity; discriminate.
Qed.

Lemma numeric_head s :
  all_chars is_numeric s = true -> s <> EmptyString -> head_ok s = true.
Proof.
  destruct s as [|c s]; [contradiction|]. simpl. intros H _.
  apply andb_prop in H. destruct H as [H _]. unfold head_ok. simpl.
  destruct c as [[] [] [] [] [] [] [] []]; try reflexivity; discriminate.
Qed.

Lemma json_nested_ind (P : json -> Prop) :
  P JNull -> (forall b, P (JBool b)) -> (forall z, P (JNum z)) -> (forall s, P (JStr s)) ->
  (forall l, Forall P l -> P (JArr l)) ->
  (forall l, Forall (fun kv => P (snd kv)) l -> P (JObj l)) ->
  forall j, P j.
Proof.
  intros Hnull Hbool Hnum Hstr Harr Hobj. fix IH 1.
  intros [|b|z|s|l|l].
  - exact Hnull.
  - apply Hbool.
  - apply Hnum.
  - apply Hstr.
  - apply Harr. induction l as [|x l IHl]; constructor; [apply IH|exact IHl].
  - apply Hobj. induction l as [|[k v] l IHl]; constructor; [apply IH|exact IHl].
Qed.

Lemma indent_no_quote d : no_quote (indent d) = true.
Proof. induction d as [|d IH]; [reflexivity|]. simpl. exact IH. Qed.

Lemma strip_app a b : strip_spaces (a +:+ b) = strip_spaces a +:+ strip_spaces b.
Proof.
  induction a as [|c a IH]; [reflexivity|]. rewrite append_cons. simpl.
  destruct (is_space c); [exact IH|]. rewrite append_cons. now rewrite IH.
Qed.

Lemma strip_indent d : strip_spaces (indent d) = EmptyString.
Proof. induction d as [|d IH]; [reflexivity|]. simpl. exact IH. Qed.

Lemma strip_no_space s : no_space s = true -> strip_spaces s = s.
Proof.
  induction s as [|c s IH]; [reflexivity|]. simpl. intros H.
  apply andb_prop in H. destruct H as [Hc Hs]. apply negb_true_iff in Hc.
  rewrite Hc. now rewrite IH.
Qed.

Lemma strip_join sep l :
  strip_spaces (join sep l) = join (strip_spaces sep) (map strip_spaces l).
Proof.
  induction l as [|x l IH]; [reflexivity|].
  destruct l as [|y l]; [reflexivity|].
  change (map strip_spaces (x :: y :: l))
    with (strip_spaces x :: strip_spaces y :: map strip_spaces l).
  rewrite !join_cons, !strip_app. now rewrite IH.
Qed.

Lemma quoted_app v r :
  String dquote (v +:+ String dquote EmptyString) +:+ r
  = String dquote (v +:+ String dquote r).
Proof. rewrite append_cons, append_assoc. reflexivity. Qed.

Lemma keeps_first_quote_quoted v :
  (v = EmptyString \/ head_ok v = true) ->
  forall r, first_quote_ok (String dquote (v +:+ String dquote r)) = true.
Proof.
  intros Hv r. unfold first_quote_ok. simpl.
  destruct Hv as [->|Hv]; [reflexivity|].
  apply head_ok_inv in Hv. destruct Hv as [H1 H2].
  now rewrite starts_with_colon_app, H1.
Qed.

Lemma plain_string_escape s :
  plain_string s = true ->
  no_quote (escape s) = true /\ (escape s = EmptyString \/ head_ok (escape s) = true).
Proof.
  intros H. apply andb_prop in H. destruct H as [Hq Hc]. apply negb_true_iff in Hc.
  split; [now apply escape_no_quote|].
  destruct s as [|c s]; [now left|]. right. now apply escape_head.
Qed.

Lemma scans_well_plain_text j t :
  (forall d, stringify d j = t) -> (forall d, unquoted d j = t) ->
  no_quote t = true -> head_ok t = true -> scans_well j.
Proof.
  intros Hs Hu Hq Hh d. rewrite Hs, Hu. split; [|split].
  - now apply scans_to_plain.
  - now apply keeps_first_quote_plain.
  - exact Hh.
Qed.

Lemma newline_indent_plain d :
  no_quote (newline +:+ indent d) = true /\ head_ok (newline +:+ indent d) = true.
Proof. split; [apply (indent_no_quote d)|reflexivity]. Qed.

Lemma separator_plain d :
  no_quote ("," +:+ newline +:+ indent d) = true
  /\ head_ok ("," +:+ newline +:+ indent d) = true.
Proof. split; [apply (indent_no_quote d)|reflexivity]. Qed.

(** A bracketed, joined sequence of pieces. *)
Lemma scans_to_bracketed (open_ close_ : ascii) d (ts us : list string) :
  Ascii.eqb open_ dquote = false -> Ascii.eqb open_ ":" = false ->
  Ascii.eqb close_ dquote = false ->
  ts <> [] ->
  Forall2 scans_to ts us ->
  Forall (fun t => head_ok t = true /\ keeps_first_quote t) ts ->
  let wrap body :=
    String open_ EmptyString +:+ newline +:+ indent (S d) +:+ body
      +:+ newline +:+ indent d +:+ String close_ EmptyString in
  scans_to (wrap (join ("," +:+ newline +:+ indent (S d)) ts))
           (wrap (join ("," +:+ newline +:+ indent (S d)) us))
  /\ keeps_first_quote (wrap (join ("," +:+ newline +:+ indent (S d)) ts))
  /\ head_ok (wrap (join ("," +:+ newline +:+ indent (S d)) ts)) = true.
Proof.
  intros Ho Hoc Hc Hne H2 Hall wrap.
  destruct (separator_plain (S d)) as [Hsq Hsh].
  destruct (scans_to_join _ ts us Hsq Hsh H2 Hall) as (Hj & Hk & Hh).
  assert (Hopen : no_quote (String open_ EmptyString) = true).
  { unfold no_quote. cbn [all_chars]. now rewrite Ho. }
  assert (Hclose : no_quote (newline +:+ indent d +:+ String close_ EmptyString) = true).
  { pose proof (indent_no_quote d) as Hi. unfold no_quote in *.
    rewrite !all_chars_app, Hi. cbn [all_chars]. now rewrite Hc. }
  assert (Hnl : no_quote newline = true) by reflexivity.
  subst wrap. cbv beta. split; [|split].
  - apply scans_to_plain_app; [exact Hopen|].
    apply scans_to_plain_app; [exact Hnl|].
    apply scans_to_plain_app; [apply indent_no_quote|].
    apply scans_to_app; [exact Hj| | |].
    + now apply scans_to_plain.
    + reflexivity.
    + now apply keeps_first_quote_plain.
  - apply keeps_first_quote_app; [now apply keeps_first_quote_plain|].
    apply keeps_first_quote_app; [now apply keeps_first_quote_plain|].
    apply keeps_first_quote_app; [apply keeps_first_quote_plain, indent_no_quote|].
    apply keeps_first_quote_app; [exact Hk|now apply keeps_first_quote_plain].
  - unfold head_ok. rewrite append_cons. cbn [starts_with_colon]. now rewrite Hoc.
Qed.

Lemma stringify_scans_well j : plain j = true -> scans_well j.
Proof.
  induction j as [|b|z|s|l IH|l IH] using json_nested_ind; intros Hp.
  - now apply (scans_well_plain_text _ "null").
  - destruct b; [now apply (scans_well_plain_text _ "true")
                |now apply (scans_well_plain_text _ "false")].
  - destruct (pretty_Z_numeric (integer z)) as [Hn Hne].
    apply (scans_well_plain_text _ (pretty (integer z))); try reflexivity.
    + now apply numeric_no_quote.
    + now apply numeric_head.
  - simpl in Hp. destruct (plain_string_escape s Hp) as [Hq Hh].
    intros d. simpl. unfold quote. split; [|split].
    + now apply scans_to_value.
    + intros r _. rewrite quoted_app. now apply keeps_first_quote_quoted.
    + reflexivity.
  - destruct l as [|x l]; [now apply (scans_well_plain_text _ "[]")|].
    simpl in Hp. intros d.
    apply (scans_to_bracketed "[" "]" d
             (map (stringify (S d)) (x :: l)) (map (unquoted (S d)) (x :: l)));
      try reflexivity; [discriminate| |].
    + apply Forall2_fmap, Forall_Forall2_diag.
      rewrite List.Forall_forall in IH |- *. intros y Hy.
      apply IH; [exact Hy|].
      apply andb_prop in Hp. destruct Hp as [Hx Hl].
      destruct Hy as [<-|Hy]; [exact Hx|].
      rewrite forallb_forall in Hl. now apply Hl.
    + apply List.Forall_map. rewrite List.Forall_forall in IH |- *. intros y Hy.
      assert (Hpy : plain y = true).
      { apply andb_prop in Hp. destruct Hp as [Hx Hl].
        destruct Hy as [<-|Hy]; [exact Hx|].
        rewrite forallb_forall in Hl. now apply Hl. }
      destruct (IH y Hy Hpy (S d)) as (_ & Hk & Hh). now split.
  - destruct l as [|kv l]; [now apply (scans_well_plain_text _ "{}")|].
    intros d.
    assert (Hmem : forall m, In m (kv :: l) ->
              plain_string (fst m) = true /\ fst m <> EmptyString /\ plain (snd m) = true).
    { intros m Hm. simpl in Hp.
      assert (H : (plain_string (fst m) && negb (String.eqb (fst m) EmptyString)
                   && plain (snd m)) = true).
      { apply andb_prop in Hp. destruct Hp as [Hx Hl].
        destruct Hm as [<-|Hm]; [exact Hx|].
        rewrite forallb_forall in Hl. now apply Hl. }
      apply andb_prop in H. destruct H as [H H3]. apply andb_prop in H.
      destruct H as [H1 H2]. apply negb_true_iff, String.eqb_neq in H2. now repeat split. }
    apply (scans_to_bracketed "{" "}" d
             (map (fun m => quote (fst m) +:+ ": " +:+ stringify (S d) (snd m)) (kv :: l))
             (map (fun m => escape (fst m) +:+ ": " +:+ unquoted (S d) (snd m)) (kv :: l)));
      try reflexivity; [discriminate| |].
    + apply Forall2_fmap, Forall_Forall2_diag.
      rewrite List.Forall_forall in IH |- *. intros m Hm.
      destruct (Hmem m Hm) as (Hk & Hne & Hv).
      destruct (plain_string_escape _ Hk) as [Hq _].
      unfold quote. apply scans_to_member; [exact Hq|now apply escape_nonempty|].
      now apply (IH m Hm Hv (S d)).
    + apply List.Forall_map. rewrite List.Forall_forall in IH |- *. intros m Hm.
      destruct (Hmem m Hm) as (Hk & Hne & Hv).
      destruct (plain_string_escape _ Hk) as [Hq Hh].
      destruct (IH m Hm Hv (S d)) as (_ & Hkeep & _).
      split; [reflexivity|].
      intros r Hr. unfold quote. rewrite append_assoc, quoted_app.
      apply (keeps_first_quote_quoted (escape (fst m))).
      right. destruct Hh as [He|Hh]; [|exact Hh].
      now elim (escape_nonempty (fst m) Hne).
Qed.

Lemma strip_bracketed (open_ close_ : ascii) d body :
  is_space open_ = false -> is_space close_ = false ->
  strip_spaces (String open_ EmptyString +:+ newline +:+ indent (S d) +:+ body
                  +:+ newline +:+ indent d +:+ String close_ EmptyString)
  = String open_ EmptyString +:+ strip_spaces body +:+ String close_ EmptyString.
Proof.
  intros Ho Hc. rewrite !strip_app, !strip_indent.
  change (strip_spaces newline) with EmptyString.
  simpl strip_spaces. rewrite Ho, Hc. reflexivity.
Qed.

Lemma strip_separator d : strip_spaces ("," +:+ newline +:+ indent d) = ",".
Proof.
  rewrite !strip_app, strip_indent. reflexivity.
Qed.

Lemma strip_unquoted j : forall d, strip_spaces (unquoted d j) = compact j.
Proof.
  induction j as [|b|z|s|l IH|l IH] using json_nested_ind; intros d.
  - reflexivity.
  - now destruct b.
  - simpl. apply strip_no_space, numeric_no_space, pretty_Z_numeric.
  - simpl. unfold quote. simpl. now rewrite strip_app.
  - destruct l as [|x l]; [reflexivity|].
    change (unquoted d (JArr (x :: l)))
      with (String "[" EmptyString +:+ newline +:+ indent (S d)
              +:+ join ("," +:+ newline +:+ indent (S d)) (map (unquoted (S d)) (x :: l))
              +:+ newline +:+ indent d +:+ String "]" EmptyString).
    rewrite strip_bracketed by reflexivity.
    rewrite strip_join, strip_separator, List.map_map.
    change (compact (JArr (x :: l))) with ("[" +:+ join "," (map compact (x :: l)) +:+ "]").
    do 3 f_equal. apply List.map_ext_Forall.
    rewrite List.Forall_forall in IH |- *. intros y Hy. now apply IH.
  - destruct l as [|kv l]; [reflexivity|].
    change (unquoted d (JObj (kv :: l)))
      with (String "{" EmptyString +:+ newline +:+ indent (S d)
              +:+ join ("," +:+ newline +:+ indent (S d))
                    (map (fun m => escape (fst m) +:+ ": " +:+ unquoted (S d) (snd m))
                       (kv :: l))
              +:+ newline +:+ indent d +:+ String "}" EmptyString).
    rewrite strip_bracketed by reflexivity.
    rewrite strip_join, strip_separator, List.map_map.
    change (compact (JObj (kv :: l)))
      with ("{" +:+ join ","
                      (map (fun m => strip_spaces (escape (fst m)) +:+ ":" +:+ compact (snd m))
                         (kv :: l)) +:+ "}").
    do 3 f_equal. apply List.map_ext_Forall.
    rewrite List.Forall_forall in IH |- *. intros m Hm.
    rewrite !strip_app. rewrite (IH m Hm). reflexivity.
Qed.

(** On plain JSON the scan takes the quotes off every key and changes
    nothing else. *)
Lemma replace_keys_stringify (all : list json) :
  forallb plain all = true ->
  replace_keys (JSON_stringify (JArr all)) = unquoted 0 (JArr all).
Proof.
  intros Hp. unfold JSON_stringify.
  destruct (stringify_scans_well (JArr all) Hp 0) as (Hs & _).
  specialize (Hs EmptyString eq_refl). rewrite append_nil_r in Hs.
  rewrite Hs. apply append_nil_r.
Qed.

(** X20. For JSON whose strings hold no double quote and begin with no
    colon, and whose keys are not empty, the three steps of the signature
    (pretty-printing with an indent of four, taking the quotes off the
    keys, deleting every blank) give the compact form of the list: keys
    bare, string values between quotes with their blanks deleted, members
    separated by commas and nothing else. *)
Theorem canonical_is_compact (all : list json) :
  forallb plain all = true -> canonical all = compact (JArr all).
Proof.
  intros Hp. unfold canonical. rewrite replace_keys_stringify by assumption.
  apply strip_unquoted.
Qed.

Lemma strip_no_space_out s : no_space (strip_spaces s) = true.
Proof.
  induction s as [|c s IH]; [reflexivity|]. cbn [strip_spaces].
  destruct (is_space c) eqn:E; [exact IH|].
  unfold no_space in *. cbn [all_chars]. now rewrite E, IH.
Qed.

Lemma strip_escape_blank c x :
  is_blank c = true -> strip_spaces (escape_char c +:+ x) = strip_spaces x.
Proof.
  destruct c as [[] [] [] [] [] [] [] []]; intros H; try discriminate; reflexivity.
Qed.

Lemma strip_escape_remove_blanks s :
  strip_spaces (escape (remove_blanks s)) = strip_spaces (escape s).
Proof.
  induction s as [|c s IH]; [reflexivity|]. simpl.
  destruct (is_blank c) eqn:E.
  - now rewrite strip_escape_blank.
  - simpl. rewrite !strip_app. now rewrite IH.
Qed.

Lemma compact_squeeze j : compact (squeeze j) = compact j.
Proof.
  induction j as [|b|z|s|l IH|l IH] using json_nested_ind; try reflexivity.
  - simpl. now rewrite strip_escape_remove_blanks.
  - simpl. rewrite List.map_map. do 3 f_equal. apply List.map_ext_Forall. exact IH.
  - simpl. rewrite List.map_map. do 3 f_equal. apply List.map_ext_Forall.
    rewrite List.Forall_forall in IH |- *. intros m Hm. simpl.
    now rewrite strip_escape_remove_blanks, (IH m Hm).
Qed.

Lemma canonical_is_compact_witness :
  canonical [toJSON (Fixtures.builder "ping")] =
  compact (JArr [toJSON (Fixtures.builder "ping")]).
Proof. apply canonical_is_compact. reflexivity. Defined.

(** X21. Whatever the exported list, its signature opens with the bracket
    of the array and holds no blank character at all. *)
Theorem signature_has_no_blank (all : list json) :
  no_space (canonical all) = true
  /\ exists rest, canonical all = String "[" rest.
Proof.
  split; [apply strip_no_space_out|].
  unfold canonical.
  assert (H : exists r, JSON_stringify (JArr all) = String "[" r).
  { destruct all; simpl; eauto. }
  destruct H as [r ->]. rewrite replace_keys_copy by reflexivity.
  simpl. eauto.
Qed.

(** X22. For plain JSON (strings without double quote and without a colon
    at their start, keys not empty) the signature does not see the blanks
    inside strings.  Two sets of definitions, both plain, whose JSON
    differs only by spaces (or no-break spaces) inside string values or
    keys have the same signature, so after such a change a login that finds
    the old signature stored does not call the REST transport: the change
    is not registered.  (Outside plain JSON this fails: a blank may stand
    between an escaped quote and a colon.) *)
Theorem blanks_in_strings_are_not_detected
    (sdk : Sdk) (env : Env) (client client' : Client) (token : option string) :
  forallb plain (all_of client) = true ->
  forallb plain (all_of client') = true ->
  all_of client' = map squeeze (all_of client) ->
  parsedString client' = parsedString client
  /\ (store_get reserved_key EmptyString client' = parsedString client ->
      puts (login_trace (login sdk env client' token)) = 0).
Proof.
  intros Hp Hp' Hall.
  assert (E : parsedString client' = parsedString client).
  { unfold parsedString, canonical.
    rewrite !replace_keys_stringify, !strip_unquoted by assumption.
    rewrite Hall. simpl. rewrite List.map_map. do 3 f_equal.
    apply List.map_ext. intros j. apply compact_squeeze. }
  split; [exact E|]. intros Hstored. apply login_skips_when_current. now rewrite E.
Qed.

Lemma blanks_in_strings_are_not_detected_witness :
  let spaced := {| name := "ping";
                   toJSON := JObj [("name", JStr "ping");
                                   ("description", JStr "Replies with pong")] |} in
  let squeezed := {| name := "ping";
                     toJSON := JObj [("name", JStr "ping");
                                     ("description", JStr "Replieswithpong")] |} in
  let command b := {| cd_data := b; cd_permissions := None;
                      cd_top := Fixtures.top Fixtures.succeeds |} in
  let before := loadCommand Fixtures.sdk (command spaced) new_Client in
  let registered := login_client (login Fixtures.sdk Fixtures.no_env before (Some "token")) in
  let after := loadCommand Fixtures.sdk (command squeezed) registered in
  all_of after <> all_of registered
  /\ puts (login_trace (login Fixtures.sdk Fixtures.no_env after (Some "token"))) = 0.
Proof.
  intros spaced squeezed command before registered after. split.
  - vm_compute. discriminate.
  - destruct (blanks_in_strings_are_not_detected Fixtures.sdk Fixtures.no_env
                registered after (Some "token")) as [_ H];
      [reflexivity|reflexivity|reflexivity|].
    apply H. vm_compute. reflexivity.
Defined.

(** Outside plain JSON the blanks may count: with a blank between an escaped
    quote and a colon the scan of the keys finds no match, and without the
    blank it finds one. *)
Example blank_between_quote_and_colon_is_detected :
  let spaced := JStr (String "a" (String dquote (String " " ":b"))) in
  plain spaced = false
  /\ canonical [squeeze spaced] <> canonical [spaced].
Proof.
  intros spaced. split; [reflexivity|]. vm_compute. discriminate.
Qed.

(* ===================================================================== *)
(** ** The first revision: subcommand groups, listener, registration     *)
(* ===================================================================== *)

Lemma subcommands_addSubcommands added this :
  FirstRevision.subcommands (FirstRevision.addSubcommands added this) =
  FirstRevision.subcommands this ++ added
  /\ FirstRevision.name (FirstRevision.addSubcommands added this) = FirstRevision.name this
  /\ FirstRevision.execute (FirstRevision.addSubcommands added this) =
     FirstRevision.execute this.
Proof.
  revert this. induction added as [|s added IH]; intros this.
  - simpl. now rewrite List.app_nil_r.
  - unfold FirstRevision.addSubcommands in *. simpl.
    destruct (IH (FirstRevision.addSubcommand s this)) as (H1 & H2 & H3).
    rewrite H1, H2, H3. simpl. now rewrite <- List.app_assoc.
Qed.

Lemma find_none_of_forall (s : string) (l : list FirstRevision.Subcommand) :
  Forall (fun sc => FirstRevision.sc_name sc <> s) l ->
  List.find (fun sc => String.eqb (FirstRevision.sc_name sc) s) l = None.
Proof.
  induction 1 as [|sc l Hsc _ IH]; [reflexivity|]. simpl.
  apply String.eqb_neq in Hsc. now rewrite Hsc.
Qed.

(** X23. A subcommand group of the first revision keeps its subcommands in
    an array and looks the executor up with [find]: among the subcommands
    added under one name the first one added is the one executed, whatever
    was added after it (the registry of commands, a map, keeps the last).
    A name that no subcommand has is answered with a direct ephemeral reply
    and nothing is called. *)
Theorem subcommand_group_first_added_wins
    (g s : string) (added : list FirstRevision.Subcommand)
    (i : Interaction) (f : Flags) :
  getSubcommand i = Some s ->
  s <> EmptyString ->
  let group := FirstRevision.addSubcommands added (FirstRevision.new_SubcommandGroup g) in
  (forall before d after,
      added = before ++ d :: after ->
      FirstRevision.sc_name d = s ->
      Forall (fun sc => FirstRevision.sc_name sc <> s) before ->
      FirstRevision.execute_command group i f =
      call (SubcommandExecute g None s) (FirstRevision.sc_execute d) i [] f)
  /\ (Forall (fun sc => FirstRevision.sc_name sc <> s) added ->
      FirstRevision.execute_command group i f =
      ([Reply "An error occurred while executing this command." true], f, Ok tt)).
Proof.
  intros Hs Hne group.
  destruct (subcommands_addSubcommands added (FirstRevision.new_SubcommandGroup g))
    as (Hsub & Hname & Hexec).
  fold group in Hsub, Hname, Hexec. simpl in Hsub, Hname, Hexec.
  assert (Ht : truthy (getSubcommand i) = true).
  { rewrite Hs. simpl. apply String.eqb_neq in Hne. now rewrite Hne. }
  unfold FirstRevision.execute_command, FirstRevision.find_subcommand.
  rewrite Hexec, Ht, Hsub, Hname, Hs. cbn [key_name]. split.
  - intros before d after -> Hd Hbefore.
    rewrite find_app, (find_none_of_forall s before Hbefore). simpl.
    rewrite Hd, String.eqb_refl. reflexivity.
  - intros Hall. now rewrite (find_none_of_forall s added Hall).
Qed.

Lemma subcommand_group_first_added_wins_witness :
  let first := {| FirstRevision.sc_name := "add"; FirstRevision.sc_execute := Fixtures.fails "first" |} in
  let second := {| FirstRevision.sc_name := "add"; FirstRevision.sc_execute := Fixtures.succeeds |} in
  let other := {| FirstRevision.sc_name := "list"; FirstRevision.sc_execute := Fixtures.succeeds |} in
  let group :=
    FirstRevision.addSubcommands [other; first; second]
      (FirstRevision.new_SubcommandGroup "todo") in
  let i := {| kind := ChatInputCommand; commandName := "todo"; customId := "";
              inGuild := false; member := None; getSubcommand := Some "add";
              getSubcommandGroup := None |} in
  FirstRevision.execute_command group i Fixtures.fresh =
  ([Invoke (SubcommandExecute "todo" None "add") []], Fixtures.fresh, Throw "first").
Proof.
  intros first second other group i.
  destruct (subcommand_group_first_added_wins "todo" "add" [other; first; second]
              i Fixtures.fresh eq_refl) as [H _]; [discriminate|].
  subst group. rewrite (H [other] first [second]); [reflexivity|reflexivity|reflexivity|].
  repeat constructor. discriminate.
Defined.

Lemma first_revision_command_execute_events command i :
  at_most_one_call (FirstRevision.execute_command command i)
  /\ one_message_unless_thrown (FirstRevision.execute_command command i).
Proof.
  unfold FirstRevision.execute_command, FirstRevision.find_subcommand. split.
  - repeat one_call_step.
  - destruct (FirstRevision.execute command).
    + apply one_message_of_none. no_message_tac.
    + destruct (truthy (getSubcommand i)).
      * destruct (List.find _ _).
        -- apply one_message_of_none. no_message_tac.
        -- apply one_message_emit.
      * apply one_message_of_none. no_message_tac.
Qed.

(** X24. The listener the first revision installs isolates the executor:
    it throws nothing, calls at most one closure and sends at most one
    message.  An interaction that is no command, or that names no
    registered command, gets no event at all (no reply); what an executor
    throws is logged and answered with a direct reply, whatever the flags
    the executor left on the interaction. *)
Theorem first_revision_listener_isolates_executors
    (commands : JsMap.t FirstRevision.Command) (i : Interaction) (f : Flags) :
  result_of (FirstRevision.interactionCreate commands i f) = Ok tt
  /\ List.length (invocations (trace_of (FirstRevision.interactionCreate commands i f))) <= 1
  /\ List.length (messages (trace_of (FirstRevision.interactionCreate commands i f))) <= 1
  /\ (FirstRevision.isCommand (kind i) = false
      \/ JsMap.get (commandName i) commands = None ->
      FirstRevision.interactionCreate commands i f = ([], f, Ok tt))
  /\ (forall command b,
        FirstRevision.isCommand (kind i) = true ->
        JsMap.get (commandName i) commands = Some command ->
        FirstRevision.execute command = FirstRevision.Closure b ->
        FirstRevision.interactionCreate commands i f =
        match b i f [] with
        | (f', None) =>
            ([Invoke (CommandExecute (FirstRevision.name command)) []], f', Ok tt)
        | (f', Some e) =>
            ([Invoke (CommandExecute (FirstRevision.name command)) [];
              LoggerError e;
              Reply "There was an error while executing this command." true],
             f', Ok tt)
        end).
Proof.
  repeat split.
  - assert (H : never_throws (FirstRevision.interactionCreate commands i)).
    { unfold FirstRevision.interactionCreate. repeat never_throws_step. }
    destruct (H f) as [[] Ha]. exact Ha.
  - assert (H : at_most_one_call (FirstRevision.interactionCreate commands i)).
    { unfold FirstRevision.interactionCreate.
      destruct (FirstRevision.isCommand (kind i));
        [|apply at_most_one_call_of_none; no_call_tac].
      destruct (JsMap.get (commandName i) commands) as [command|];
        [|apply at_most_one_call_of_none; no_call_tac].
      apply at_most_one_call_try_catch; [|intros ?; no_call_tac].
      apply first_revision_command_execute_events. }
    apply H.
  - assert (H : one_message_unless_thrown (FirstRevision.interactionCreate commands i)).
    { unfold FirstRevision.interactionCreate.
      destruct (FirstRevision.isCommand (kind i));
        [|apply one_message_of_none; no_message_tac].
      destruct (JsMap.get (commandName i) commands) as [command|];
        [|apply one_message_of_none; no_message_tac].
      apply one_message_try_catch; [apply first_revision_command_execute_events|].
      intros e. repeat one_message_step. }
    specialize (H f).
    destruct (result_of (FirstRevision.interactionCreate commands i f));
      [exact H|rewrite H; simpl; lia].
  - intros [Hk|Hget]; unfold FirstRevision.interactionCreate.
    + now rewrite Hk.
    + rewrite Hget. now destruct (FirstRevision.isCommand (kind i)).
  - intros command b Hk Hget Hexec.
    unfold FirstRevision.interactionCreate, FirstRevision.execute_command.
    rewrite Hk, Hget, Hexec. unfold try_catch, call.
    destruct (b i f []) as [f' [e|]]; reflexivity.
Qed.

Lemma first_revision_listener_isolates_executors_witness :
  let deferring :=
    FirstRevision.setExecutor (Fixtures.defers_then_fails "boom")
      (FirstRevision.new_Command "ping") in
  let commands := JsMap.set "ping" deferring JsMap.empty in
  FirstRevision.interactionCreate commands
    (Fixtures.interaction ChatInputCommand "ping" "") Fixtures.fresh =
  ([Invoke (CommandExecute "ping") []; LoggerError "boom";
    Reply "There was an error while executing this command." true],
   {| deferred := true; replied := false |}, Ok tt)
  /\ FirstRevision.interactionCreate commands
       (Fixtures.interaction Autocomplete "ping" "") Fixtures.fresh =
     ([], Fixtures.fresh, Ok tt).
Proof.
  intros deferring commands. split.
  - destruct (first_revision_listener_isolates_executors commands
                (Fixtures.interaction ChatInputCommand "ping" "") Fixtures.fresh)
      as (_ & _ & _ & _ & H).
    apply (H deferring (Fixtures.defers_then_fails "boom")); reflexivity.
  - destruct (first_revision_listener_isolates_executors commands
                (Fixtures.interaction Autocomplete "ping" "") Fixtures.fresh)
      as (_ & _ & _ & H & _).
    apply H. left. reflexivity.
Defined.

Lemma filter_put_started (l : list FirstRevision.Effect) route body :
  List.filter FirstRevision.is_transport_call
    (([FirstRevision.AddEvent "interactionCreate" false] ++
      [FirstRevision.ConsoleLog "Started refreshing application commands...";
       FirstRevision.Put route body]) ++ l)
  = FirstRevision.Put route body :: List.filter FirstRevision.is_transport_call l.
Proof. reflexivity. Qed.

(** X25. [registerCommands] of the first revision installs its listener
    first, on every call.  It rejects only for want of a token or of a
    client id, and then before any call of the transport; otherwise it
    calls the transport exactly once and is fulfilled whether or not that
    call failed: a failure of the transport is logged and goes no further.
    The body is the JSON of the registered commands in the order of the
    registry, the route is the guild's whenever a guild id is given, and
    the client id is the argument, else the one of the logged-in user, else
    the one of the environment. *)
Theorem registerCommands_survives_the_transport
    (sdk : Sdk) (toJSON : FirstRevision.Command -> json) (env : Env)
    (this : FirstRevision.Client) (guildId clientId token : option string) :
  let r := FirstRevision.registerCommands sdk toJSON env this guildId clientId token in
  hd_error (fst r) = Some (FirstRevision.AddEvent "interactionCreate" false)
  /\ (snd r = FirstRevision.Fulfilled <->
      List.length (List.filter FirstRevision.is_transport_call (fst r)) = 1)
  /\ (forall e, snd r = FirstRevision.RejectedWith e ->
        List.filter FirstRevision.is_transport_call (fst r) = []
        /\ (e = "No token provided." \/ e = "No client ID provided."))
  /\ (forall route body, In (FirstRevision.Put route body) (fst r) ->
        body = map toJSON (JsMap.values (FirstRevision.commands this))
        /\ (forall e, rest_put sdk route body = Some e ->
              In (FirstRevision.ConsoleError e) (fst r))
        /\ exists cid,
            nullish clientId (nullish (FirstRevision.user this) (CLIENT_ID env)) = Some cid
            /\ cid <> EmptyString
            /\ route = match guildId with
                       | Some g => if String.eqb g EmptyString
                                   then applicationCommands cid
                                   else applicationGuildCommands cid g
                       | None => applicationCommands cid
                       end).
Proof.
  intros r. subst r. unfold FirstRevision.registerCommands.
  set (t := nullish token _). set (c := nullish clientId _).
  assert (Hrejected : forall msg : Error,
            msg = "No token provided." \/ msg = "No client ID provided." ->
            let r := ([FirstRevision.AddEvent "interactionCreate" false],
                      FirstRevision.RejectedWith msg) in
            hd_error (fst r) = Some (FirstRevision.AddEvent "interactionCreate" false)
            /\ (snd r = FirstRevision.Fulfilled <->
                List.length (List.filter FirstRevision.is_transport_call (fst r)) = 1)
            /\ (forall e, snd r = FirstRevision.RejectedWith e ->
                  List.filter FirstRevision.is_transport_call (fst r) = []
                  /\ (e = "No token provided." \/ e = "No client ID provided."))
            /\ (forall route body, In (FirstRevision.Put route body) (fst r) -> False)).
  { intros msg Hmsg. simpl. split; [reflexivity|]. split; [split; discriminate|].
    split.
    - intros e [= <-]. auto.
    - intros route body [H|[]]. discriminate. }
  destruct (truthy t) eqn:Ht; cbn [negb].
  2:{ destruct (Hrejected "No token provided." (or_introl eq_refl)) as (H1 & H2 & H3 & H4).
      split; [exact H1|]. split; [exact H2|]. split; [exact H3|].
      intros route body Hin. destruct (H4 route body Hin). }
  destruct (truthy c) eqn:Hc; cbn [negb].
  2:{ destruct (Hrejected "No client ID provided." (or_intror eq_refl)) as (H1 & H2 & H3 & H4).
      split; [exact H1|]. split; [exact H2|]. split; [exact H3|].
      intros route body Hin. destruct (H4 route body Hin). }
  clear Hrejected.
  destruct c as [cid|] eqn:Ec; [|discriminate]. cbn [key_name].
  assert (Hcid : cid <> EmptyString).
  { simpl in Hc. intros ->. discriminate. }
  set (route := if truthy guildId then _ else _).
  assert (Hroute : route = match guildId with
                           | Some g => if String.eqb g EmptyString
                                       then applicationCommands cid
                                       else applicationGuildCommands cid g
                           | None => applicationCommands cid
                           end).
  { subst route. destruct guildId as [g|]; [|reflexivity]. simpl.
    now destruct (String.eqb g EmptyString). }
  clearbody route.
  set (body := map toJSON _).
  assert (Hin : forall last route' body',
            FirstRevision.is_transport_call last = false ->
            In (FirstRevision.Put route' body')
              (([FirstRevision.AddEvent "interactionCreate" false] ++
                [FirstRevision.ConsoleLog "Started refreshing application commands...";
                 FirstRevision.Put route body]) ++ [last]) ->
            route' = route /\ body' = body).
  { intros last route' body' Hlast [H|[H|[H|[H|[]]]]]; try discriminate.
    - injection H as <- <-. auto.
    - subst last. discriminate. }
  destruct (rest_put sdk route body) as [err|] eqn:Hput; cbn [fst snd];
    rewrite filter_put_started.
  - split; [reflexivity|]. split; [split; reflexivity|]. split; [discriminate|].
    intros route' body' H. apply Hin in H; [|reflexivity]. destruct H as [-> ->].
    split; [reflexivity|]. split.
    + intros e He. rewrite Hput in He. injection He as <-. simpl. auto.
    + exists cid. auto.
  - split; [reflexivity|]. split; [split; reflexivity|]. split; [discriminate|].
    intros route' body' H. apply Hin in H; [|reflexivity]. destruct H as [-> ->].
    split; [reflexivity|]. split.
    + intros e He. rewrite Hput in He. discriminate.
    + exists cid. auto.
Qed.

(** A transport that refuses the connection: the failure is logged and the
    call is fulfilled. *)
Example registerCommands_offline :
  FirstRevision.registerCommands Fixtures.sdk_offline (fun c => JStr (FirstRevision.name c))
    Fixtures.no_env
    {| FirstRevision.commands :=
         JsMap.set "ping" (FirstRevision.new_Command "ping") JsMap.empty;
       FirstRevision.token := Some "token"; FirstRevision.user := Some "4242" |}
    (Some "77") None None =
  ([FirstRevision.AddEvent "interactionCreate" false;
    FirstRevision.ConsoleLog "Started refreshing application commands...";
    FirstRevision.Put (applicationGuildCommands "4242" "77") [JStr "ping"];
    FirstRevision.ConsoleError "ECONNREFUSED"],
   FirstRevision.Fulfilled).
Proof. reflexivity. Qed.

(* ===================================================================== *)
(** ** The second revision: the names the filter accepts                  *)
(* ===================================================================== *)

Lemma matches_Void s : matches Void s = false.
Proof. induction s; simpl; auto. Qed.

Lemma matches_Eps s : matches Eps s = true <-> s = EmptyString.
Proof.
  destruct s; simpl; [tauto|]. rewrite matches_Void. split; discriminate.
Qed.

Lemma matches_Alt r1 r2 s : matches (Alt r1 r2) s = matches r1 s || matches r2 s.
Proof. revert r1 r2. induction s as [|c s IH]; intros; simpl; auto. Qed.

Lemma matches_Class p s :
  matches (Class p) s = true <-> exists c, s = String c EmptyString /\ p c = true.
Proof.
  destruct s as [|c s]; simpl.
  - split; [discriminate|]. intros (c & H & _). discriminate.
  - destruct (p c) eqn:E.
    + rewrite matches_Eps. split.
      * intros ->. eauto.
      * intros (c' & [= -> ->] & _). reflexivity.
    + rewrite matches_Void. split; [discriminate|].
      intros (c' & [= -> _] & H). congruence.
Qed.

Lemma matches_Seq r1 r2 s :
  matches (Seq r1 r2) s = true <->
  exists s1 s2, s = s1 +:+ s2 /\ matches r1 s1 = true /\ matches r2 s2 = true.
Proof.
  revert r1 r2. induction s as [|c s IH]; intros r1 r2.
  - simpl. rewrite andb_true_iff. split.
    + intros [H1 H2]. exists EmptyString, EmptyString. auto.
    + intros (s1 & s2 & H & H1 & H2). destruct s1; [|discriminate].
      rewrite append_nil_l in H. subst s2. auto.
  - simpl. destruct (nullable r1) eqn:En.
    + rewrite matches_Alt, orb_true_iff, IH. split.
      * intros [(s1 & s2 & -> & H1 & H2)|H].
        -- exists (String c s1), s2. auto.
        -- exists EmptyString, (String c s). auto.
      * intros (s1 & s2 & H & H1 & H2). destruct s1 as [|c1 s1].
        -- right. rewrite append_nil_l in H. subst s2. exact H2.
        -- left. rewrite append_cons in H. injection H as -> ->. exists s1, s2. auto.
    + rewrite IH. split.
      * intros (s1 & s2 & -> & H1 & H2). exists (String c s1), s2. auto.
      * intros (s1 & s2 & H & H1 & H2). destruct s1 as [|c1 s1].
        -- simpl in H1. congruence.
        -- rewrite append_cons in H. injection H as -> ->. exists s1, s2. auto.
Qed.

Lemma matches_Seq_Eps r s : matches (Seq Eps r) s = matches r s.
Proof.
  apply Bool.eq_iff_eq_true. rewrite matches_Seq. split.
  - intros (s1 & s2 & -> & H1 & H2). apply matches_Eps in H1. now subst s1.
  - intros H. exists EmptyString, s. auto.
Qed.

Lemma matches_Seq_Void r s : matches (Seq Void r) s = false.
Proof.
  destruct (matches (Seq Void r) s) eqn:E; [|reflexivity].
  apply matches_Seq in E. destruct E as (s1 & s2 & _ & H1 & _).
  now rewrite matches_Void in H1.
Qed.

Lemma matches_Star_Class p s : matches (Star (Class p)) s = all_chars p s.
Proof.
  induction s as [|c s IH]; [reflexivity|]. cbn [matches derive all_chars].
  destruct (p c); simpl.
  - now rewrite matches_Seq_Eps.
  - apply matches_Seq_Void.
Qed.

Lemma matches_Plus_Class p s :
  matches (Plus (Class p)) s = true <->
  s <> EmptyString /\ all_chars p s = true.
Proof.
  destruct s as [|c s]; [simpl; split; [discriminate|intros []; congruence]|].
  unfold Plus. cbn [matches derive nullable all_chars].
  destruct (p c); simpl.
  - rewrite matches_Seq_Eps, matches_Star_Class. split; [split; [discriminate|]|]; tauto.
  - rewrite matches_Seq_Void. split; [discriminate|]. intros [_ H]. discriminate.
Qed.

(** The names [activeRegex] matches: a first character that is no
    underscore, a stem of one character or more without line terminators,
    a blank, one more character, and [js]. *)
Lemma activeRegex_matches (n : string) :
  matches SecondRevision.activeRegex n = true <->
  exists a stem w c,
    n = String a (stem +:+ String w (String c "js"))
    /\ a <> "_"%char
    /\ stem <> EmptyString
    /\ all_chars (fun c => negb (SecondRevision.is_line_terminator c)) stem = true
    /\ is_space w = true
    /\ SecondRevision.is_line_terminator c = false.
Proof.
  unfold SecondRevision.activeRegex. split.
  - intros H.
    apply matches_Seq in H. destruct H as (s1 & r1 & -> & H1 & H).
    apply matches_Class in H1. destruct H1 as (a & -> & Ha).
    apply matches_Seq in H. destruct H as (stem & r2 & -> & Hstem & H).
    apply matches_Plus_Class in Hstem. destruct Hstem as [Hne Hstem].
    apply matches_Seq in H. destruct H as (s3 & r3 & -> & H3 & H).
    apply matches_Class in H3. destruct H3 as (w & -> & Hw).
    apply matches_Seq in H. destruct H as (s4 & r4 & -> & H4 & H).
    apply matches_Class in H4. destruct H4 as (c & -> & Hc).
    apply matches_Seq in H. destruct H as (s5 & s6 & -> & H5 & H6).
    apply matches_Class in H5. destruct H5 as (j & -> & Hj).
    apply matches_Class in H6. destruct H6 as (s' & -> & Hs).
    apply Ascii.eqb_eq in Hj, Hs. subst j s'.
    exists a, stem, w, c. repeat split; auto.
    + intros ->. discriminate.
    + now apply negb_true_iff.
  - intros (a & stem & w & c & -> & Ha & Hne & Hstem & Hw & Hc).
    apply matches_Seq. exists (String a EmptyString), (stem +:+ String w (String c "js")).
    split; [reflexivity|]. split.
    { apply matches_Class. exists a. split; [reflexivity|].
      apply negb_true_iff. now apply Ascii.eqb_neq. }
    apply matches_Seq. exists stem, (String w (String c "js")).
    split; [reflexivity|]. split.
    { apply matches_Plus_Class. now split. }
    apply matches_Seq. exists (String w EmptyString), (String c "js").
    split; [reflexivity|]. split.
    { apply matches_Class. eauto. }
    apply matches_Seq. exists (String c EmptyString), "js".
    split; [reflexivity|]. split; [|reflexivity].
    apply matches_Class. exists c. split; [reflexivity|]. now apply negb_true_iff.
Qed.

(** X26. In the second revision a file is active only when its name has a
    blank of the class [\s] as its fourth character from the end: the
    names the filter accepts are those made of a first character that is no
    underscore, one character or more without line terminators, a blank,
    one more character and [js].  So a file whose name holds no blank, as a
    stem followed by a dot and [js], is never active. *)
Theorem active_files_need_a_blank (file : SecondRevision.Dirent) :
  (SecondRevision.isActiveFile file = true <->
   SecondRevision.isFile file = true
   /\ exists a stem w c,
       SecondRevision.name file = String a (stem +:+ String w (String c "js"))
       /\ a <> "_"%char
       /\ stem <> EmptyString
       /\ all_chars (fun c => negb (SecondRevision.is_line_terminator c)) stem = true
       /\ is_space w = true
       /\ SecondRevision.is_line_terminator c = false)
  /\ (no_space (SecondRevision.name file) = true ->
      SecondRevision.isActiveFile file = false).
Proof.
  unfold SecondRevision.isActiveFile. split.
  - rewrite andb_true_iff, activeRegex_matches. reflexivity.
  - intros Hns. destruct (matches _ _) eqn:E; [|apply andb_false_r].
    apply activeRegex_matches in E.
    destruct E as (a & stem & w & c & Hn & _ & _ & _ & Hw & _).
    rewrite Hn in Hns. unfold no_space in Hns. cbn [all_chars] in Hns.
    rewrite all_chars_app in Hns. cbn [all_chars] in Hns.
    rewrite Hw in Hns. simpl in Hns.
    rewrite !andb_false_r in Hns. discriminate.
Qed.

Lemma active_files_need_a_blank_witness :
  SecondRevision.isActiveFile
    {| SecondRevision.name := "ping.js"; SecondRevision.isFile := true |} = false
  /\ SecondRevision.isActiveFile
       {| SecondRevision.name := "ping .js"; SecondRevision.isFile := true |} = true.
Proof.
  split.
  - apply active_files_need_a_blank. reflexivity.
  - apply active_files_need_a_blank. split; [reflexivity|].
    exists "p"%char, "ing", " "%char, "."%char. repeat split; discriminate.
Defined.


(* ===================================================================== *)
(** ** The files of a subcommand folder                                   *)
(* ===================================================================== *)

Lemma attach_all_fields calls entries stored :
  let settled := fold_left (fun i e => attach calls e i) entries stored in
  id_data settled = built calls entries (id_data stored)
  /\ id_permissions settled = id_permissions stored
  /\ id_execute settled = id_execute stored
  /\ id_subcommands settled =
     (fun m => fold_left (fun m s => JsMap.set (name (sd_data s)) s m)
                 (subcommand_files entries) m) <$> id_subcommands stored
  /\ id_subcommandGroups settled =
     (fun m => fold_left
                 (fun m gf => JsMap.set (name (gd_data (fst gf)))
                                (attach_to_group calls (fst gf) (snd gf)) m)
                 (group_folders entries) m) <$> id_subcommandGroups stored.
Proof.
  revert stored. induction entries as [|e entries IH]; intros stored; simpl.
  - repeat split; now destruct stored as [? ? [?|] [?|] ?].
  - destruct (IH (attach calls e stored)) as (H0 & H1 & H2 & H3 & H4).
    rewrite H0, H1, H2, H3, H4. destruct e as [s|g files]; simpl.
    + repeat split. now destruct (id_subcommands stored).
    + repeat split. now destruct (id_subcommandGroups stored).
Qed.

Lemma attach_to_group_subcommands calls group files :
  gd_subcommands (attach_to_group calls group files) =
  Some (fold_left (fun m s => JsMap.set (name (sd_data s)) s m) files
          (default JsMap.empty (gd_subcommands group))).
Proof.
  unfold attach_to_group.
  set (start := {| gd_data := gd_data group;
                   gd_subcommands := nullish (gd_subcommands group) (Some JsMap.empty) |}).
  assert (Hstart : gd_subcommands start = Some (default JsMap.empty (gd_subcommands group))).
  { subst start. simpl. now destruct (gd_subcommands group). }
  clearbody start. revert start Hstart.
  generalize (default JsMap.empty (gd_subcommands group)) as m.
  induction files as [|s files IH]; intros m start Hstart; simpl; [exact Hstart|].
  apply IH. simpl. now rewrite Hstart.
Qed.

(** What the registry holds for the folder once its imports have settled. *)
Lemma loadSubcommandFolder_stored sdk calls index entries client :
  id_permissions index = None ->
  id_execute index = NoExecute ->
  exists settled,
    JsMap.get (name (id_data index))
      (commands (loadSubcommandFolder sdk calls index entries client)) =
    Some (IsSubcommandIndexData settled)
    /\ id_data settled = built calls entries (id_data index)
    /\ id_permissions settled = None
    /\ id_execute settled = DispatchExecute
    /\ id_subcommands settled =
       Some (fold_left (fun m s => JsMap.set (name (sd_data s)) s m)
               (subcommand_files entries) (default JsMap.empty (id_subcommands index)))
    /\ id_subcommandGroups settled =
       Some (fold_left
               (fun m gf => JsMap.set (name (gd_data (fst gf)))
                              (attach_to_group calls (fst gf) (snd gf)) m)
               (group_folders entries) (default JsMap.empty (id_subcommandGroups index))).
Proof.
  intros Hp He. unfold loadSubcommandFolder. rewrite Hp.
  rewrite (loadSubcommand_stored sdk index client Hp He).
  eexists. split; [simpl; apply get_set_eq|].
  destruct (attach_all_fields calls entries
              {| id_data := id_data index; id_permissions := None;
                 id_subcommands := nullish (id_subcommands index) (Some JsMap.empty);
                 id_subcommandGroups :=
                   nullish (id_subcommandGroups index) (Some JsMap.empty);
                 id_execute := DispatchExecute |}) as (H0 & H1 & H2 & H3 & H4).
  rewrite H0, H1, H2, H3, H4. simpl. repeat split.
  - now destruct (id_subcommands index).
  - now destruct (id_subcommandGroups index).
Qed.

(** The dispatch of a stored index that has the closure of the loader and
    no permission requirement. *)
Lemma dispatch_of_stored sdk client stored i f s :
  JsMap.get (commandName i) (commands client) = Some (IsSubcommandIndexData stored) ->
  id_permissions stored = None ->
  id_execute stored = DispatchExecute ->
  kind i = ChatInputCommand ->
  getSubcommand i = Some s ->
  s <> EmptyString ->
  useDefaultInteractionHandler sdk client i f =
  answered "There was an error while executing this command!"
    (dispatch_execute stored i) f.
Proof.
  intros Hget Hp He Hk Hs Hne.
  unfold useDefaultInteractionHandler, chat_input. rewrite Hk, Hget.
  cbn [permissions]. rewrite Hp. cbn [lacks_permission].
  assert (Hd : (if inGuild i then ret false else ret false) = (ret false : M bool)).
  { now destruct (inGuild i). }
  rewrite Hd, bind_ret_l. cbn [command_execute]. now rewrite He.
Qed.

(** X27. For a folder whose index has no permission requirement and no
    executor of its own (so that the closure of the loader runs): once the
    imports of the folder have settled, a chat-input interaction for the
    index reaches the executor of the file whose builder has the name the
    options give: among the files of that name the one whose import settled
    last, and for a group the last folder of the group's name and the last
    of its files of the subcommand's name.  What the executor throws is
    logged and answered once.  A name that no file and no entry of the
    index's own map has is answered with the message that the subcommand
    could not be found. *)
Theorem folder_subcommands_are_dispatched
    (sdk : Sdk) (calls : BuilderCalls) (client : Client) (index : SubcommandIndexData)
    (entries : list FolderEntry) (i : Interaction) (f : Flags) (s : string) :
  id_permissions index = None ->
  id_execute index = NoExecute ->
  kind i = ChatInputCommand ->
  commandName i = name (id_data index) ->
  getSubcommand i = Some s ->
  s <> EmptyString ->
  let client' := loadSubcommandFolder sdk calls index entries client in
  let found g sub :=
    useDefaultInteractionHandler sdk client' i f =
    answered "There was an error while executing this command!"
      (call (SubcommandExecute (name (built calls entries (id_data index))) g s)
         (execute (sd_top sub)) i []) f in
  (truthy (getSubcommandGroup i) = false ->
   (forall sub,
       last_loaded (fun d => name (sd_data d)) s (subcommand_files entries) = Some sub ->
       found None sub)
   /\ (last_loaded (fun d => name (sd_data d)) s (subcommand_files entries) = None ->
       id_subcommands index ≫= JsMap.get s = None ->
       useDefaultInteractionHandler sdk client' i f =
       ([if deferred f || replied f
         then EditReply ("Could not find subcommand **" +:+ s +:+ "**!") true
         else Reply ("Could not find subcommand **" +:+ s +:+ "**!") true], f, Ok tt)))
  /\ (forall g group files sub,
        getSubcommandGroup i = Some g -> g <> EmptyString ->
        last_loaded (fun gf => name (gd_data (fst gf))) g (group_folders entries)
        = Some (group, files) ->
        last_loaded (fun d => name (sd_data d)) s files = Some sub ->
        found (Some g) sub).
Proof.
  intros Hp He Hk Hn Hs Hne client' found.
  destruct (loadSubcommandFolder_stored sdk calls index entries client Hp He)
    as (settled & Hget & Hdata & Hsp & Hse & Hsubs & Hgroups).
  fold client' in Hget. rewrite <- Hn in Hget.
  pose proof (dispatch_of_stored sdk client' settled i f s Hget Hsp Hse Hk Hs Hne) as Hrun.
  assert (Hts : truthy (getSubcommand i) = true).
  { rewrite Hs. simpl. apply String.eqb_neq in Hne. now rewrite Hne. }
  unfold dispatch_execute in Hrun. rewrite Hk, Hts, Hs in Hrun.
  cbn [key_name] in Hrun. rewrite Hsubs, Hgroups in Hrun.
  split.
  - intros Hg. rewrite Hg in Hrun. unfold get_of in Hrun.
    rewrite (get_fold_set (fun d => name (sd_data d)) (fun d => d)) in Hrun.
    unfold last_loaded. split.
    + intros sub Hsub. subst found. cbv beta.
      rewrite Hrun, Hsub, Hdata.
      etransitivity; [|apply answered_idle, answered_call_result].
      apply answered_ext. now rewrite bind_ret_l.
    + intros Hnone Hown. rewrite Hrun, Hnone.
      assert (Hm : JsMap.get s (default JsMap.empty (id_subcommands index)) = None).
      { destruct (id_subcommands index); [exact Hown|reflexivity]. }
      rewrite Hm.
      etransitivity; [apply answered_idle; rewrite bind_ret_l, reply_run; now exists tt|].
      now rewrite bind_ret_l, reply_run.
  - intros g group files sub Hg Hgne Hgroup Hsub.
    assert (Htg : truthy (getSubcommandGroup i) = true).
    { rewrite Hg. simpl. apply String.eqb_neq in Hgne. now rewrite Hgne. }
    rewrite Htg, Hg in Hrun. cbn [JsMap.get_opt] in Hrun.
    rewrite (get_fold_set (fun gf => name (gd_data (fst gf)))
               (fun gf => attach_to_group calls (fst gf) (snd gf))) in Hrun.
    unfold last_loaded in Hgroup, Hsub. rewrite Hgroup in Hrun.
    cbn [fst snd] in Hrun. rewrite attach_to_group_subcommands in Hrun.
    unfold get_of in Hrun.
    rewrite (get_fold_set (fun d => name (sd_data d)) (fun d => d)), Hsub in Hrun.
    subst found. cbv beta. rewrite Hrun, Hdata.
    etransitivity; [|apply answered_idle, answered_call_result].
    apply answered_ext. now rewrite bind_ret_l.
Qed.

Lemma folder_subcommands_are_dispatched_witness :
  let calls := {| index_addSubcommand := fun _ b => b;
                  group_addSubcommand := fun _ b => b;
                  index_addSubcommandGroup := fun _ b => b |} in
  let index := {| id_data := Fixtures.builder "todo"; id_permissions := None;
                  id_subcommands := None; id_subcommandGroups := None;
                  id_execute := NoExecute |} in
  let early := Fixtures.subcommand "add" (Fixtures.top Fixtures.succeeds) in
  let late := Fixtures.subcommand "add" (Fixtures.top (Fixtures.fails "late")) in
  let group := {| gd_data := Fixtures.builder "list"; gd_subcommands := None |} in
  let entries := [SubcommandFile early; GroupFolder group [early]; SubcommandFile late] in
  let i := {| kind := ChatInputCommand; commandName := "todo"; customId := EmptyString;
              inGuild := false; member := None; getSubcommand := Some "add";
              getSubcommandGroup := None |} in
  useDefaultInteractionHandler Fixtures.sdk
    (loadSubcommandFolder Fixtures.sdk calls index entries new_Client) i Fixtures.fresh =
  ([Invoke (SubcommandExecute "todo" None "add") []; LoggerError "late";
    Reply "There was an error while executing this command!" true],
   Fixtures.fresh, Ok tt).
Proof.
  intros calls index early late group entries i.
  destruct (folder_subcommands_are_dispatched Fixtures.sdk calls new_Client index entries
              i Fixtures.fresh "add" eq_refl eq_refl eq_refl eq_refl eq_refl)
    as [H _]; [discriminate|].
  destruct (H eq_refl) as [H' _]. rewrite (H' late eq_refl). reflexivity.
Defined.
